(** * EIP-7702 wallet upgrade and recovery demo: hash commitments, signing,
      state inspection, recovery orchestration and the relay endpoint.

    The development embeds the TypeScript sources of the demo:
    - [Contracts]      : the contract constants (addresses, type descriptor,
                         storage slot, delegation prefix);
    - [WalletUtils]    : the browser-side helper library (owner encoding,
                         initialization hash, initialization signature);
    - [UpgradeScript]  : the stand-alone upgrade script with its own copies
                         of the same helpers;
    - [RecoveryModal], [AccountState], [Relay], [PasskeyVerification] :
                         the recovery dialog, the state display, the relay
                         route and the verification / recovery component.

    Values of the TypeScript type [Hex] are strings, as in the source; the
    helper libraries the sources call (hex codecs, Keccak-256, ABI
    encoding) are modelled in [Js], [Keccak] and [Viem]. *)

From Stdlib Require Import ZArith NArith List String Ascii Bool Lia.
From Stdlib Require Import Strings.Byte.
Import ListNotations.

Local Open Scope string_scope.
Local Open Scope list_scope.

Set Warnings "-register-all".

(* ================================================================== *)
(** * JavaScript strings and hex text *)
(* ================================================================== *)

Module Js.

Definition Bytes := list byte.

(** [String.prototype.startsWith]. *)
Fixpoint startsWith (s p : string) {struct p} : bool :=
  match p, s with
  | EmptyString, _ => true
  | String _ _, EmptyString => false
  | String a p', String b s' => Ascii.eqb a b && startsWith s' p'
  end.

(** [s.slice(n)] for a non-negative [n]. *)
Fixpoint slice_from (n : nat) (s : string) : string :=
  match n, s with
  | O, _ => s
  | S n', String _ s' => slice_from n' s'
  | S _, EmptyString => EmptyString
  end.

(** [s.slice(-n)] for a positive [n]: the last [n] characters, or the
    whole string when it is shorter. *)
Definition slice_last (n : nat) (s : string) : string :=
  slice_from (String.length s - n) s.

(** [String.fromCharCode(c).repeat(n)]. *)
Fixpoint repeat_char (c : ascii) (n : nat) : string :=
  match n with
  | O => EmptyString
  | S n' => String c (repeat_char c n')
  end.

(** [s.padStart(n, c)] with a one-character filler. *)
Definition padStart (n : nat) (c : ascii) (s : string) : string :=
  repeat_char c (n - String.length s) ++ s.

(** [s.padEnd(n, c)] with a one-character filler. *)
Definition padEnd (n : nat) (c : ascii) (s : string) : string :=
  (s ++ repeat_char c (n - String.length s))%string.

(** Lower-casing of one character, ASCII letters only. *)
Definition lower_char (c : ascii) : ascii :=
  let n := N_of_ascii c in
  if (65 <=? n)%N && (n <=? 90)%N then ascii_of_N (n + 32) else c.

Definition upper_char (c : ascii) : ascii :=
  let n := N_of_ascii c in
  if (97 <=? n)%N && (n <=? 122)%N then ascii_of_N (n - 32) else c.

(** [s.toLowerCase()] on ASCII text. *)
Fixpoint toLowerCase (s : string) : string :=
  match s with
  | EmptyString => EmptyString
  | String c s' => String (lower_char c) (toLowerCase s')
  end.

(** The hexadecimal digit of a nibble, lower case:
    ["0123456789abcdef"[n]]. *)
Definition hex_digit (n : N) : ascii :=
  match String.get (N.to_nat n) "0123456789abcdef" with
  | Some digit => digit
  | None => "f"%char
  end.

(** The value of a hexadecimal digit, either case; [None] otherwise. *)
Definition asciiToBase16 (c : ascii) : option N :=
  let n := N_of_ascii c in
  if (48 <=? n)%N && (n <=? 57)%N then Some (n - 48)%N
  else if (65 <=? n)%N && (n <=? 70)%N then Some (n - 55)%N
  else if (97 <=? n)%N && (n <=? 102)%N then Some (n - 87)%N
  else None.

Definition byte_of_N (n : N) : byte :=
  match Byte.of_N n with Some b => b | None => x00 end.

(** Two hex digits of one byte. *)
Definition byte_hex (b : byte) : string :=
  let n := Byte.to_N b in
  String (hex_digit (n / 16)) (String (hex_digit (n mod 16)) EmptyString).

(** [Buffer.from(bytes).toString("hex")]: lower-case hex, no prefix. *)
Fixpoint hex_of_bytes (bs : Bytes) : string :=
  match bs with
  | [] => EmptyString
  | b :: bs' => byte_hex b ++ hex_of_bytes bs'
  end.

(** [hexToBytes] of [@noble/curves/abstract/utils]: the argument carries
    no prefix; an odd length or a character that is no hex digit is an
    error. *)
Fixpoint hexToBytes (hex : string) : option Bytes :=
  match hex with
  | EmptyString => Some []
  | String _ EmptyString => None
  | String c1 (String c2 rest) =>
      match asciiToBase16 c1, asciiToBase16 c2, hexToBytes rest with
      | Some n1, Some n2, Some bs => Some (byte_of_N (n1 * 16 + n2) :: bs)
      | _, _, _ => None
      end
  end.

(** Base-16 digits of a positive number, most significant first
    ([fuel] bounds the number of digits). *)
Fixpoint hex_digits (fuel : nat) (n : N) (acc : string) : string :=
  match fuel with
  | O => acc
  | S fuel' =>
      let acc' := String (hex_digit (n mod 16)) acc in
      if (n / 16 =? 0)%N then acc' else hex_digits fuel' (n / 16) acc'
  end.

(** [n.toString(16)] of a non-negative integer or bigint. *)
Definition toString16 (n : N) : string :=
  hex_digits (S (N.to_nat (N.log2 n))) n EmptyString.

(** Decimal rendering [String(n)] of a non-negative integer. *)
Fixpoint dec_digits (fuel : nat) (n : N) (acc : string) : string :=
  match fuel with
  | O => acc
  | S fuel' =>
      let acc' := String (ascii_of_N (48 + n mod 10)) acc in
      if (n / 10 =? 0)%N then acc' else dec_digits fuel' (n / 10) acc'
  end.

Definition toStringDec (n : N) : string :=
  dec_digits (S (N.to_nat (N.log2 n))) n EmptyString.

(** The [k] low-order bytes of [n], least significant first. *)
Fixpoint le_bytes (k : nat) (n : N) : Bytes :=
  match k with
  | O => []
  | S k' => byte_of_N (n mod 256) :: le_bytes k' (n / 256)
  end.

(** The same, most significant first. *)
Definition be_bytes (k : nat) (n : N) : Bytes := rev (le_bytes k n).

(** [Array.prototype.every] on the characters of a string. *)
Fixpoint every (p : ascii -> bool) (s : string) : bool :=
  match s with
  | EmptyString => true
  | String c s' => p c && every p s'
  end.

Definition is_hex_char (c : ascii) : bool :=
  match asciiToBase16 c with Some _ => true | None => false end.

(** UTF-8 bytes of ASCII text ([stringToBytes], [TextEncoder]). *)
Definition utf8 (s : string) : Bytes := list_byte_of_string s.

(** The values of type Number that a conversion of an integer gives: an
    integer that a double holds exactly, or an infinity. *)
Inductive Number : Type :=
| integer (z : Z)
| infinity (negative : bool).

(** [Number(n)] of a BigInt [n]: the nearest double, a tie going to the
    even significand of 53 bits; beyond the largest double, an
    infinity. *)
Definition Number_of_BigInt (n : Z) : Number :=
  let magnitude := Z.abs n in
  let excess := (Z.log2 magnitude - 52)%Z in
  if (excess <=? 0)%Z then integer n
  else
    let unit := (2 ^ excess)%Z in
    let significand := (magnitude / unit)%Z in
    let rest := (magnitude mod unit)%Z in
    let rounded :=
      ((if (unit <? 2 * rest)%Z
           || ((2 * rest =? unit)%Z && Z.odd significand)
        then significand + 1 else significand) * unit)%Z in
    if (2 ^ 1024 <=? rounded)%Z then infinity (n <? 0)%Z
    else integer (Z.sgn n * rounded)%Z.

End Js.

(* ================================================================== *)
(** * Keccak-256 *)
(* ================================================================== *)

(** The hash function behind [keccak256] of viem ([@noble/hashes/sha3])
    and behind [keccak256] of [ethereum-cryptography/keccak]: Keccak with
    rate 1088, capacity 512, the original padding (0x01 .. 0x80) and a
    32-byte output. *)
Module Keccak.

Import Js.
Local Open Scope N_scope.

Definition mask64 : N := 18446744073709551615.

Definition rotl (x : N) (n : N) : N :=
  N.lor (N.land (N.shiftl x n) mask64) (N.shiftr x (64 - n)).

Definition lane (s : list N) (x y : nat) : N :=
  nth ((x mod 5) + 5 * (y mod 5))%nat s 0.

Definition build (f : nat -> nat -> N) : list N :=
  map (fun i => f (i mod 5)%nat (i / 5)%nat) (seq 0 25).

Definition rotation_offsets : list N :=
  [  0;  1; 62; 28; 27;
    36; 44;  6; 55; 20;
     3; 10; 43; 25; 39;
    41; 45; 15; 21;  8;
    18;  2; 61; 56; 14 ].

Definition round_constants : list N :=
  [ 0x0000000000000001; 0x0000000000008082; 0x800000000000808A;
    0x8000000080008000; 0x000000000000808B; 0x0000000080000001;
    0x8000000080008081; 0x8000000000008009; 0x000000000000008A;
    0x0000000000000088; 0x0000000080008009; 0x000000008000000A;
    0x000000008000808B; 0x800000000000008B; 0x8000000000008089;
    0x8000000000008003; 0x8000000000008002; 0x8000000000000080;
    0x000000000000800A; 0x800000008000000A; 0x8000000080008081;
    0x8000000000008080; 0x0000000080000001; 0x8000000080008008 ].

Definition theta (a : list N) : list N :=
  let c x := fold_left N.lxor (map (lane a x) (seq 0 5)) 0 in
  let d x := N.lxor (c (x + 4)%nat) (rotl (c (x + 1)%nat) 1) in
  build (fun x y => N.lxor (lane a x y) (d x)).

(** rho and pi together: [b[y][2x+3y] = rotl(a[x][y], r[x][y])], read
    from the target side: the source of [(X, Y)] is [x = (X + 3Y) mod 5],
    [y = X]. *)
Definition rho_pi (a : list N) : list N :=
  build (fun X Y =>
    let x := ((X + 3 * Y) mod 5)%nat in
    let y := X in
    rotl (lane a x y) (lane rotation_offsets x y)).

Definition chi (b : list N) : list N :=
  build (fun x y =>
    N.lxor (lane b x y)
      (N.land (N.lxor (lane b (x + 1)%nat y) mask64) (lane b (x + 2)%nat y))).

Definition iota (rc : N) (a : list N) : list N :=
  match a with
  | [] => []
  | a0 :: rest => N.lxor a0 rc :: rest
  end.

Definition round (a : list N) (rc : N) : list N :=
  iota rc (chi (rho_pi (theta a))).

Definition keccak_f (a : list N) : list N :=
  fold_left round round_constants a.

(** Little-endian lane of (up to) eight bytes. *)
Fixpoint lane_of_bytes (bs : Bytes) : N :=
  match bs with
  | [] => 0
  | b :: bs' => Byte.to_N b + 256 * lane_of_bytes bs'
  end.

Fixpoint lanes_of_bytes (fuel : nat) (bs : Bytes) : list N :=
  match fuel with
  | O => []
  | S fuel' =>
      match bs with
      | [] => []
      | _ => lane_of_bytes (firstn 8 bs) :: lanes_of_bytes fuel' (skipn 8 bs)
      end
  end.

Definition rate : nat := 136.

(** Keccak padding of the last, partial block ([length tl < rate]). *)
Definition pad (tl : Bytes) : Bytes :=
  let fill := (rate - List.length tl)%nat in
  match fill with
  | 1%nat => tl ++ [x81]
  | _ => tl ++ [x01] ++ repeat x00 (fill - 2) ++ [x80]
  end.

Fixpoint xor_lanes (a b : list N) : list N :=
  match a, b with
  | x :: a', y :: b' => N.lxor x y :: xor_lanes a' b'
  | _, [] => a
  | [], _ => []
  end.

Definition absorb_block (st : list N) (block : Bytes) : list N :=
  keccak_f (xor_lanes st (lanes_of_bytes 17 block)).

Fixpoint absorb (fuel : nat) (st : list N) (msg : Bytes) : list N :=
  match fuel with
  | O => st
  | S fuel' =>
      if (List.length msg <? rate)%nat then absorb_block st (pad msg)
      else absorb fuel' (absorb_block st (firstn rate msg)) (skipn rate msg)
  end.

Definition keccak_256 (msg : Bytes) : Bytes :=
  let st := absorb (S (List.length msg / rate)) (repeat 0 25) msg in
  flat_map (le_bytes 8) (firstn 4 st).

End Keccak.

(** Exceptions are modelled by [option]: [None] is a thrown error. *)
Module OptionMonad.

Definition bind {A B} (m : option A) (k : A -> option B) : option B :=
  match m with
  | Some a => k a
  | None => None
  end.

Fixpoint mapM {A B} (f : A -> option B) (l : list A) : option (list B) :=
  match l with
  | [] => Some []
  | a :: l' =>
      bind (f a) (fun b => bind (mapM f l') (fun bs => Some (b :: bs)))
  end.

End OptionMonad.

Notation "x <- m ;; k" := (OptionMonad.bind m (fun x => k))
  (at level 61, m at next level, right associativity).

(* ================================================================== *)
(** * The viem functions the sources call *)
(* ================================================================== *)

Module Viem.

Import Js.

(** [isHex(value)] in its default strict mode: [/^0x[0-9a-fA-F]*$/]. *)
Definition isHex (value : string) : bool :=
  startsWith value "0x" && every is_hex_char (slice_from 2 value).

(** viem's [hexToBytes]: drops the prefix and pads an odd number of
    digits with a leading zero. *)
Definition hexToBytes (hex : string) : option Bytes :=
  let digits := slice_from 2 hex in
  if Nat.odd (String.length digits)
  then Js.hexToBytes (String "0" digits)
  else Js.hexToBytes digits.

(** [toHex(bytes)] / [bytesToHex]. *)
Definition toHex (bs : Bytes) : string := "0x" ++ hex_of_bytes bs.

(** [toBytes(value)] on a string: hex text denotes its bytes, any other
    text its UTF-8 encoding. *)
Definition toBytes (value : string) : Bytes :=
  if isHex value
  then match hexToBytes value with Some bs => bs | None => [] end
  else utf8 value.

(** [keccak256(value)] with the default hex output. *)
Definition keccak256 (value : string) : string :=
  toHex (Keccak.keccak_256 (toBytes value)).

(** ** Addresses *)

Fixpoint checksum_chars (hash : Bytes) (chars : string) : string :=
  match hash, chars with
  | h :: hash', String c1 (String c2 rest) =>
      let n := Byte.to_N h in
      String (if (8 <=? n / 16)%N then upper_char c1 else c1)
        (String (if (8 <=? n mod 16)%N then upper_char c2 else c2)
           (checksum_chars hash' rest))
  | _, _ => chars
  end.

(** [checksumAddress(address)] (EIP-55, no chain id). *)
Definition checksumAddress (address : string) : string :=
  let hexAddress := toLowerCase (slice_from 2 address) in
  let hash := Keccak.keccak_256 (utf8 hexAddress) in
  "0x" ++ checksum_chars (firstn 20 hash) hexAddress.

(** [isAddress(address)] in its default strict mode: forty hex digits
    after the prefix, all lower case or carrying a valid checksum. *)
Definition isAddress (address : string) : bool :=
  startsWith address "0x"
  && (String.length address =? 42)%nat
  && every is_hex_char (slice_from 2 address)
  && (String.eqb (toLowerCase address) address
      || String.eqb (checksumAddress address) address).

(** ** ABI encoding *)

Inductive AbiType : Type :=
| t_address
| t_uint256
| t_bool
| t_bytes32
| t_bytes
| t_bytes_array.

(** The JavaScript values handed to the encoder. *)
Inductive Arg : Type :=
| a_hex (s : string)
| a_bigint (n : Z)
| a_bool (b : bool)
| a_array (items : list string).

Definition word (n : N) : Bytes := be_bytes 32 n.

(** The bytes a hex value denotes: the prefix, then an even number of
    hex digits of either case. *)
Definition byte_string (value : string) : option Bytes :=
  if startsWith value "0x" then Js.hexToBytes (slice_from 2 value) else None.

(** [size(value)] of a string: the number of bytes when it starts with
    the prefix ([Math.ceil((value.length - 2) / 2)]), of characters
    otherwise. *)
Definition size (value : string) : nat :=
  if startsWith value "0x" then (String.length value - 2 + 1) / 2
  else String.length value.

(** [hex.replace("0x", "")]: the first occurrence goes. *)
Fixpoint strip0x (hex : string) : string :=
  match hex with
  | EmptyString => EmptyString
  | String c rest =>
      if startsWith hex "0x" then slice_from 2 hex
      else String c (strip0x rest)
  end.

(** [padHex(hex, { dir, size })]. *)
Definition padHex (right : bool) (size : nat) (hex_ : string)
  : option string :=
  let hex := strip0x hex_ in
  if (size * 2 <? String.length hex)%nat then None
  else Some ("0x" ++ (if right then padEnd (size * 2) "0" hex
                      else padStart (size * 2) "0" hex))%string.

(** [concat(values)] of hex values. *)
Definition concat (values : list string) : string :=
  ("0x" ++ String.concat "" (map strip0x values))%string.

(** [numberToHex(n, { size: 32 })]: the 64 hex digits of [n]. The
    encoder calls it on numbers it has checked to fit 32 bytes and on
    sizes of strings, which are far smaller; [word] is the 32 low-order
    bytes. *)
Definition numberToHex32 (n : N) : string :=
  ("0x" ++ hex_of_bytes (word n))%string.

(** A prepared parameter: whether it is dynamic, and its encoding, a
    hex value. *)
Definition PreparedParam : Type := (bool * string)%type.

Definition encodeAddress (value : string) : option PreparedParam :=
  if isAddress value
  then encoded <- padHex false 32 (toLowerCase value) ;; Some (false, encoded)
  else None.

Definition encodeNumber (n : Z) : option PreparedParam :=
  if (0 <=? n)%Z && (n <? 2 ^ 256)%Z
  then Some (false, numberToHex32 (Z.to_N n))
  else None.

Definition encodeBool (b : bool) : option PreparedParam :=
  encoded <- padHex false 32 (if b then "0x1" else "0x0") ;;
  Some (false, encoded).

(** [encodeBytes] for the type [bytes]: the value is not checked to be
    hex text; it is padded on the right, as text, to a multiple of 32
    bytes. *)
Definition encodeBytes (value : string) : option PreparedParam :=
  let bytesSize := size value in
  value_ <-
    (if (bytesSize mod 32 =? 0)%nat then Some value
     else
       (* Math.ceil((value.length - 2) / 2 / 32) * 32 *)
       padHex true ((String.length value - 2 + 63) / 64 * 32) value) ;;
  Some (true, concat [numberToHex32 (N.of_nat bytesSize); value_]).

(** [encodeBytes] for the type [bytes32]. *)
Definition encodeBytes32 (value : string) : option PreparedParam :=
  if (size value =? 32)%nat
  then encoded <- padHex true 32 value ;; Some (false, encoded)
  else None.

(** [encodeParams]: the static parts (a 32-byte offset for each dynamic
    parameter), then the dynamic parts. *)
Definition static_size (prepared : list PreparedParam) : nat :=
  fold_left
    (fun (acc : nat) (p : PreparedParam) =>
       if fst p then acc + 32 else acc + size (snd p))%nat
    prepared 0%nat.

Fixpoint heads (static dynamicSize : nat) (prepared : list PreparedParam)
  : list string :=
  match prepared with
  | [] => []
  | (true, enc) :: rest =>
      numberToHex32 (N.of_nat (static + dynamicSize))
        :: heads static (dynamicSize + size enc) rest
  | (false, enc) :: rest => enc :: heads static dynamicSize rest
  end.

Fixpoint tails (prepared : list PreparedParam) : list string :=
  match prepared with
  | [] => []
  | (true, enc) :: rest => enc :: tails rest
  | (false, _) :: rest => tails rest
  end.

Definition encodeParams (prepared : list PreparedParam) : string :=
  concat (heads (static_size prepared) 0 prepared ++ tails prepared).

Definition encodeArray (items : list string) : option PreparedParam :=
  prepared <- OptionMonad.mapM encodeBytes items ;;
  let len := numberToHex32 (N.of_nat (List.length prepared)) in
  Some (true,
        match prepared with
        | [] => len
        | _ => concat [len; encodeParams prepared]
        end).

Definition prepareParam (t : AbiType) (v : Arg) : option PreparedParam :=
  match t, v with
  | t_address, a_hex s => encodeAddress s
  | t_uint256, a_bigint n => encodeNumber n
  | t_bool, a_bool b => encodeBool b
  | t_bytes32, a_hex s => encodeBytes32 s
  | t_bytes, a_hex s => encodeBytes s
  | t_bytes_array, a_array items => encodeArray items
  | _, _ => None
  end.

Fixpoint prepareParams (params : list AbiType) (values : list Arg)
  : option (list PreparedParam) :=
  match params, values with
  | [], [] => Some []
  | t :: params', v :: values' =>
      p <- prepareParam t v ;;
      ps <- prepareParams params' values' ;;
      Some (p :: ps)
  | _, _ => None
  end.

(** [encodeAbiParameters(params, values)]. *)
Definition encodeAbiParameters (params : list AbiType) (values : list Arg)
  : option string :=
  prepared <- prepareParams params values ;;
  Some (encodeParams prepared).

(** ** Message signing *)

Definition presignMessagePrefix : string :=
  String (ascii_of_N 25) "Ethereum Signed Message:" ++ String (ascii_of_N 10) "".

(** The bytes [hashMessage(message)] hashes when [message] is a string:
    the EIP-191 prefix, the decimal length of the text, the text. *)
Definition toPrefixedMessage (message : string) : Bytes :=
  utf8 (presignMessagePrefix ++ toStringDec (N.of_nat (String.length message)))
    ++ utf8 message.

Definition hashMessage (message : string) : Bytes :=
  Keccak.keccak_256 (toPrefixedMessage message).

End Viem.

(* ================================================================== *)
(** * lib/contracts.ts *)
(* ================================================================== *)

Module Contracts.

Definition EIP7702PROXY_TEMPLATE_ADDRESS : string :=
  "0xcA271A94dd66982180960B579de6B3213084D67A".
Definition NONCE_TRACKER_ADDRESS : string :=
  "0x1e3C75E11F8c31ffe8BA28A648B1D58566df6d72".
Definition VALIDATOR_ADDRESS : string :=
  "0xA96fc9fA032e5f58E225D979f985D51BCb671eF8".
Definition CBSW_IMPLEMENTATION_ADDRESS : string :=
  "0x3e0BecB45eBf7Bd1e3943b9521264Bc5B0bd8Ca9".
Definition FOREIGN_1967_IMPLEMENTATION : string :=
  "0xbAaaB2feecd974717816FA5ac540D96ad12eb342".
Definition STORAGE_ERASER_ADDRESS : string :=
  "0xadC0e11403eB0802aeF8B64d510e88b084e55aF2".
Definition ENTRYPOINT_ADDRESS : string :=
  "0x5FF137D4b0FDCD49DcA30c7CF57E578a026d2789".
Definition ZERO_ADDRESS : string :=
  "0x0000000000000000000000000000000000000000".

Definition IMPLEMENTATION_SET_TYPEHASH : string :=
  "EIP7702ProxyImplementationSet(uint256 chainId,address proxy,uint256 nonce,address currentImplementation,address newImplementation,bytes callData,address validator)".

Definition ERC1967_IMPLEMENTATION_SLOT : string :=
  "0x360894a13ba1a3210667c828492db98dca3e2076cc3735a920a3ca505d382bbc".

Definition NEXT_OWNER_INDEX_SLOT : string :=
  "0x97e2c6aad4ce5d562ebfaa00db6b9e0fb66ea5d8162ed5b243f51a2e03086f00".


End Contracts.

(* ================================================================== *)
(** * Signatures *)
(* ================================================================== *)

(** A recoverable secp256k1 signature as [secp256k1.sign] returns it. *)
Record Signature : Type := mkSignature {
  sig_r : N;
  sig_s : N;
  sig_recovery : N
}.

(** The signing primitive, [secp256k1.sign(msgHash, privateKey)] of
    [@noble/curves]: it is handed the 32 bytes to sign and the private
    key, and fails on an invalid key. Both signing paths of the sources
    end in this one function. *)
Definition Signer : Type := Js.Bytes -> Js.Bytes -> option Signature.

(* ================================================================== *)
(** * lib/wallet-utils.ts *)
(* ================================================================== *)

Module WalletUtils.

Import Js Viem.

(** [anvil.id] of [viem/chains], kept by [localAnvil]. *)
Definition localAnvil_id : Z := 31337.

(** A local account made by [privateKeyToAccount]. *)
Record LocalAccount : Type := mkLocalAccount {
  address : string;
  privateKey : string
}.

(** The wallet client of [createEOAClient]. *)
Record WalletClient : Type := mkWalletClient {
  account : LocalAccount
}.

Definition encodeInitializeArgs (ownerAddress : string) : option string :=
  let owners := [ownerAddress] in
  encodedOwners <-
    OptionMonad.mapM
      (fun owner => encodeAbiParameters [t_address] [a_hex owner]) owners ;;
  encodeAbiParameters [t_bytes_array] [a_array encodedOwners].

Definition createInitializeHash (proxyAddress initArgs : string)
  : option string :=
  encoded <- encodeAbiParameters [t_address; t_bytes]
               [a_hex proxyAddress; a_hex initArgs] ;;
  Some (keccak256 encoded).

Section Signing.

Variable secp256k1_sign : Signer.

(** viem's [serializeSignature]: [r], [s] on 32 bytes each, then the
    recovery byte 0x1b or 0x1c. *)
Definition serializeSignature (sg : Signature) : string :=
  "0x" ++ padStart 64 "0" (toString16 (sig_r sg))
       ++ padStart 64 "0" (toString16 (sig_s sg))
       ++ (if (sig_recovery sg =? 0)%N then "1b" else "1c").

(** [account.signMessage({ message })] of a local account, for a
    message given as a string: viem hands [hashMessage(message)] and
    [privateKey.slice(2)] to the signing primitive, so the EIP-191 hash of
    the text is what the key signs. *)
Definition account_signMessage (acct : LocalAccount) (message : string)
  : option string :=
  key <- Js.hexToBytes (slice_from 2 (privateKey acct)) ;;
  sg <- secp256k1_sign (hashMessage message) key ;;
  Some (serializeSignature sg).

(** [wallet.signMessage({ message })]: the client hands the request to
    its local account. *)
Definition wallet_signMessage (wallet : WalletClient) (message : string)
  : option string :=
  account_signMessage (account wallet) message.

(* Create a raw signature without Ethereum prefix *)
Definition signInitialization (wallet : WalletClient) (message : string)
  : option string :=
  signature <- wallet_signMessage wallet message ;;
  Some signature.

End Signing.

(** Modelled from the spec: [createSetImplementationHash], which the
    recovery component imports from this library, is not among the
    sources. The spec gives its contract (section 4.1): the fields
    [chainId, proxyAddress, nonce, currentImplementation,
    newImplementation, callData, validator] are encoded in this fixed
    order under the fixed type-descriptor string bound into the encoding
    and reduced with the hash function. The parameter list is the one of
    the call in the recovery component; the validator is the constant of
    lib/contracts.ts; a commitment that allows cross-chain replay carries
    chain id 0. *)
Definition createSetImplementationHash
    (proxyAddr newImplementation callData : string) (nonce : Z)
    (currentImplementation : string) (allowCrossChainReplay : bool)
    (chainId : Z) : option string :=
  encoded <- encodeAbiParameters
               [t_bytes32; t_uint256; t_address; t_uint256; t_address;
                t_address; t_bytes32; t_address]
               [a_hex (keccak256 (toHex (utf8 Contracts.IMPLEMENTATION_SET_TYPEHASH)));
                a_bigint (if allowCrossChainReplay then 0%Z else chainId);
                a_hex proxyAddr;
                a_bigint nonce;
                a_hex currentImplementation;
                a_hex newImplementation;
                a_hex (keccak256 callData);
                a_hex Contracts.VALIDATOR_ADDRESS] ;;
  Some (keccak256 encoded).

End WalletUtils.

(* ================================================================== *)
(** * scripts/upgrade-wallet.ts *)
(* ================================================================== *)

Module UpgradeScript.

Import Js Viem.

(** [ExtendedAccount]: a local account that also carries its key. *)
Record ExtendedAccount : Type := mkExtendedAccount {
  address : string;
  _privateKey : string
}.

(** viem's [WalletClient]: the account is optional. *)
Record WalletClient : Type := mkWalletClient {
  account : option ExtendedAccount
}.

Definition PROXY_ADDRESS : string :=
  "0x261D8c5e9742e6f7f1076Fa1F560894524e19cad".

Definition encodeInitializeArgs (ownerAddress : string) : option string :=
  encodedOwner <- encodeAbiParameters [t_address] [a_hex ownerAddress] ;;
  let owners := [encodedOwner] in
  initArgs <- encodeAbiParameters [t_bytes_array] [a_array owners] ;;
  Some initArgs.

Definition createInitializeHash (proxyAddr initArgs : string)
  : option string :=
  abiEncoded <- encodeAbiParameters [t_address; t_bytes]
                  [a_hex proxyAddr; a_hex initArgs] ;;
  abiEncodedBytes <- Js.hexToBytes (slice_from 2 abiEncoded) ;;
  let hashBytes := Keccak.keccak_256 abiEncodedBytes in
  let hash := ("0x" ++ hex_of_bytes hashBytes)%string in
  Some hash.

Section Signing.

Variable secp256k1_sign : Signer.

(* Create a raw signature without Ethereum prefix *)
Definition signInitialization (walletClient : WalletClient) (hash : string)
  : option string :=
  match account walletClient with
  | None => None
  | Some acct =>
      privateKeyBytes <- Js.hexToBytes (slice_from 2 (_privateKey acct)) ;;
      hashBytes <- Js.hexToBytes (slice_from 2 hash) ;;
      signature <- secp256k1_sign hashBytes privateKeyBytes ;;
      let r := padStart 64 "0" (toString16 (sig_r signature)) in
      let s := padStart 64 "0" (toString16 (sig_s signature)) in
      let v := (sig_recovery signature + 27)%N in
      let packedSignature := ("0x" ++ r ++ s ++ toString16 v)%string in
      Some packedSignature
  end.

End Signing.

End UpgradeScript.

(* ================================================================== *)
(** * JavaScript values, asynchronous programs *)
(* ================================================================== *)

(** JSON-like JavaScript values: request and response bodies, optional
    fields. A number is kept as its rendering [String(n)]. *)
Inductive JsValue : Type :=
| JUndefined
| JNull
| JBool (b : bool)
| JNumber (shown : string)
| JString (s : string)
| JArray (items : list JsValue)
| JObject (fields : list (string * JsValue)).

Module JsVal.

Fixpoint lookup (key : string) (fields : list (string * JsValue)) : JsValue :=
  match fields with
  | [] => JUndefined
  | (k, v) :: rest => if String.eqb k key then v else lookup key rest
  end.

(** Reading a property, as in [const { key } = value] or [value.key],
    for the named (non-index, non-length) keys the sources read: a
    missing property is [undefined]; [null] and [undefined] have no
    properties and the read throws a TypeError. *)
Definition prop (key : string) (v : JsValue) : option JsValue :=
  match v with
  | JUndefined | JNull => None
  | JObject fields => Some (lookup key fields)
  | _ => Some JUndefined
  end.

(** Strict equality with a string constant ([case "..."], [===]). *)
Definition is_string (v : JsValue) (s : string) : bool :=
  match v with
  | JString s' => String.eqb s' s
  | _ => false
  end.

(** Truthiness, as [if (v)] and [v ? a : b] test it. *)
Definition truthy (v : JsValue) : bool :=
  match v with
  | JUndefined | JNull => false
  | JBool b => b
  | JNumber shown =>
      negb (String.eqb shown "0" || String.eqb shown "-0" || String.eqb shown "NaN")
  | JString s => negb (String.eqb s "")
  | JArray _ | JObject _ => true
  end.

(** Whether the object has an own property [key]. *)
Fixpoint has_key (key : string) (fields : list (string * JsValue)) : bool :=
  match fields with
  | [] => false
  | (k, _) :: rest => String.eqb k key || has_key key rest
  end.

(** [String(v)], as a template literal and [+] on a string render [v].
    An object is rendered by [Object.prototype.toString], unless it has
    an own property [toString]: in a value that came out of JSON this
    is no function, there is no primitive value to take, and the
    conversion throws a TypeError. An array joins the renderings of its
    elements. *)
Fixpoint toString (v : JsValue) : option string :=
  match v with
  | JUndefined => Some "undefined"
  | JNull => Some "null"
  | JBool true => Some "true"
  | JBool false => Some "false"
  | JNumber shown => Some shown
  | JString s => Some s
  | JArray items =>
      texts <-
        (fix join (items : list JsValue) : option (list string) :=
           match items with
           | [] => Some []
           | item :: rest =>
               text <- match item with
                       | JUndefined | JNull => Some EmptyString
                       | _ => toString item
                       end ;;
               texts <- join rest ;;
               Some (text :: texts)
           end) items ;;
      Some (String.concat "," texts)
  | JObject fields =>
      if has_key "toString" fields then None else Some "[object Object]"
  end.

(** Truthiness of a [string | null | undefined] value. *)
Definition truthy_string (v : option string) : bool :=
  match v with
  | Some s => negb (String.eqb s "")
  | None => false
  end.

End JsVal.

(** Outcome of awaiting a promise. *)
Inductive Outcome (R : Type) : Type :=
| Returned (r : R)
| Rejected (message : string).
Arguments Returned {R} r.
Arguments Rejected {R} message.

(** Asynchronous code over a family [Ext] of awaited external calls and a
    type [Op] of local, non-failing state updates: a program returns,
    throws, performs a state update, or awaits an external call and goes
    on with its outcome. *)
Module Async.

Section Programs.

Context {Ext : Type -> Type} {Op : Type}.

Inductive Prog (A : Type) : Type :=
| Ret (a : A)
| Throw (message : string)
| Act (op : Op) (k : Prog A)
| Await {R : Type} (c : Ext R) (k : Outcome R -> Prog A).

Arguments Ret {A} a.
Arguments Throw {A} message.
Arguments Act {A} op k.
Arguments Await {A R} c k.

Fixpoint bind {A B} (p : Prog A) (f : A -> Prog B) : Prog B :=
  match p with
  | Ret a => f a
  | Throw m => Throw m
  | Act op k => Act op (bind k f)
  | Await c k => Await c (fun o => bind (k o) f)
  end.

(** [await c]: a rejected promise throws its error. *)
Definition await {R} (c : Ext R) : Prog R :=
  Await c (fun o =>
    match o with
    | Returned r => Ret r
    | Rejected m => Throw m
    end).

Definition act (op : Op) : Prog unit := Act op (Ret tt).

(** A synchronous computation that may throw. *)
Definition lift {A} (message : string) (v : option A) : Prog A :=
  match v with
  | Some a => Ret a
  | None => Throw message
  end.

Definition of_outcome {A} (o : Outcome A) : Prog A :=
  match o with
  | Returned a => Ret a
  | Rejected m => Throw m
  end.

(** [try { p } catch (error) { handler(error.message) }]. *)
Fixpoint try_catch {A} (p : Prog A) (handler : string -> Prog A) : Prog A :=
  match p with
  | Ret a => Ret a
  | Throw m => handler m
  | Act op k => Act op (try_catch k handler)
  | Await c k => Await c (fun o => try_catch (k o) handler)
  end.

(** [try { p } finally { f }]. *)
Fixpoint finally {A} (p : Prog A) (f : Prog unit) : Prog A :=
  match p with
  | Ret a => bind f (fun _ => Ret a)
  | Throw m => bind f (fun _ => Throw m)
  | Act op k => Act op (finally k f)
  | Await c k => Await c (fun o => finally (k o) f)
  end.

(** ** Running a program *)

(** The world answers the [n]-th awaited call of a run; the same call
    may be answered differently at different times. *)
Definition Oracle : Type := forall R : Type, nat -> Ext R -> Outcome R.

Inductive Result (A : Type) : Type :=
| Done (a : A)
| Failed (message : string).

Section Run.

Context {Event State : Type}.
Variable observe_op : Op -> Event.
Variable observe_call : forall R : Type, Ext R -> Outcome R -> Event.
Variable apply_op : Op -> State -> State.

(** The events of a run in order; [tick] counts the awaited calls
    so far. A program does not read the state, so neither its events
    nor its result depend on it. *)
Fixpoint trace {A} (p : Prog A) (world : Oracle) (tick : nat)
  : list Event :=
  match p with
  | Ret _ | Throw _ => []
  | Act op k => observe_op op :: trace k world tick
  | Await c k =>
      let o := world _ tick c in
      observe_call _ c o :: trace (k o) world (S tick)
  end.

Fixpoint result {A} (p : Prog A) (world : Oracle) (tick : nat)
  : Result A :=
  match p with
  | Ret a => Done A a
  | Throw m => Failed A m
  | Act op k => result k world tick
  | Await c k => result (k (world _ tick c)) world (S tick)
  end.

(** The state after the run. *)
Fixpoint final {A} (p : Prog A) (world : Oracle) (tick : nat) (st : State)
  : State :=
  match p with
  | Ret _ | Throw _ => st
  | Act op k => final k world tick (apply_op op st)
  | Await c k => final (k (world _ tick c)) world (S tick) st
  end.

End Run.

End Programs.

Arguments Prog : clear implicits.
Arguments Oracle : clear implicits.
Arguments Ret {Ext Op A} a.
Arguments Throw {Ext Op A} message.
Arguments Act {Ext Op A} op k.
Arguments Await {Ext Op A R} c k.
Arguments Done {A} a.
Arguments Failed {A} message.

End Async.

Declare Scope prog_scope.
Delimit Scope prog_scope with prog.
Notation "'let*' x ':=' c 'in' k" := (Async.bind c (fun x => k))
  (at level 10, x name, c at level 100, k at level 200) : prog_scope.
Notation "c ';;;' k" := (Async.bind c (fun _ => k))
  (at level 100, k at level 200, right associativity) : prog_scope.

(* ================================================================== *)
(** * components/RecoveryModal.tsx *)
(* ================================================================== *)

Module RecoveryModal.

(** What a click on a button of the dialog runs: [onClose], or the
    dialog's own [handleRecover], the only caller of [onRecover]. *)
Inductive Handler : Type :=
| onClose
| handleRecover.

Record Button : Type := mkButton {
  label : string;
  onClick : Handler;
  disabled : bool
}.

Inductive Notice : Type :=
| UnrecoverableNotice
| InconsistentNotice (issues : string) (newPasskeyHint : bool).

(** The rendered dialog. *)
Record View : Type := mkView {
  notice : Notice;
  buttons : list Button
}.

(* Check for unrecoverable state *)
Definition isUnrecoverable
    (delegateIssue implementationIssue ownershipDisrupted : bool) : bool :=
  delegateIssue && ownershipDisrupted && negb implementationIssue.

(** [issues.slice(0, -1)]. *)
Definition all_but_last (l : list string) : list string :=
  firstn (List.length l - 1) l.

Definition renderIssues
    (delegateIssue implementationIssue ownershipDisrupted : bool) : string :=
  let issues :=
    (if delegateIssue then ["delegate"] else [])
      ++ (if implementationIssue then ["implementation"] else [])
      ++ (if ownershipDisrupted then ["ownership"] else []) in
  if (1 <? List.length issues)%nat
  then (String.concat ", " (all_but_last issues) ++ " and "
          ++ last issues "undefined" ++ " are incorrect")%string
  else ("the " ++ hd "undefined" issues ++ " is incorrect")%string.

(** The component, as a function of its props and of its one piece of
    state; [None] is the [null] it renders when closed. *)
Definition RecoveryModal
    (isOpen delegateIssue implementationIssue ownershipDisrupted
       isRecovering : bool) : option View :=
  if negb isOpen then None
  else
    let isUnrecoverable :=
      isUnrecoverable delegateIssue implementationIssue ownershipDisrupted in
    Some {|
      notice :=
        if isUnrecoverable then UnrecoverableNotice
        else InconsistentNotice
               (renderIssues delegateIssue implementationIssue ownershipDisrupted)
               ownershipDisrupted;
      buttons :=
        [ {| label := if isUnrecoverable then "Close" else "Cancel";
             onClick := onClose;
             disabled := false |} ]
          ++ (if negb isUnrecoverable
              then [ {| label := if isRecovering then "Recovering..."
                                 else "Restore Account";
                        onClick := handleRecover;
                        disabled := isRecovering |} ]
              else [])
    |}.

(** Whether the rendered dialog has an element that starts recovery. *)
Definition offers_recovery (v : option View) : bool :=
  match v with
  | None => false
  | Some view =>
      existsb (fun b => match onClick b with
                        | handleRecover => true
                        | onClose => false
                        end) (buttons view)
  end.

End RecoveryModal.

(* ================================================================== *)
(** * components/AccountState.tsx *)
(* ================================================================== *)

Module AccountState.

Import Js.


Section Component.

(** [NEW_IMPLEMENTATION_ADDRESS] of lib/contracts.ts, and the delegate
    address the expected bytecode names: constants that are not among
    the sources. *)
Variable NEW_IMPLEMENTATION_ADDRESS : string.
Variable expectedDelegate : bool -> string.






End Component.

End AccountState.

(* ================================================================== *)
(** * api/relay/route.ts *)
(* ================================================================== *)

Module Relay.

Import Async.

(** The call [encodeFunctionData] is asked to encode. *)
Record FunctionCall : Type := mkFunctionCall {
  functionName : string;
  args : list JsValue
}.

Record TransactionRequest : Type := mkTransactionRequest {
  to : JsValue;
  value : option Z;
  data : option string;
  authorizationList : JsValue
}.

Inductive ContractArg : Type :=
| arg_value (v : JsValue)
| arg_bigint (n : Z).

(** The two ways the relayer wallet submits a transaction. *)
Inductive Ext : Type -> Type :=
| sendTransaction (tx : TransactionRequest) : Ext JsValue
| writeContract (address : JsValue) (functionName : string)
    (args : list ContractArg) : Ext JsValue.

Inductive Event : Type :=
| ev_sendTransaction (tx : TransactionRequest) (answer : Outcome JsValue)
| ev_writeContract (address : JsValue) (functionName : string)
    (args : list ContractArg) (answer : Outcome JsValue).

Definition observe (R : Type) (c : Ext R) : Outcome R -> Event :=
  match c in Ext R return Outcome R -> Event with
  | sendTransaction tx => ev_sendTransaction tx
  | writeContract a f args => ev_writeContract a f args
  end.

Record Response : Type := mkResponse {
  body : JsValue;       (* the value whose JSON text is the body *)
  status : nat
}.

(** [Response.json(value)]. *)
Definition Response_json (value : JsValue) : Response :=
  {| body := value; status := 200 |}.

(** What the handler can throw by itself, apart from what the wallet
    rejects with. *)
Inductive Failure : Type :=
| no_property (key : string) (v : JsValue)
    (* [key] is read from [v], which is [null] or [undefined] *)
| no_string (v : JsValue)
    (* [v] is put into a template literal and has no primitive value *)
| no_BigInt (v : JsValue)
    (* [BigInt(v)] *)
| no_function_data (call : FunctionCall).
    (* [encodeFunctionData(call)] *)

Section Route.

(** [NEW_IMPLEMENTATION_ADDRESS] is not among the constants of
    lib/contracts.ts at hand; [BigInt] and [encodeFunctionData] are
    the conversions of the language and of viem, which throw on
    values they cannot convert; [message_of] is the [message] of the
    error the engine or viem throws on a failure. *)
Variable NEW_IMPLEMENTATION_ADDRESS : string.
Variable BigInt : JsValue -> option Z.
Variable encodeFunctionData : FunctionCall -> option string.
Variable message_of : Failure -> string.

Definition P := Prog Ext Empty_set.

Definition read (key : string) (v : JsValue) : P JsValue :=
  lift (message_of (no_property key v)) (JsVal.prop key v).

(** The body of the [try] block; [request_json] is the outcome of
    [await request.json()]. *)
Definition POST_try (request_json : Outcome JsValue) : P Response :=
  (let* body := of_outcome request_json in
   let* operation := read "operation" body in
   let* targetAddress := read "targetAddress" body in
   if JsVal.is_string operation "fund" then
     let* value := read "value" body in
     let* amount := lift (message_of (no_BigInt value)) (BigInt value) in
     let* hash := await (sendTransaction
                    {| to := targetAddress;
                       value := Some amount;
                       data := None;
                       authorizationList := JUndefined |}) in
     Ret (Response_json (JObject [("hash", hash)]))
   else if JsVal.is_string operation "upgradeEOA" then
     let* initArgs := read "initArgs" body in
     let* signature := read "signature" body in
     let* authorizationList := read "authorizationList" body in
     let call :=
       {| functionName := "setImplementation";
          args := [JString NEW_IMPLEMENTATION_ADDRESS;
                   initArgs;
                   JString Contracts.VALIDATOR_ADDRESS;
                   signature;
                   JBool false] |} in
     let* calldata :=
       lift (message_of (no_function_data call)) (encodeFunctionData call) in
     let* hash := await (sendTransaction
                    {| to := targetAddress;
                       value := None;
                       data := Some calldata;
                       authorizationList := authorizationList |}) in
     Ret (Response_json (JObject [("hash", hash)]))
   else if JsVal.is_string operation "execute" then
     let* args := read "args" body in
     let* target := read "target" args in
     let* value := read "value" args in
     let* amount := lift (message_of (no_BigInt value)) (BigInt value) in
     let* data := read "data" args in
     let* hash := await (writeContract targetAddress "execute"
                           [arg_value target; arg_bigint amount;
                            arg_value data]) in
     Ret (Response_json (JObject [("hash", hash)]))
   else
     let* shown :=
       lift (message_of (no_string operation)) (JsVal.toString operation) in
     Ret {| body := JObject
              [("error", JString ("Unknown operation: " ++ shown)%string)];
            status := 400 |})%prog.

Definition POST (request_json : Outcome JsValue) : P Response :=
  try_catch (POST_try request_json)
    (fun message =>
       Ret {| body := JObject
                [("error",
                  JString (if String.eqb message "" then "Internal server error"
                           else message))];
              status := 500 |}).

(** One request served: the transactions submitted, in order, and the
    response. *)
Definition serve (request_json : Outcome JsValue) (world : Oracle Ext)
  : list Event * Result Response :=
  (trace (fun op : Empty_set => match op with end) observe
     (POST request_json) world 0,
   result (POST request_json) world 0).

End Route.

End Relay.

(* ================================================================== *)
(** * components/PasskeyVerification.tsx *)
(* ================================================================== *)

Module PasskeyVerification.

Import Js Async.

Record VerificationStep : Type := mkStep {
  status : string;
  isComplete : bool;
  txHash : JsValue;        (* [JUndefined] when absent *)
  userOpHash : JsValue;
  error : option string
}.

(** [Partial<VerificationStep>]: the fields an update carries. *)
Record StepUpdate : Type := mkUpdate {
  u_status : option string;
  u_isComplete : option bool;
  u_txHash : option JsValue;
  u_userOpHash : option JsValue;
  u_error : option string
}.

Definition new_step (status : string) (isComplete : bool) : VerificationStep :=
  {| status := status; isComplete := isComplete; txHash := JUndefined;
     userOpHash := JUndefined; error := None |}.

Definition or_else {A} (o : option A) (d : A) : A :=
  match o with Some a => a | None => d end.

(** [{ ...step, ...updates }]. *)
Definition merge (step : VerificationStep) (u : StepUpdate) : VerificationStep :=
  {| status := or_else (u_status u) (status step);
     isComplete := or_else (u_isComplete u) (isComplete step);
     txHash := or_else (u_txHash u) (txHash step);
     userOpHash := or_else (u_userOpHash u) (userOpHash step);
     error := match u_error u with Some e => Some e | None => error step end |}.

(** [current.map((step, i) => (i === index ? { ...step, ...updates } : step))]. *)
Fixpoint map_at (index : nat) (u : StepUpdate) (current : list VerificationStep)
  : list VerificationStep :=
  match current, index with
  | [], _ => []
  | step :: rest, O => merge step u :: rest
  | step :: rest, S i => step :: map_at i u rest
  end.

(** The component's state. *)
Record State : Type := mkState {
  verifying : bool;
  steps : list VerificationStep;
  isVerified : bool;
  showRecoveryModal : bool
}.

(** State setters and prop callbacks. *)
Inductive Op : Type :=
| setVerifying (b : bool)
| setSteps_empty                         (* setSteps([]) *)
| addStep (step : VerificationStep)
| updateStep (index : nat) (updates : StepUpdate)
| setIsVerified (b : bool)
| setShowRecoveryModal (b : bool)
| onStateChange (bytecode slotValue : string)
| onRecoveryComplete.

Definition apply_op (op : Op) (st : State) : State :=
  match op with
  | setVerifying b =>
      {| verifying := b; steps := steps st; isVerified := isVerified st;
         showRecoveryModal := showRecoveryModal st |}
  | setSteps_empty =>
      {| verifying := verifying st; steps := []; isVerified := isVerified st;
         showRecoveryModal := showRecoveryModal st |}
  | addStep step =>
      {| verifying := verifying st; steps := steps st ++ [step];
         isVerified := isVerified st;
         showRecoveryModal := showRecoveryModal st |}
  | updateStep index updates =>
      {| verifying := verifying st; steps := map_at index updates (steps st);
         isVerified := isVerified st;
         showRecoveryModal := showRecoveryModal st |}
  | setIsVerified b =>
      {| verifying := verifying st; steps := steps st; isVerified := b;
         showRecoveryModal := showRecoveryModal st |}
  | setShowRecoveryModal b =>
      {| verifying := verifying st; steps := steps st;
         isVerified := isVerified st; showRecoveryModal := b |}
  | onStateChange _ _ | onRecoveryComplete => st
  end.

Record WebAuthnAccount : Type := mkWebAuthnAccount { credential_id : string }.

Record SmartAccount : Type := mkSmartAccount {
  sa_address : string;
  sa_ownerIndex : Number
}.

Record UserOperation : Type := mkUserOperation {
  sender : string;
  nonce : Z;
  initCode : string;
  callData : string;
  callGasLimit : Z;
  verificationGasLimit : Z;
  preVerificationGas : Z;
  maxFeePerGas : Z;
  maxPriorityFeePerGas : Z;
  paymasterAndData : string;
  signature : string
}.

(** A [fetch] response: its [ok] flag and what [text()] and [json()]
    resolve to. *)
Record FetchResponse : Type := mkFetchResponse {
  ok : bool;
  text : Outcome string;
  json : Outcome JsValue
}.

(** The awaited calls: ledger reads, the relay and the other endpoints,
    receipts, account construction and signing. *)
Inductive Ext : Type -> Type :=
| toWebAuthnAccount (credential : string) : Ext WebAuthnAccount
| readContract (address functionName : string) (args : list string) : Ext Z
| getBalance (address : string) : Ext Z
| getCode (address : string) : Ext (option string)
| getStorageAt (address slot : string) : Ext (option string)
| fetch (url : string) (body : JsValue) : Ext FetchResponse
| waitForTransactionReceipt (hash : JsValue) : Ext unit
| toCoinbaseSmartAccount (owner : WebAuthnAccount) (address : string)
    (ownerIndex : Number) : Ext SmartAccount
| encodeCalls (account : SmartAccount) (to : string) (value : Z)
    (data : string) : Ext string
| getNonce (account : SmartAccount) : Ext Z
| signUserOperation (account : SmartAccount) (userOp : UserOperation) : Ext string
| signMessage (account : SmartAccount) (raw : string) : Ext string.

Inductive Event : Type :=
| ev_op (op : Op)
| ev_toWebAuthnAccount (credential : string) (answer : Outcome WebAuthnAccount)
| ev_readContract (address functionName : string) (args : list string)
    (answer : Outcome Z)
| ev_getBalance (address : string) (answer : Outcome Z)
| ev_getCode (address : string) (answer : Outcome (option string))
| ev_getStorageAt (address slot : string) (answer : Outcome (option string))
| ev_fetch (url : string) (body : JsValue) (answer : Outcome FetchResponse)
| ev_waitForTransactionReceipt (hash : JsValue) (answer : Outcome unit)
| ev_toCoinbaseSmartAccount (owner : WebAuthnAccount) (address : string)
    (ownerIndex : Number) (answer : Outcome SmartAccount)
| ev_encodeCalls (account : SmartAccount) (to : string) (value : Z)
    (data : string) (answer : Outcome string)
| ev_getNonce (account : SmartAccount) (answer : Outcome Z)
| ev_signUserOperation (account : SmartAccount) (userOp : UserOperation)
    (answer : Outcome string)
| ev_signMessage (account : SmartAccount) (raw : string)
    (answer : Outcome string).

Definition observe (R : Type) (c : Ext R) : Outcome R -> Event :=
  match c in Ext R return Outcome R -> Event with
  | toWebAuthnAccount cr => ev_toWebAuthnAccount cr
  | readContract a f args => ev_readContract a f args
  | getBalance a => ev_getBalance a
  | getCode a => ev_getCode a
  | getStorageAt a s => ev_getStorageAt a s
  | fetch u b => ev_fetch u b
  | waitForTransactionReceipt h => ev_waitForTransactionReceipt h
  | toCoinbaseSmartAccount o a i => ev_toCoinbaseSmartAccount o a i
  | encodeCalls a t v d => ev_encodeCalls a t v d
  | getNonce a => ev_getNonce a
  | signUserOperation a u => ev_signUserOperation a u
  | signMessage a r => ev_signMessage a r
  end.

Definition P := Prog Ext Op.

Definition MIN_DEPOSIT : Z := 100000000000000000.

(* Add NonceTracker address constant *)
Definition NONCE_TRACKER_ADDRESS : string :=
  "0x1e3C75E11F8c31ffe8BA28A648B1D58566df6d72".
(* Add ERC1967 implementation slot constant *)
Definition ERC1967_IMPLEMENTATION_SLOT : string :=
  "0x360894a13ba1a3210667c828492db98dca3e2076cc3735a920a3ca505d382bbc".

Definition TypeError_message : string :=
  "Cannot destructure or read a property of null or undefined".

(** [const { key } = await response.json()]. *)
Definition json_field (key : string) (response : FetchResponse) : P JsValue :=
  (let* body := of_outcome (json response) in
   lift TypeError_message (JsVal.prop key body))%prog.

(** Format the slot value as an address (take last 20 bytes). *)
Definition slot_address (slotValue : string) : string :=
  ("0x" ++ slice_last 40 slotValue)%string.

(** [slotValue ? `0x${slotValue.slice(-40)}` : "0x"] of [checkState]. *)
Definition implementationAddress (slotValue : option string) : string :=
  if JsVal.truthy_string slotValue
  then slot_address (or_else slotValue "")
  else "0x".

(** [code || "0x"] of [checkState]. *)
Definition code_or_0x (code : option string) : string :=
  if JsVal.truthy_string code then or_else code "" else "0x".

Section Component.

(** Props of the component. *)
Variable smartWalletAddress : string.
Variable passkey : string.
Variable useAnvil : bool.
Variable isDelegateDisrupted : bool.
Variable isImplementationDisrupted : bool.

(** Constants and helpers that are not among the sources:
    [odysseyTestnet.id] (lib/chains.ts), [NEW_IMPLEMENTATION_ADDRESS]
    (lib/contracts.ts), [EntryPointAddress] (lib/abi/EntryPoint.ts),
    the public relayer address of the process environment and
    [serializeBigInts] (lib/smart-account.ts). *)
Variable odysseyTestnet_id : Z.
Variable NEW_IMPLEMENTATION_ADDRESS : string.
Variable EntryPointAddress : string.
Variable RELAYER_ADDRESS : string.
Variable serializeBigInts : UserOperation -> JsValue.

Definition waitForTransaction (hash : JsValue) : P unit :=
  await (waitForTransactionReceipt hash).

(* Add a function to check state *)
Definition checkState : P unit :=
  Await (getCode smartWalletAddress) (fun code_outcome =>
  Await (getStorageAt smartWalletAddress ERC1967_IMPLEMENTATION_SLOT)
    (fun slot_outcome =>
       match code_outcome, slot_outcome with
       | Returned code, Returned slotValue =>
           act (onStateChange (code_or_0x code)
                  (implementationAddress slotValue))
       | Rejected m, _ => Throw m
       | _, Rejected m => Throw m
       end)).

Definition handleVerify_try : P unit :=
  ((* Reset states for new transaction *)
   act (setVerifying true) ;;;
   act setSteps_empty ;;;
   act (setIsVerified false) ;;;
   let* webAuthnAccount := await (toWebAuthnAccount passkey) in
   let* currentDeposit :=
     await (readContract EntryPointAddress "balanceOf" [smartWalletAddress]) in
   (* Step 1: Check and fund smart account if needed *)
   act (addStep (new_step "Checking smart account balance..." false)) ;;;
   let* accountBalance := await (getBalance smartWalletAddress) in
   (if (accountBalance =? 0)%Z then
      act (updateStep 0
             {| u_status := Some "Funding smart account with 1 wei...";
                u_isComplete := Some false; u_txHash := None;
                u_userOpHash := None; u_error := None |}) ;;;
      let* response :=
        await (fetch "/api/relay"
                 (JObject [("operation", JString "fund");
                           ("targetAddress", JString smartWalletAddress);
                           ("value", JString "1");
                           ("useAnvil", JBool useAnvil)])) in
      (if negb (ok response) then Throw "Failed to fund smart account"
       else Ret tt) ;;;
      let* hash := json_field "hash" response in
      waitForTransaction hash
    else Ret tt) ;;;
   act (updateStep 0
          {| u_status := Some "Smart account balance verified";
             u_isComplete := Some true; u_txHash := None;
             u_userOpHash := None; u_error := None |}) ;;;
   (* Step 2: Pre-fund deposit if needed; [true] when the flow goes on *)
   let* goes_on :=
     (if (currentDeposit <? MIN_DEPOSIT)%Z then
        act (addStep (new_step "Pre-funding smart account gas in EntryPoint..." false)) ;;;
        let* depositResponse :=
          await (fetch "/api/verify-passkey/deposit"
                   (JObject [("smartWalletAddress", JString smartWalletAddress);
                             ("useAnvil", JBool useAnvil)])) in
        if negb (ok depositResponse) then
          let* error := of_outcome (text depositResponse) in
          act (updateStep 1
                 {| u_status := None; u_isComplete := Some true;
                    u_txHash := None; u_userOpHash := None;
                    u_error := Some error |}) ;;;
          Ret false
        else
          let* depositTxHash := json_field "txHash" depositResponse in
          act (updateStep 1
                 {| u_status := Some "Waiting for EntryPoint pre-funding transaction...";
                    u_isComplete := Some false; u_txHash := Some depositTxHash;
                    u_userOpHash := None; u_error := None |}) ;;;
          waitForTransaction depositTxHash ;;;
          let* newDeposit :=
            await (readContract EntryPointAddress "balanceOf" [smartWalletAddress]) in
          act (updateStep 1
                 {| u_status := Some "EntryPoint pre-funding complete";
                    u_isComplete := Some true; u_txHash := Some depositTxHash;
                    u_userOpHash := None; u_error := None |}) ;;;
          Ret true
      else Ret true) in
   if negb goes_on then Ret tt else
   (* Step 3: Create and sign userOp *)
   act (addStep (new_step "Creating and signing userOp to transfer 1 wei to relayer..." false)) ;;;
   let* nextOwnerIndex :=
     await (readContract smartWalletAddress "nextOwnerIndex" []) in
   let ourOwnerIndex := Number_of_BigInt (nextOwnerIndex - 1) in
   let* smartAccount :=
     await (toCoinbaseSmartAccount webAuthnAccount smartWalletAddress ourOwnerIndex) in
   let* callData := await (encodeCalls smartAccount RELAYER_ADDRESS 1 "0x") in
   let* nonce := await (getNonce smartAccount) in
   let unsignedUserOp :=
     {| sender := sa_address smartAccount;
        nonce := nonce;
        initCode := "0x";
        callData := callData;
        callGasLimit := 500000;
        verificationGasLimit := 500000;
        preVerificationGas := 100000;
        maxFeePerGas := 3000000000;
        maxPriorityFeePerGas := 2000000000;
        paymasterAndData := "0x";
        signature := "0x" |} in
   let* signature := await (signUserOperation smartAccount unsignedUserOp) in
   let userOp :=
     {| sender := sender unsignedUserOp;
        nonce := PasskeyVerification.nonce unsignedUserOp;
        initCode := initCode unsignedUserOp;
        callData := PasskeyVerification.callData unsignedUserOp;
        callGasLimit := callGasLimit unsignedUserOp;
        verificationGasLimit := verificationGasLimit unsignedUserOp;
        preVerificationGas := preVerificationGas unsignedUserOp;
        maxFeePerGas := maxFeePerGas unsignedUserOp;
        maxPriorityFeePerGas := maxPriorityFeePerGas unsignedUserOp;
        paymasterAndData := paymasterAndData unsignedUserOp;
        signature := signature |} in
   act (updateStep 2
          {| u_status := Some "UserOperation created and signed";
             u_isComplete := Some true; u_txHash := None;
             u_userOpHash := None; u_error := None |}) ;;;
   (* Step 4: Submit userOp *)
   act (addStep (new_step "Submitting userOperation..." false)) ;;;
   let* submitResponse :=
     await (fetch "/api/verify-passkey/submit"
              (JObject [("userOp", serializeBigInts userOp);
                        ("useAnvil", JBool useAnvil)])) in
   if negb (ok submitResponse) then
     let* error := of_outcome (text submitResponse) in
     act (updateStep 3
            {| u_status := None; u_isComplete := Some true; u_txHash := None;
               u_userOpHash := None; u_error := Some error |})
   else
   let* txHash := json_field "txHash" submitResponse in
   let* userOpHash := json_field "userOpHash" submitResponse in
   act (updateStep 3
          {| u_status := Some "Waiting for userOperation transaction...";
             u_isComplete := Some false; u_txHash := Some txHash;
             u_userOpHash := Some userOpHash; u_error := None |}) ;;;
   waitForTransaction txHash ;;;
   act (updateStep 3
          {| u_status := Some "UserOperation submitted successfully";
             u_isComplete := Some true; u_txHash := Some txHash;
             u_userOpHash := Some userOpHash; u_error := None |}) ;;;
   (* Step 5: Retrieve unused deposit *)
   act (addStep (new_step "Retrieving unused deposit..." false)) ;;;
   let* retrieveResponse :=
     await (fetch "/api/verify-passkey/retrieve"
              (JObject [("smartWalletAddress", JString smartWalletAddress);
                        ("useAnvil", JBool useAnvil)])) in
   if negb (ok retrieveResponse) then
     let* error := of_outcome (text retrieveResponse) in
     act (updateStep 4
            {| u_status := None; u_isComplete := Some true; u_txHash := None;
               u_userOpHash := None; u_error := Some error |})
   else
   let* retrieveTxHash := json_field "txHash" retrieveResponse in
   (if JsVal.truthy retrieveTxHash then
      act (updateStep 4
             {| u_status := Some "Waiting for withdrawal transaction...";
                u_isComplete := Some false; u_txHash := Some retrieveTxHash;
                u_userOpHash := None; u_error := None |}) ;;;
      waitForTransaction retrieveTxHash ;;;
      act (updateStep 4
             {| u_status := Some "Successfully retrieved unused deposit";
                u_isComplete := Some true; u_txHash := Some retrieveTxHash;
                u_userOpHash := None; u_error := None |})
    else
      act (updateStep 4
             {| u_status := Some "No unused deposit to retrieve";
                u_isComplete := Some true; u_txHash := None;
                u_userOpHash := None; u_error := None |})) ;;;
   act (setIsVerified true))%prog.

Definition handleVerify : P unit :=
  (* If account is disrupted, show recovery modal instead of proceeding *)
  if isDelegateDisrupted || isImplementationDisrupted then
    act (setShowRecoveryModal true)
  else
    finally
      (try_catch handleVerify_try
         (fun errorMessage =>
            act (addStep {| status := "Verification failed";
                            isComplete := true;
                            txHash := JUndefined;
                            userOpHash := JUndefined;
                            error := Some errorMessage |})))
      (act (setVerifying false)).

(** The delegate repair of [handleRecover]. *)
Definition repair_delegate : P unit :=
  (act (addStep (new_step "Resetting delegate to relayer..." false)) ;;;
   (* Submit the reset delegate transaction *)
   let* delegateResponse :=
     await (fetch "/api/relay"
              (JObject [("operation", JString "resetDelegate");
                        ("targetAddress", JString smartWalletAddress)])) in
   (if negb (ok delegateResponse) then Throw "Failed to reset delegate"
    else Ret tt) ;;;
   let* delegateHash := json_field "hash" delegateResponse in
   act (updateStep 1
          {| u_status := Some "Waiting for delegate reset transaction...";
             u_isComplete := Some false; u_txHash := Some delegateHash;
             u_userOpHash := None; u_error := None |}) ;;;
   waitForTransaction delegateHash ;;;
   checkState ;;; (* Update state after delegate reset *)
   act (updateStep 1
          {| u_status := Some "Successfully reset delegate";
             u_isComplete := Some true; u_txHash := Some delegateHash;
             u_userOpHash := None; u_error := None |}))%prog.

(** The implementation repair of [handleRecover]. *)
Definition repair_implementation (webAuthnAccount : WebAuthnAccount) : P unit :=
  (act (addStep (new_step "Resetting implementation to correct version..." false)) ;;;
   (* Get current implementation from storage *)
   let* implementationSlotData :=
     await (getStorageAt smartWalletAddress ERC1967_IMPLEMENTATION_SLOT) in
   (if negb (JsVal.truthy_string implementationSlotData)
    then Throw "Failed to read implementation slot" else Ret tt) ;;;
   (* Convert the storage data to an address (take last 20 bytes) *)
   let currentImplementation :=
     slot_address (or_else implementationSlotData "") in
   (* Get the current nonce from NonceTracker *)
   let* nonce :=
     await (readContract NONCE_TRACKER_ADDRESS "nonces" [smartWalletAddress]) in
   (* Get owner index for smart account *)
   let* nextOwnerIndex :=
     await (readContract smartWalletAddress "nextOwnerIndex" []) in
   let ourOwnerIndex := Number_of_BigInt (nextOwnerIndex - 1) in
   (* Create smart account for signing *)
   let* smartAccount :=
     await (toCoinbaseSmartAccount webAuthnAccount smartWalletAddress ourOwnerIndex) in
   (* Create the setImplementation hash *)
   let chainId := if useAnvil then WalletUtils.localAnvil_id
                  else odysseyTestnet_id in
   let* setImplementationHash :=
     lift "createSetImplementationHash failed"
       (WalletUtils.createSetImplementationHash
          smartWalletAddress
          NEW_IMPLEMENTATION_ADDRESS
          "0x" (* No initialization needed for reset *)
          nonce
          currentImplementation
          false (* allowCrossChainReplay *)
          chainId) in
   (* Sign the hash using the smart account *)
   let* signature := await (signMessage smartAccount setImplementationHash) in
   (* Submit the reset implementation transaction *)
   let* implementationResponse :=
     await (fetch "/api/relay"
              (JObject [("operation", JString "resetImplementation");
                        ("targetAddress", JString smartWalletAddress);
                        ("signature", JString signature)])) in
   (if negb (ok implementationResponse)
    then Throw "Failed to reset implementation" else Ret tt) ;;;
   let* implementationHash := json_field "hash" implementationResponse in
   let stepIndex := if isDelegateDisrupted then 2%nat else 1%nat in
   act (updateStep stepIndex
          {| u_status := Some "Waiting for implementation reset transaction...";
             u_isComplete := Some false; u_txHash := Some implementationHash;
             u_userOpHash := None; u_error := None |}) ;;;
   waitForTransaction implementationHash ;;;
   checkState ;;; (* Update state after implementation reset *)
   act (updateStep stepIndex
          {| u_status := Some "Successfully reset implementation";
             u_isComplete := Some true; u_txHash := Some implementationHash;
             u_userOpHash := None; u_error := None |}))%prog.

Definition handleRecover_try : P unit :=
  (act (setVerifying true) ;;;
   act setSteps_empty ;;;
   act (addStep (new_step "Starting account recovery..." false)) ;;;
   (* Create WebAuthn account for signing *)
   let* webAuthnAccount := await (toWebAuthnAccount passkey) in
   (if isDelegateDisrupted then repair_delegate else Ret tt) ;;;
   (if isImplementationDisrupted then repair_implementation webAuthnAccount
    else Ret tt) ;;;
   act onRecoveryComplete ;;;
   act (setShowRecoveryModal false) ;;;
   act (addStep (new_step "✓ Account recovered successfully" true)))%prog.

Definition handleRecover : P unit :=
  finally
    (try_catch handleRecover_try
       (fun errorMessage =>
          act (addStep {| status := "Recovery failed";
                          isComplete := true;
                          txHash := JUndefined;
                          userOpHash := JUndefined;
                          error := Some errorMessage |})))
    (act (setVerifying false)).

End Component.

(** The events of a handler run against a world, and the step log it
    leaves. *)
Definition events (p : P unit) (world : Oracle Ext) : list Event :=
  trace ev_op observe p world 0.

Definition log (p : P unit) (world : Oracle Ext) (st : State)
  : list VerificationStep :=
  steps (final apply_op p world 0 st).

End PasskeyVerification.

(* ================================================================== *)
(** * Specifications *)
(* ================================================================== *)

(** The notions the theorems below are stated with. *)
Module Spec.

Import Js Viem Async.

(** Zero padding on the right up to the next multiple of 32 bytes. *)
Definition pad_right32 (bs : Bytes) : Bytes :=
  bs ++ repeat x00 ((32 - List.length bs mod 32) mod 32).

(** The encoding of an (address, bytes) pair: the address word, the
    offset of the dynamic part, then its length and its padded data. *)
Definition abi_address_bytes (addr args : Bytes) : Bytes :=
  (repeat x00 12 ++ addr)
    ++ word 64
    ++ word (N.of_nat (List.length args)) ++ pad_right32 args.

(** The encoding of a one-element [bytes[]] whose element is the encoded
    owner address: the offset of the array, its length, the offset of
    the element, the length of the element and the address word. *)
Definition abi_owner_array (addr : Bytes) : Bytes :=
  word 32 ++ word 1 ++ word 32 ++ word 32 ++ (repeat x00 12 ++ addr).

(** The [k] low-order hex digits of [n], most significant first, in
    front of [acc]. *)
Fixpoint fixed_hex (k : nat) (n : N) (acc : string) : string :=
  match k with
  | O => acc
  | S k' => fixed_hex k' (n / 16) (String (hex_digit (n mod 16)) acc)
  end.

(** A signature as 65 bytes: [r] and [s] on 32 bytes each, most
    significant byte first, then the recovery byte [v]. *)
Definition r_s_v (sg : Signature) (v : N) : Bytes :=
  be_bytes 32 (sig_r sg) ++ be_bytes 32 (sig_s sg) ++ [byte_of_N v].

(** The script's packing of a signature. *)
Definition pack (sg : Signature) : string :=
  ("0x" ++ padStart 64 "0" (toString16 (sig_r sg))
        ++ padStart 64 "0" (toString16 (sig_s sg))
        ++ toString16 (sig_recovery sg + 27))%string.

Definition zero_digest : Bytes := repeat x00 32.

Definition one_key : string :=
  "0x0000000000000000000000000000000000000000000000000000000000000001".

(** The bytes the library signs for the all-zero digest. *)
Definition prefixed_hash_of_zero_digest : Bytes :=
  [x09; xba; x77; x12; x00; x4e; x15; x6e; xc3; x0f; xe3; xa7; x5d; x8d;
   x34; xef; x53; x61; x19; x3d; x36; x4c; x6f; x3d; xd4; x30; x6a; x88;
   x3d; x29; xd9; x71].

(** The operations the route serves. *)
Definition known (operation : JsValue) : bool :=
  JsVal.is_string operation "fund"
  || JsVal.is_string operation "upgradeEOA"
  || JsVal.is_string operation "execute".

(** The [operation] field of a request, when the body can be read. *)
Definition operation_of (request_json : Outcome JsValue) : option JsValue :=
  match request_json with
  | Returned body => JsVal.prop "operation" body
  | Rejected _ => None
  end.

Section Inspection.

Variable NEW_IMPLEMENTATION_ADDRESS : string.
Variable expectedDelegate : bool -> string.


End Inspection.

End Spec.

(** ** The type descriptor and the commitment it describes *)

Module TypeDescriptor.

Import Js Viem.

(** [s.split(sep)]. *)
Fixpoint split (sep : ascii) (s : string) : list string :=
  match s with
  | EmptyString => [EmptyString]
  | String c s' =>
      if Ascii.eqb c sep then EmptyString :: split sep s'
      else match split sep s' with
           | piece :: pieces => String c piece :: pieces
           | [] => [String c EmptyString]
           end
  end.

Definition parse_field (field : string) : option (string * string) :=
  match split " " field with
  | [type; name] => Some (type, name)
  | _ => None
  end.

(** A descriptor [Name(type1 name1,type2 name2,...)] read as the name of
    the structure and its typed fields, in order. *)
Definition parse (descriptor : string)
  : option (string * list (string * string)) :=
  match split "(" descriptor with
  | [name; rest] =>
      match split ")" rest with
      | [fields; EmptyString] =>
          typed <- OptionMonad.mapM parse_field (split "," fields) ;;
          Some (name, typed)
      | _ => None
      end
  | _ => None
  end.

(** The value object of section 3 of the specification. *)
Record SetImplementationCommitment : Type := mkCommitment {
  chainId : Z;
  proxy : string;
  nonce : Z;
  currentImplementation : string;
  newImplementation : string;
  callData : string;
  validator : string
}.

Inductive FieldValue : Type :=
| number (n : Z)
| hex (s : string).

Definition field (c : SetImplementationCommitment) (name : string)
  : option FieldValue :=
  if String.eqb name "chainId" then Some (number (chainId c))
  else if String.eqb name "proxy" then Some (hex (proxy c))
  else if String.eqb name "nonce" then Some (number (nonce c))
  else if String.eqb name "currentImplementation"
  then Some (hex (currentImplementation c))
  else if String.eqb name "newImplementation"
  then Some (hex (newImplementation c))
  else if String.eqb name "callData" then Some (hex (callData c))
  else if String.eqb name "validator" then Some (hex (validator c))
  else None.

(** One field of the descriptor, encoded: numbers and addresses as one
    word each, dynamic bytes by their hash. *)
Definition encode_field (c : SetImplementationCommitment)
    (typed : string * string) : option (AbiType * Arg) :=
  let '(type, name) := typed in
  match field c name with
  | Some (number n) =>
      if String.eqb type "uint256" then Some (t_uint256, a_bigint n) else None
  | Some (hex s) =>
      if String.eqb type "address" then Some (t_address, a_hex s)
      else if String.eqb type "bytes" then Some (t_bytes32, a_hex (keccak256 s))
      else None
  | None => None
  end.

(** The commitment hash the descriptor prescribes: the hash of the
    descriptor text, then every field the descriptor lists, in the
    descriptor's order, and the hash of the whole. *)
Definition commitment_hash (descriptor : string)
    (c : SetImplementationCommitment) : option string :=
  parsed <- parse descriptor ;;
  fields <- OptionMonad.mapM (encode_field c) (snd parsed) ;;
  encoded <- encodeAbiParameters
               (t_bytes32 :: map fst fields)
               (a_hex (keccak256 (toHex (utf8 descriptor))) :: map snd fields) ;;
  Some (keccak256 encoded).

(** The seven typed fields of a set-implementation commitment. *)
Definition seven_fields : list (string * string) :=
  [("uint256", "chainId"); ("address", "proxy"); ("uint256", "nonce");
   ("address", "currentImplementation"); ("address", "newImplementation");
   ("bytes", "callData"); ("address", "validator")].

End TypeDescriptor.

(** ** Events of a recovery and what is asked of their order *)

Module RecoverySpec.

Import Async PasskeyVerification.

(** The [operation] a request to the relay carries. *)
Definition relay_operation (e : Event) : JsValue :=
  match e with
  | ev_fetch url body _ =>
      if String.eqb url "/api/relay"
      then match JsVal.prop "operation" body with
           | Some operation => operation
           | None => JUndefined
           end
      else JUndefined
  | _ => JUndefined
  end.

Definition submits_delegate (e : Event) : bool :=
  JsVal.is_string (relay_operation e) "resetDelegate".

Definition submits_implementation (e : Event) : bool :=
  JsVal.is_string (relay_operation e) "resetImplementation".

Definition submits (e : Event) : bool :=
  submits_delegate e || submits_implementation e.

(** A transaction receipt has arrived. *)
Definition confirms (e : Event) : bool :=
  match e with
  | ev_waitForTransactionReceipt _ (Returned _) => true
  | _ => false
  end.

(** [checkState] has read the account and reported what it found. *)
Definition inspects (e : Event) : bool :=
  match e with
  | ev_op (onStateChange _ _) => true
  | _ => false
  end.

(** The commitment hash is handed to the signer. *)
Definition builds_commitment (e : Event) : bool :=
  match e with
  | ev_signMessage _ _ _ => true
  | _ => false
  end.














(** The first event with property [P] and the events before it. *)
Fixpoint locate (P : Event -> bool) (tr : list Event)
  : option (list Event * Event) :=
  match tr with
  | [] => None
  | e :: rest =>
      if P e then Some ([], e)
      else match locate P rest with
           | Some (pre, x) => Some (e :: pre, x)
           | None => None
           end
  end.

Section Commitment.

Variables smartWalletAddress NEW_IMPLEMENTATION_ADDRESS : string.
Variable chainId : Z.

(** Whenever a commitment is signed, the four events just before are
    the read of the implementation slot, the read of the nonce
    tracker, the read of the owner index and the construction of the
    signing account with the index before it, as [Number] converts it,
    all answered in this run, and the commitment is built from the
    answers of the first two. *)
Definition commitment_is_fresh (tr : list Event) : Prop :=
  forall pre account raw answer post,
    tr = pre ++ ev_signMessage account raw answer :: post ->
    exists before slotData nonce nextOwnerIndex owner,
      pre = before ++
            [ev_getStorageAt smartWalletAddress ERC1967_IMPLEMENTATION_SLOT
               (Returned (Some slotData));
             ev_readContract NONCE_TRACKER_ADDRESS "nonces"
               [smartWalletAddress] (Returned nonce);
             ev_readContract smartWalletAddress "nextOwnerIndex" []
               (Returned nextOwnerIndex);
             ev_toCoinbaseSmartAccount owner smartWalletAddress
               (Js.Number_of_BigInt (nextOwnerIndex - 1)) (Returned account)]
      /\ WalletUtils.createSetImplementationHash
           smartWalletAddress NEW_IMPLEMENTATION_ADDRESS "0x" nonce
           (slot_address slotData) false chainId
         = Some raw.

(** Whenever a commitment is signed, it is the hash the type
    descriptor prescribes for some nonce and current implementation,
    the account as proxy, the expected implementation, empty call
    data and the validator constant. *)
Definition commitment_is_typed (tr : list Event) : Prop :=
  forall pre account raw answer post,
    tr = pre ++ ev_signMessage account raw answer :: post ->
    exists nonce currentImplementation,
      TypeDescriptor.commitment_hash Contracts.IMPLEMENTATION_SET_TYPEHASH
        {| TypeDescriptor.chainId := chainId;
           TypeDescriptor.proxy := smartWalletAddress;
           TypeDescriptor.nonce := nonce;
           TypeDescriptor.currentImplementation := currentImplementation;
           TypeDescriptor.newImplementation := NEW_IMPLEMENTATION_ADDRESS;
           TypeDescriptor.callData := "0x";
           TypeDescriptor.validator := Contracts.VALIDATOR_ADDRESS |}
      = Some raw.

End Commitment.

(** ** The step log of a recovery *)

Definition failure_entry (message : string) : VerificationStep :=
  {| status := "Recovery failed"; isComplete := true; txHash := JUndefined;
     userOpHash := JUndefined; error := Some message |}.

(** The step at [index] carries an error. *)
Definition recorded_on_step (log : list VerificationStep) (index : nat) : Prop :=
  exists step, nth_error log index = Some step /\ error step <> None.

Definition repairs (delegate implementation : bool) : nat :=
  (if delegate then 1 else 0) + (if implementation then 1 else 0).

(** The log a recovery leaves: the opening entry, one entry for each
    repair step that was started, none of them carrying an error, and a
    closing entry. Either the closing entry reports success and every
    repair step has its entry, marked complete; or it is a separate
    failure entry carrying the error message, the entry of the step that
    failed is left incomplete, and the run ends with this entry: nothing
    further is attempted. *)
Definition recovery_log (delegate implementation : bool)
    (tr : list Event) (log : list VerificationStep) : Prop :=
  exists entries closing,
    log = new_step "Starting account recovery..." false :: entries ++ [closing]
    /\ Forall (fun step => error step = None) entries
    /\ ((closing = new_step "✓ Account recovered successfully" true
         /\ List.length entries = repairs delegate implementation
         /\ Forall (fun step => isComplete step = true) entries)
        \/ (exists message before,
              closing = failure_entry message
              /\ List.length entries <= repairs delegate implementation
              /\ isComplete (last entries (new_step "" false)) = false
              /\ tr = before ++ [ev_op (addStep closing);
                                 ev_op (setVerifying false)])).

(** A world in which every call succeeds. *)
Definition obliging_world : Oracle Ext :=
  fun R _ c =>
    match c in Ext R return Outcome R with
    | toWebAuthnAccount credential =>
        Returned (mkWebAuthnAccount credential)
    | readContract _ _ _ => Returned 7%Z
    | getBalance _ => Returned 1%Z
    | getCode _ => Returned (Some "0xef0100")
    | getStorageAt _ _ =>
        Returned (Some "0x0000000000000000000000003e0becb45ebf7bd1e3943b9521264bc5b0bd8ca9")
    | fetch _ _ =>
        Returned {| ok := true;
                    text := Returned "";
                    json := Returned (JObject [("hash", JString "0xabc");
                                               ("txHash", JString "0xabc");
                                               ("userOpHash", JString "0xdef")]) |}
    | waitForTransactionReceipt _ => Returned tt
    | toCoinbaseSmartAccount _ address ownerIndex =>
        Returned (mkSmartAccount address ownerIndex)
    | encodeCalls _ _ _ _ => Returned "0x"
    | getNonce _ => Returned 0%Z
    | signUserOperation _ _ => Returned "0x51"
    | signMessage _ _ => Returned "0x51"
    end.

(** A world in which every call succeeds but every endpoint refuses
    its request. *)
Definition refusing_endpoints : Oracle Ext :=
  fun R _ c =>
    match c in Ext R return Outcome R with
    | toWebAuthnAccount credential =>
        Returned (mkWebAuthnAccount credential)
    | readContract _ _ _ => Returned 7%Z
    | getBalance _ => Returned 1%Z
    | getCode _ => Returned (Some "0xef0100")
    | getStorageAt _ _ =>
        Returned (Some "0x0000000000000000000000003e0becb45ebf7bd1e3943b9521264bc5b0bd8ca9")
    | fetch _ _ =>
        Returned {| ok := false;
                    text := Returned "refused";
                    json := Rejected "no body" |}
    | waitForTransactionReceipt _ => Returned tt
    | toCoinbaseSmartAccount _ address ownerIndex =>
        Returned (mkSmartAccount address ownerIndex)
    | encodeCalls _ _ _ _ => Returned "0x"
    | getNonce _ => Returned 0%Z
    | signUserOperation _ _ => Returned "0x51"
    | signMessage _ _ => Returned "0x51"
    end.

End RecoverySpec.

(* ================================================================== *)
(** * Exceptions as values *)
(* ================================================================== *)

(** The handlers that follow look at what they catch: its class, its
    [shortMessage], its [data]. A thrown value is therefore kept as a
    value: an instance of [Error] with its message and the further
    properties a library hangs on it, or anything else. *)
Inductive Thrown : Type :=
| ErrorObject (message : string) (properties : list (string * JsValue))
| ThrownValue (v : JsValue).

(** How an evaluation ends: normally, with a value, or abruptly, with a
    thrown value. For a promise: fulfilled or rejected. *)
Inductive Completion (R : Type) : Type :=
| Normal (r : R)
| Abrupt (error : Thrown).
Arguments Normal {R} r.
Arguments Abrupt {R} error.

Module Exn.

(** [new Error(message)]. *)
Definition new_Error (message : string) : Thrown := ErrorObject message [].

(** What reading a property of [null] or [undefined] throws. *)
Definition TypeError : Thrown :=
  new_Error "Cannot read properties of null or undefined".

(** What a library function throws on arguments it rejects; the text
    names the function. *)
Definition thrown_by (function : string) : Thrown :=
  new_Error (function ++ " rejected its arguments")%string.

(** [error.key]. *)
Definition prop (key : string) (error : Thrown) : option JsValue :=
  match error with
  | ErrorObject message properties =>
      Some (if String.eqb key "message" then JString message
            else JsVal.lookup key properties)
  | ThrownValue v => JsVal.prop key v
  end.

(** [value?.key]. *)
Definition optional_prop (key : string) (value : JsValue) : JsValue :=
  match JsVal.prop key value with
  | Some v => v
  | None => JUndefined
  end.

Definition bind {A B} (m : Completion A) (k : A -> Completion B)
  : Completion B :=
  match m with
  | Normal a => k a
  | Abrupt error => Abrupt error
  end.

End Exn.

Notation "x <~ m ;; k" := (Exn.bind m (fun x => k))
  (at level 61, m at next level, right associativity).

(** Asynchronous code whose exceptions are values: the programs of
    [Async], with [Thrown] in the place of the message. *)
Module Task.

Section Programs.

Context {Ext : Type -> Type} {Op : Type}.

Inductive Prog (A : Type) : Type :=
| Ret (a : A)
| Throw (error : Thrown)
| Act (op : Op) (k : Prog A)
| Await {R : Type} (c : Ext R) (k : Completion R -> Prog A).

Arguments Ret {A} a.
Arguments Throw {A} error.
Arguments Act {A} op k.
Arguments Await {A R} c k.

Fixpoint bind {A B} (p : Prog A) (f : A -> Prog B) : Prog B :=
  match p with
  | Ret a => f a
  | Throw error => Throw error
  | Act op k => Act op (bind k f)
  | Await c k => Await c (fun o => bind (k o) f)
  end.

(** A synchronous evaluation inside the program. *)
Definition of_completion {A} (o : Completion A) : Prog A :=
  match o with
  | Normal a => Ret a
  | Abrupt error => Throw error
  end.

(** [await c]. *)
Definition await {R} (c : Ext R) : Prog R := Await c of_completion.

Definition act (op : Op) : Prog unit := Act op (Ret tt).

Definition lift {A} (error : Thrown) (v : option A) : Prog A :=
  match v with
  | Some a => Ret a
  | None => Throw error
  end.

(** [try { p } catch (error) { handler(error) }]. *)
Fixpoint try_catch {A} (p : Prog A) (handler : Thrown -> Prog A) : Prog A :=
  match p with
  | Ret a => Ret a
  | Throw error => handler error
  | Act op k => Act op (try_catch k handler)
  | Await c k => Await c (fun o => try_catch (k o) handler)
  end.

(** [try { p } finally { f }]. *)
Fixpoint finally {A} (p : Prog A) (f : Prog unit) : Prog A :=
  match p with
  | Ret a => bind f (fun _ => Ret a)
  | Throw error => bind f (fun _ => Throw error)
  | Act op k => Act op (finally k f)
  | Await c k => Await c (fun o => finally (k o) f)
  end.

(** The world answers the [n]-th awaited call of a run. *)
Definition Oracle : Type := forall R : Type, nat -> Ext R -> Completion R.

Section Run.

Context {Event State : Type}.
Variable observe_op : Op -> Event.
Variable observe_call : forall R : Type, Ext R -> Completion R -> Event.
Variable apply_op : Op -> State -> State.

Fixpoint trace {A} (p : Prog A) (world : Oracle) (tick : nat)
  : list Event :=
  match p with
  | Ret _ | Throw _ => []
  | Act op k => observe_op op :: trace k world tick
  | Await c k =>
      let o := world _ tick c in
      observe_call _ c o :: trace (k o) world (S tick)
  end.

Fixpoint result {A} (p : Prog A) (world : Oracle) (tick : nat)
  : Completion A :=
  match p with
  | Ret a => Normal a
  | Throw error => Abrupt error
  | Act op k => result k world tick
  | Await c k => result (k (world _ tick c)) world (S tick)
  end.

Fixpoint final {A} (p : Prog A) (world : Oracle) (tick : nat) (st : State)
  : State :=
  match p with
  | Ret _ | Throw _ => st
  | Act op k => final k world tick (apply_op op st)
  | Await c k => final (k (world _ tick c)) world (S tick) st
  end.

End Run.

End Programs.

Arguments Prog : clear implicits.
Arguments Oracle : clear implicits.
Arguments Ret {Ext Op A} a.
Arguments Throw {Ext Op A} error.
Arguments Act {Ext Op A} op k.
Arguments Await {Ext Op A R} c k.

End Task.

Declare Scope task_scope.
Delimit Scope task_scope with task.
Notation "'let*' x ':=' c 'in' k" := (Task.bind c (fun x => k))
  (at level 10, x name, c at level 100, k at level 200) : task_scope.
Notation "c ';;;' k" := (Task.bind c (fun _ => k))
  (at level 100, k at level 200, right associativity) : task_scope.

(* ================================================================== *)
(** * lib/wallet-utils.ts: accounts and clients *)
(* ================================================================== *)

Module WalletAccounts.

Import Js Viem.

(** The chains a client is made for. *)
Inductive Chain : Type :=
| localAnvil
| baseSepolia.

(* Anvil's first pre-funded account *)
Definition ANVIL_RELAYER_PRIVATE_KEY : string :=
  "0xac0974bec39a17e36ba4a6b4d238ff944bacb478cbed5efcae784d7bf4f2ff80".

(** What [createWalletClient] is given: the account that signs, the
    chain, and the [key] option when there is one. *)
Record Client : Type := mkClient {
  wallet : WalletUtils.WalletClient;
  chain : Chain;
  key : option string
}.

Section Accounts.

(** [privateKeyToAddress] of viem/accounts: the address of the public
    key of a private key. It throws on text that is no valid key. *)
Variable privateKeyToAddress : string -> Completion string.

(** [privateKeyToAccount(privateKey)]: the account keeps the key it was
    made from and signs with it. *)
Definition privateKeyToAccount (privateKey : string)
  : Completion WalletUtils.LocalAccount :=
  address <~ privateKeyToAddress privateKey ;;
  Normal (WalletUtils.mkLocalAccount address privateKey).

(** [process.env.RELAYER_PRIVATE_KEY]. *)
Variable RELAYER_PRIVATE_KEY : option string.

Definition getRelayerWalletClient (useAnvil : bool) : Completion Client :=
  selected <~
    (if useAnvil then
       (* Use Anvil's pre-funded account *)
       Normal (ANVIL_RELAYER_PRIVATE_KEY, localAnvil)
     else
       (* Use environment variable for testnet *)
       if negb (JsVal.truthy_string RELAYER_PRIVATE_KEY) then
         Abrupt (Exn.new_Error
                   "RELAYER_PRIVATE_KEY environment variable is required for non-Anvil networks")
       else
         Normal (PasskeyVerification.or_else RELAYER_PRIVATE_KEY "",
                 baseSepolia)) ;;
  let '(privateKey, chain) := selected in
  relayerAccount <~ privateKeyToAccount privateKey ;;
  let relayerWallet :=
    {| wallet := WalletUtils.mkWalletClient relayerAccount;
       chain := chain;
       key := None |} in
  Normal relayerWallet.

Definition createEOAClient (account : WalletUtils.LocalAccount)
    (useAnvil : bool) : Client :=
  {| wallet := WalletUtils.mkWalletClient account;
     chain := if useAnvil then localAnvil else baseSepolia;
     key := Some (WalletUtils.address account) |}.

(** [createEOAWallet()]; [randomBytes] is what
    [crypto.getRandomValues(new Uint8Array(32))] filled in. *)
Definition createEOAWallet (randomBytes : Bytes)
  : Completion WalletUtils.LocalAccount :=
  let privateKey :=
    ("0x" ++ String.concat ""
               (map (fun b => padStart 2 "0" (toString16 (Byte.to_N b)))
                  randomBytes))%string in
  privateKeyToAccount privateKey.

End Accounts.

End WalletAccounts.

(* ================================================================== *)
(** * scripts/upgrade-wallet.ts: accounts and clients *)
(* ================================================================== *)

Module UpgradeAccounts.

Import Js Viem.

(* Predefined Anvil relayer account for testing *)
Definition RELAYER_address : string :=
  "0x3C44CdDdB6a900fa2b585dd299e03d12FA4293BC".
Definition RELAYER_privateKey : string :=
  "0x5de4111afa1a4b94908f83103eb1f1706367c2e68ca870fc3fb9a804cdab365a".

Section Accounts.

Variable privateKeyToAddress : string -> Completion string.

(** [createRandomEOAWallet()]; [randomBytes] is what
    [crypto.randomBytes(32)] returned. *)
Definition createRandomEOAWallet (randomBytes : Bytes)
  : Completion UpgradeScript.ExtendedAccount :=
  let privateKey := ("0x" ++ hex_of_bytes randomBytes)%string in
  account <~ WalletAccounts.privateKeyToAccount privateKeyToAddress
               privateKey ;;
  (* Store the private key on the account object *)
  Normal {| UpgradeScript.address := WalletUtils.address account;
            UpgradeScript._privateKey := privateKey |}.

(** The script's [createEOAClient]: the chain is [anvil] whatever the
    flag. *)
Definition createEOAClient (account : UpgradeScript.ExtendedAccount)
    (useAnvil : bool) : UpgradeScript.WalletClient :=
  UpgradeScript.mkWalletClient (Some account).

End Accounts.

End UpgradeAccounts.

(* ================================================================== *)
(** * viem: call data of a function call *)
(* ================================================================== *)

Module ViemCalls.

Import Js Viem.

Definition type_name (t : AbiType) : string :=
  match t with
  | t_address => "address"
  | t_uint256 => "uint256"
  | t_bool => "bool"
  | t_bytes32 => "bytes32"
  | t_bytes => "bytes"
  | t_bytes_array => "bytes[]"
  end.

(** [formatAbiItem] of a function: its name and the types of its
    inputs. *)
Definition formatAbiItem (name : string) (inputs : list AbiType) : string :=
  (name ++ "(" ++ String.concat "," (map type_name inputs) ++ ")")%string.

(** [toFunctionSelector(signature)]: the first four bytes of the hash of
    the signature text. *)
Definition toFunctionSelector (signature : string) : Bytes :=
  firstn 4 (Keccak.keccak_256 (utf8 signature)).

(** [encodeFunctionData({ abi, functionName, args })] for an ABI that
    holds the one function: the selector, then the encoded
    arguments. *)
Definition encodeFunctionData (functionName : string)
    (inputs : list AbiType) (args : list Arg) : option string :=
  let signature := formatAbiItem functionName inputs in
  data <- encodeAbiParameters inputs args ;;
  Some ("0x" ++ hex_of_bytes (toFunctionSelector signature)
             ++ slice_from 2 data)%string.

End ViemCalls.

(* ================================================================== *)
(** * api/relay/route.ts: the relayer behind the route *)
(* ================================================================== *)

Module RelaySetup.

Import Js.

Section Setup.

Variable privateKeyToAddress : string -> Completion string.

(** The statements the module runs when it is loaded, as a function of
    the two environment variables: the relayer account, or the error
    that keeps the route from loading. *)
Definition relayerAccount
    (RELAYER_PRIVATE_KEY PUBLIC_RELAYER_ADDRESS : option string)
  : Completion WalletUtils.LocalAccount :=
  if negb (JsVal.truthy_string RELAYER_PRIVATE_KEY) then
    Abrupt (Exn.new_Error
              "RELAYER_PRIVATE_KEY environment variable is required")
  else if negb (JsVal.truthy_string PUBLIC_RELAYER_ADDRESS) then
    Abrupt (Exn.new_Error
              "NEXT_PUBLIC_RELAYER_ADDRESS environment variable is required")
  else
    (* Create relayer wallet once *)
    relayerAccount <~
      WalletAccounts.privateKeyToAccount privateKeyToAddress
        (PasskeyVerification.or_else RELAYER_PRIVATE_KEY "") ;;
    (* Verify the relayer address matches what's public *)
    if negb (String.eqb
               (toLowerCase (WalletUtils.address relayerAccount))
               (toLowerCase
                  (PasskeyVerification.or_else PUBLIC_RELAYER_ADDRESS "")))
    then Abrupt (Exn.new_Error
                   "Relayer private key does not match public address")
    else Normal relayerAccount.

End Setup.

End RelaySetup.

(* ================================================================== *)
(** * api/verify-passkey/submit/route.ts *)
(* ================================================================== *)

Module SubmitRoute.

Import Task.

Inductive Ext : Type -> Type :=
| writeContract (address functionName : string) (args : list JsValue)
  : Ext JsValue.

Inductive Op : Type :=
| console_error (label : string) (error : Thrown).

Inductive Event : Type :=
| ev_console_error (label : string) (error : Thrown)
| ev_writeContract (address functionName : string) (args : list JsValue)
    (answer : Completion JsValue).

Definition observe_op (op : Op) : Event :=
  match op with
  | console_error label error => ev_console_error label error
  end.

Definition observe (R : Type) (c : Ext R) : Completion R -> Event :=
  match c in Ext R return Completion R -> Event with
  | writeContract a f args => ev_writeContract a f args
  end.

(** A response body: the JSON text of a value, or plain text. *)
Inductive Body : Type :=
| json (value : JsValue)
| text (value : string).

Record Response : Type := mkResponse {
  body : Body;
  status : nat
}.

Section Route.

(** [ENTRYPOINT_ADDRESS] of lib/constants.ts is not among the sources;
    the key is [process.env.RELAYER_PRIVATE_KEY]. *)
Variable ENTRYPOINT_ADDRESS : string.
Variable RELAYER_PRIVATE_KEY : option string.
Variable privateKeyToAddress : string -> Completion string.

Definition P := Prog Ext Op.

(** The body of the [try] block; [request_json] is how
    [await request.json()] ended. *)
Definition POST_try (request_json : Completion JsValue) : P Response :=
  (let* body := of_completion request_json in
   let* userOp := lift Exn.TypeError (JsVal.prop "userOp" body) in
   (* Create wallet client for the relayer *)
   let* relayerAccount :=
     of_completion
       match RELAYER_PRIVATE_KEY with
       | Some privateKey =>
           WalletAccounts.privateKeyToAccount privateKeyToAddress privateKey
       | None => Abrupt Exn.TypeError
       end in
   (* Submit the userOp *)
   let* txHash :=
     await (writeContract ENTRYPOINT_ADDRESS "handleOps"
              [JArray [userOp];
               JString (WalletUtils.address relayerAccount)]) in
   let* userOpHash :=
     await (writeContract ENTRYPOINT_ADDRESS "getUserOpHash" [userOp]) in
   Ret {| body := json (JObject [("txHash", txHash);
                                 ("userOpHash", userOpHash)]);
          status := 200 |})%task.

Definition POST (request_json : Completion JsValue) : P Response :=
  try_catch (POST_try request_json)
    (fun error =>
       (act (console_error "Error in submit endpoint:" error) ;;;
        Ret {| body := text match error with
                            | ErrorObject message _ => message
                            | ThrownValue _ => "Unknown error"
                            end;
               status := 500 |})%task).

(** One request served: what was written and logged, in order, and how
    the handler ended. *)
Definition serve (request_json : Completion JsValue) (world : Oracle Ext)
  : list Event * Completion Response :=
  (trace observe_op observe (POST request_json) world 0,
   result (POST request_json) world 0).

End Route.

End SubmitRoute.

(* ================================================================== *)
(** * components/RecoveryModal.tsx: the dialog's own handler *)
(* ================================================================== *)

Module RecoveryModalHandlers.

Import Task.

(** The awaited call is the [onRecover] prop. *)
Inductive Ext : Type -> Type :=
| onRecover : Ext unit.

Inductive Op : Type :=
| setIsRecovering (b : bool)
| onClose
| console_error (label : string) (error : Thrown).

Inductive Event : Type :=
| ev_op (op : Op)
| ev_onRecover (answer : Completion unit).

Definition observe (R : Type) (c : Ext R) : Completion R -> Event :=
  match c in Ext R return Completion R -> Event with
  | onRecover => ev_onRecover
  end.

(** The dialog's one piece of state, [isRecovering]. *)
Definition apply_op (op : Op) (isRecovering : bool) : bool :=
  match op with
  | setIsRecovering b => b
  | onClose | console_error _ _ => isRecovering
  end.

Definition handleRecover : Prog Ext Op unit :=
  finally
    (try_catch
       (act (setIsRecovering true) ;;;
        act onClose ;;; (* Close the modal first *)
        await onRecover (* Then start the recovery process *))%task
       (fun error => act (console_error "Recovery failed:" error)))
    (act (setIsRecovering false)).

End RecoveryModalHandlers.

(* ================================================================== *)
(** * components/RecoveryModal.tsx, the earlier dialog *)
(* ================================================================== *)

(** The dialog as it was before the ownership flag: the one whose props
    the verification component passes. *)
Module RecoveryModalEarlier.

Inductive Handler : Type :=
| onClose
| onRecover.

Record Button : Type := mkButton {
  label : string;
  onClick : Handler
}.

(** The rendered dialog: the issues its text names, and its buttons. *)
Record View : Type := mkView {
  issues : string;
  buttons : list Button
}.

Definition RecoveryModal (isOpen delegateIssue implementationIssue : bool)
  : option View :=
  if negb isOpen then None
  else
    let issues :=
      (if delegateIssue then ["incorrect delegate"] else [])
        ++ (if implementationIssue then ["incorrect implementation"] else []) in
    Some {| issues := String.concat " and " issues;
            buttons := [ {| label := "Cancel"; onClick := onClose |};
                         {| label := "Restore Account";
                            onClick := onRecover |} ] |}.

End RecoveryModalEarlier.

(* ================================================================== *)
(** * components/PasskeyVerification.tsx: what the component renders *)
(* ================================================================== *)

Module PasskeyViews.

Import PasskeyVerification.

(** The condition of the success banner:
    [isVerified && steps.every((step) => step.isComplete && !step.error)]. *)
Definition success_banner (st : State) : bool :=
  isVerified st
  && forallb (fun step =>
                isComplete step && negb (JsVal.truthy_string (error step)))
       (steps st).

(** The label and the [disabled] flag of the button. *)
Definition button (st : State) : string * bool :=
  (if verifying st then "Working on userOp..." else "Transact using passkey",
   verifying st).

(** The dialog the component renders. *)
Definition recoveryModal (isDelegateDisrupted isImplementationDisrupted : bool)
    (st : State) : option RecoveryModalEarlier.View :=
  RecoveryModalEarlier.RecoveryModal (showRecoveryModal st)
    isDelegateDisrupted isImplementationDisrupted.

End PasskeyViews.

(* ================================================================== *)
(** * components/WalletManager.tsx *)
(* ================================================================== *)

Module WalletManager.

Import Js Viem Task.

(* Test values *)
(** [parseEther("0.0001")]. *)
Definition INITIAL_FUNDING : Z := 100000000000000.

Definition formatError (error : Thrown) : option string :=
  let errorMessage := "Failed to upgrade wallet: " in
  shortMessage <- Exn.prop "shortMessage" error ;;
  errorMessage <-
    (if JsVal.truthy shortMessage then
       shown <- JsVal.toString shortMessage ;;
       Some (errorMessage ++ shown)%string
     else
       message <- Exn.prop "message" error ;;
       if JsVal.truthy message
       then shown <- JsVal.toString message ;;
            Some (errorMessage ++ shown)%string
       else Some errorMessage) ;;
  (* Check for contract revert reasons *)
  data <- Exn.prop "data" error ;;
  let contractMessage := Exn.optional_prop "message" data in
  if JsVal.truthy contractMessage
  then shown <- JsVal.toString contractMessage ;;
       Some (errorMessage ++ String (ascii_of_N 10) "Contract message: "
               ++ shown)%string
  else Some errorMessage.

(** The component's state. *)
Record State : Type := mkState {
  loading : bool;
  error : option string;
  account : option WalletUtils.LocalAccount;
  isUpgraded : bool
}.

(** State setters and prop callbacks. *)
Inductive Op : Type :=
| setLoading (b : bool)
| setError (e : option string)
| setAccount (a : option WalletUtils.LocalAccount)
| setIsUpgraded (b : bool)
| onWalletCreated (address : string)
| onUpgradeComplete (address txHash : string).

Definition apply_op (op : Op) (st : State) : State :=
  match op with
  | setLoading b =>
      {| loading := b; error := error st; account := account st;
         isUpgraded := isUpgraded st |}
  | setError e =>
      {| loading := loading st; error := e; account := account st;
         isUpgraded := isUpgraded st |}
  | setAccount a =>
      {| loading := loading st; error := error st; account := a;
         isUpgraded := isUpgraded st |}
  | setIsUpgraded b =>
      {| loading := loading st; error := error st; account := account st;
         isUpgraded := b |}
  | onWalletCreated _ | onUpgradeComplete _ _ => st
  end.

Record TransactionRequest : Type := mkTransactionRequest {
  to : string;
  value : Z;
  data : string;
  authorizationList : list JsValue;
  gas : Z
}.

(** The awaited calls: the random source, the user's authorization
    signature, the relayer's transaction, and the reads of the public
    client, each with the chain of the client that makes it. *)
Inductive Ext : Type -> Type :=
| getRandomValues (length : nat) : Ext Bytes
| signAuthorization (signer : WalletAccounts.Client)
    (contractAddress sponsor : string) : Ext JsValue
| sendTransaction (sender : WalletAccounts.Client) (tx : TransactionRequest)
  : Ext string
| waitForTransactionReceipt (chain : WalletAccounts.Chain) (hash : string)
  : Ext JsValue
| getCode (chain : WalletAccounts.Chain) (address : string)
  : Ext (option string).

Inductive Event : Type :=
| ev_op (op : Op)
| ev_getRandomValues (length : nat) (answer : Completion Bytes)
| ev_signAuthorization (signer : WalletAccounts.Client)
    (contractAddress sponsor : string) (answer : Completion JsValue)
| ev_sendTransaction (sender : WalletAccounts.Client)
    (tx : TransactionRequest) (answer : Completion string)
| ev_waitForTransactionReceipt (chain : WalletAccounts.Chain)
    (hash : string) (answer : Completion JsValue)
| ev_getCode (chain : WalletAccounts.Chain) (address : string)
    (answer : Completion (option string)).

Definition observe (R : Type) (c : Ext R) : Completion R -> Event :=
  match c in Ext R return Completion R -> Event with
  | getRandomValues n => ev_getRandomValues n
  | signAuthorization s c p => ev_signAuthorization s c p
  | sendTransaction s tx => ev_sendTransaction s tx
  | waitForTransactionReceipt ch h => ev_waitForTransactionReceipt ch h
  | getCode ch a => ev_getCode ch a
  end.

Definition P := Prog Ext Op.

Section Component.

(** The [useAnvil] prop; the environment and the library functions the
    helpers rest on; the two proxy addresses of lib/abi/EIP7702Proxy.ts,
    which are not among the sources. *)
Variable useAnvil : bool.
Variable RELAYER_PRIVATE_KEY : option string.
Variable privateKeyToAddress : string -> Completion string.
Variable secp256k1_sign : Signer.
Variable EIP7702ProxyAddresses_anvil : string.
Variable EIP7702ProxyAddresses_baseSepolia : string.

Definition handleCreateEOA : P unit :=
  finally
    (try_catch
       (act (setLoading true) ;;;
        act (setError None) ;;;
        let* randomBytes := await (getRandomValues 32) in
        let* newAccount :=
          of_completion
            (WalletAccounts.createEOAWallet privateKeyToAddress randomBytes) in
        act (setAccount (Some newAccount)) ;;;
        act (onWalletCreated (WalletUtils.address newAccount)))%task
       (fun error => act (setError (Some "Failed to create EOA wallet"))))
    (act (setLoading false)).

(** [setError(formatError(error))] of the two [catch] clauses. *)
Definition report (error : Thrown) : P unit :=
  (let* text := lift Exn.TypeError (formatError error) in
   act (setError (Some text)))%task.

(** [account] is the state the handler was made with. *)
Definition handleUpgradeWallet (account : option WalletUtils.LocalAccount)
  : P unit :=
  match account with
  | None => Ret tt
  | Some account =>
      finally
        (try_catch
           (act (setLoading true) ;;;
            act (setError None) ;;;
            (* Create user's wallet client for signing *)
            let userWallet := WalletAccounts.createEOAClient account useAnvil in
            (* Get the relayer wallet for submitting the transaction *)
            let* relayerWallet :=
              of_completion
                (WalletAccounts.getRelayerWalletClient privateKeyToAddress
                   RELAYER_PRIVATE_KEY useAnvil) in
            let relayerAddress :=
              WalletUtils.address
                (WalletUtils.account (WalletAccounts.wallet relayerWallet)) in
            (* Create public client for reading state *)
            let publicClient := WalletAccounts.localAnvil in
            (* Get the proxy address based on network *)
            let proxyAddress :=
              if useAnvil then EIP7702ProxyAddresses_anvil
              else EIP7702ProxyAddresses_baseSepolia in
            (* Create the authorization signature *)
            let* authorization :=
              await (signAuthorization userWallet proxyAddress
                       relayerAddress) in
            (* Prepare initialization data *)
            let* initArgs :=
              lift (Exn.thrown_by "encodeAbiParameters")
                (WalletUtils.encodeInitializeArgs relayerAddress) in
            let* initSignatureHash :=
              lift (Exn.thrown_by "encodeAbiParameters")
                (WalletUtils.createInitializeHash proxyAddress initArgs) in
            let* signature :=
              lift (Exn.thrown_by "signMessage")
                (WalletUtils.signInitialization secp256k1_sign
                   (WalletAccounts.wallet userWallet) initSignatureHash) in
            let* initData :=
              lift (Exn.thrown_by "encodeFunctionData")
                (ViemCalls.encodeFunctionData "initialize"
                   [t_bytes; t_bytes] [a_hex initArgs; a_hex signature]) in
            (* Submit combined transaction *)
            finally
              (try_catch
                 (let* hash :=
                    await (sendTransaction relayerWallet
                             {| to := WalletUtils.address account;
                                value := INITIAL_FUNDING;
                                data := initData;
                                authorizationList := [authorization];
                                gas := 1000000 |}) in
                  (* Check the transaction receipt *)
                  let* receipt :=
                    await (waitForTransactionReceipt publicClient hash) in
                  (* Verify code deployment regardless of transaction success *)
                  let* code :=
                    await (getCode publicClient
                             (WalletUtils.address account)) in
                  if JsVal.truthy_string code
                     && negb (String.eqb
                                (PasskeyVerification.or_else code "") "0x")
                  then
                    act (onUpgradeComplete (WalletUtils.address account)
                           hash) ;;;
                    act (setIsUpgraded true)
                  else
                    Throw (Exn.new_Error
                             "Code deployment failed - no code found at EOA address"))
                 report)
              (act (setLoading false)))%task
           report)
        (act (setLoading false))
  end.

End Component.

End WalletManager.

(* ================================================================== *)
(** * scripts/upgrade-wallet.ts: the script *)
(* ================================================================== *)

Module UpgradeMain.

Import Js Viem Task.

Record TransactionRequest : Type := mkTransactionRequest {
  to : string;
  value : Z;
  authorizationList : list JsValue
}.

Inductive Ext : Type -> Type :=
| randomBytes (length : nat) : Ext Bytes
| signAuthorization (signer : UpgradeScript.WalletClient)
    (contractAddress sponsor : string) : Ext JsValue
| sendTransaction (sender : UpgradeScript.WalletClient)
    (tx : TransactionRequest) : Ext string
| getTransactionReceipt (hash : string) : Ext JsValue
| getCode (address : string) : Ext (option string)
| writeContract (sender : UpgradeScript.WalletClient)
    (address functionName : string) (args : list string) : Ext string
| waitForTransactionReceipt (hash : string) : Ext JsValue
| readContract (address functionName : string) (args : list string)
  : Ext JsValue.

(** [process.exit(code)]; console output is left out. *)
Inductive Op : Type :=
| process_exit (code : nat).

Inductive Event : Type :=
| ev_op (op : Op)
| ev_randomBytes (length : nat) (answer : Completion Bytes)
| ev_signAuthorization (signer : UpgradeScript.WalletClient)
    (contractAddress sponsor : string) (answer : Completion JsValue)
| ev_sendTransaction (sender : UpgradeScript.WalletClient)
    (tx : TransactionRequest) (answer : Completion string)
| ev_getTransactionReceipt (hash : string) (answer : Completion JsValue)
| ev_getCode (address : string) (answer : Completion (option string))
| ev_writeContract (sender : UpgradeScript.WalletClient)
    (address functionName : string) (args : list string)
    (answer : Completion string)
| ev_waitForTransactionReceipt (hash : string) (answer : Completion JsValue)
| ev_readContract (address functionName : string) (args : list string)
    (answer : Completion JsValue).

Definition observe (R : Type) (c : Ext R) : Completion R -> Event :=
  match c in Ext R return Completion R -> Event with
  | randomBytes n => ev_randomBytes n
  | signAuthorization s c p => ev_signAuthorization s c p
  | sendTransaction s tx => ev_sendTransaction s tx
  | getTransactionReceipt h => ev_getTransactionReceipt h
  | getCode a => ev_getCode a
  | writeContract s a f args => ev_writeContract s a f args
  | waitForTransactionReceipt h => ev_waitForTransactionReceipt h
  | readContract a f args => ev_readContract a f args
  end.

Definition P := Prog Ext Op.

Section Script.

Variable privateKeyToAddress : string -> Completion string.
Variable secp256k1_sign : Signer.

Definition main_try : P unit :=
  ((* Create a new random EOA *)
   let* bytes := await (randomBytes 32) in
   let* accountToUpgrade :=
     of_completion
       (UpgradeAccounts.createRandomEOAWallet privateKeyToAddress bytes) in
   let* relayerAccount :=
     of_completion
       (WalletAccounts.privateKeyToAccount privateKeyToAddress
          UpgradeAccounts.RELAYER_privateKey) in
   (* Create wallet clients *)
   let userWallet := UpgradeAccounts.createEOAClient accountToUpgrade true in
   let relayerWallet :=
     UpgradeAccounts.createEOAClient
       {| UpgradeScript.address := WalletUtils.address relayerAccount;
          UpgradeScript._privateKey := UpgradeAccounts.RELAYER_privateKey |}
       true in
   let relayerAddress := WalletUtils.address relayerAccount in
   let address := UpgradeScript.address accountToUpgrade in
   (* Create the authorization signature *)
   let* authorization :=
     await (signAuthorization userWallet UpgradeScript.PROXY_ADDRESS
              relayerAddress) in
   (* Create initialization args with the relayer as the new owner *)
   let* initArgs :=
     lift (Exn.thrown_by "encodeAbiParameters")
       (UpgradeScript.encodeInitializeArgs relayerAddress) in
   let* initHash :=
     lift (Exn.thrown_by "encodeAbiParameters")
       (UpgradeScript.createInitializeHash UpgradeScript.PROXY_ADDRESS
          initArgs) in
   let* signature :=
     lift (Exn.thrown_by "signInitialization")
       (UpgradeScript.signInitialization secp256k1_sign userWallet
          initHash) in
   (* Submit the upgrade transaction *)
   let* hash :=
     await (sendTransaction relayerWallet
              {| to := address;
                 value := WalletManager.INITIAL_FUNDING;
                 authorizationList := [authorization] |}) in
   (* Check the transaction receipt *)
   let* receipt := await (getTransactionReceipt hash) in
   let* status := lift Exn.TypeError (JsVal.prop "status" receipt) in
   (* Check if the code was deployed *)
   let* code := await (getCode address) in
   (if JsVal.truthy_string code
       && negb (String.eqb (PasskeyVerification.or_else code "") "0x")
    then Ret tt
    else Throw (Exn.new_Error "Code deployment failed")) ;;;
   (* Initialize the wallet *)
   let* initTxnHash :=
     await (writeContract relayerWallet address "initialize"
              [initArgs; signature]) in
   let* initReceipt := await (waitForTransactionReceipt initTxnHash) in
   let* initStatus := lift Exn.TypeError (JsVal.prop "status" initReceipt) in
   (if JsVal.is_string initStatus "success" then Ret tt
    else Throw (Exn.new_Error "Initialization transaction failed")) ;;;
   (* Verify the relayer is the owner *)
   let* isOwner :=
     await (readContract address "isOwnerAddress" [relayerAddress]) in
   if negb (JsVal.truthy isOwner)
   then Throw (Exn.new_Error "Relayer is not the owner of the smart wallet")
   else Ret tt)%task.

(** The handler logs [error.message || error], which reads a property
    of what was caught, and exits. *)
Definition main : P unit :=
  try_catch main_try
    (fun error =>
       (let* message := lift Exn.TypeError (Exn.prop "message" error) in
        act (process_exit 1))%task).

End Script.

End UpgradeMain.

(* ================================================================== *)
(** * Observations on runs *)
(* ================================================================== *)

(** What the statements about the routes and the handlers read off a
    run. *)
Module Observed.

(** How the relayer answered a transaction of the relay route. *)
Definition relay_answer (e : Relay.Event) : Outcome JsValue :=
  match e with
  | Relay.ev_sendTransaction _ answer => answer
  | Relay.ev_writeContract _ _ _ answer => answer
  end.

(** The text of the [error] field of a 500 response of the relay route:
    [error.message || "Internal server error"]. *)
Definition relay_error_text (message : string) : string :=
  if String.eqb message "" then "Internal server error" else message.

(** A relayer wallet that answers every transaction with [hash]. *)
Definition answering_wallet (hash : JsValue) : Async.Oracle Relay.Ext :=
  fun R _ c =>
    match c in Relay.Ext R return Outcome R with
    | Relay.sendTransaction _ => Returned hash
    | Relay.writeContract _ _ _ => Returned hash
    end.

(** An encoder of function calls that returns the name of the
    function, to tell calls apart. *)
Definition encodeFunctionData_of_names (call : Relay.FunctionCall)
  : option string :=
  Some (Relay.functionName call).

(** A wallet that answers every write of the submit route with
    [hash]. *)
Definition answering_entry_point (hash : JsValue)
  : Task.Oracle SubmitRoute.Ext :=
  fun R _ c =>
    match c in SubmitRoute.Ext R return Completion R with
    | SubmitRoute.writeContract _ _ _ => Normal hash
    end.

(** Whether [text] contains [word]. *)
Definition mentions (word text : string) : bool :=
  match String.index 0 word text with
  | Some _ => true
  | None => false
  end.

(** The notice of an open dialog: its issues text and whether it hints
    at a new passkey. *)
Definition inconsistent_notice (v : option RecoveryModal.View)
  : option (string * bool) :=
  match v with
  | Some view =>
      match RecoveryModal.notice view with
      | RecoveryModal.InconsistentNotice issues hint => Some (issues, hint)
      | RecoveryModal.UnrecoverableNotice => None
      end
  | None => None
  end.

(** No call is rejected with [null] or [undefined]. *)
Definition rejections_are_values {Ext : Type -> Type}
    (world : Task.Oracle Ext) : Prop :=
  forall R n c error,
    world R n c = Abrupt error ->
    error <> ThrownValue JNull /\ error <> ThrownValue JUndefined.

(** A library function never throws [null] or [undefined]. *)
Definition throws_values {A B : Type} (f : A -> Completion B) : Prop :=
  forall a error,
    f a = Abrupt error ->
    error <> ThrownValue JNull /\ error <> ThrownValue JUndefined.

(** The values [formatError] appends to its text: the short message of
    the error when it is truthy, or else its message when that is
    truthy; then the message of the error's data when it is truthy. *)
Definition appended_by_formatError (error : Thrown) : list JsValue :=
  match Exn.prop "shortMessage" error, Exn.prop "message" error,
        Exn.prop "data" error with
  | Some shortMessage, Some message, Some data =>
      (if JsVal.truthy shortMessage then [shortMessage]
       else if JsVal.truthy message then [message] else [])
      ++ (if JsVal.truthy (Exn.optional_prop "message" data)
          then [Exn.optional_prop "message" data] else [])
  | _, _, _ => []
  end.

(** [formatError] returns on whatever a call is rejected with. *)
Definition rejections_are_formatted
    (world : Task.Oracle WalletManager.Ext) : Prop :=
  forall R n c error,
    world R n c = Abrupt error -> WalletManager.formatError error <> None.

(** [formatError] returns on whatever a library function throws. *)
Definition throws_are_formatted {A B : Type} (f : A -> Completion B) : Prop :=
  forall a error,
    f a = Abrupt error -> WalletManager.formatError error <> None.

(** A world in which every call of the wallet manager succeeds and the
    account has code after the upgrade. *)
Definition upgraded_chain : Task.Oracle WalletManager.Ext :=
  fun R _ c =>
    match c in WalletManager.Ext R return Completion R with
    | WalletManager.getRandomValues n => Normal (repeat x2a n)
    | WalletManager.signAuthorization _ _ _ => Normal (JObject [])
    | WalletManager.sendTransaction _ _ => Normal "0xabc"
    | WalletManager.waitForTransactionReceipt _ _ => Normal (JObject [])
    | WalletManager.getCode _ _ =>
        Normal (Some "0xef0100ca271a94dd66982180960b579de6b3213084d67a")
    end.

(** A signing primitive that answers every request with one
    signature. *)
Definition constant_signer : Signer :=
  fun _ _ => Some {| sig_r := 1; sig_s := 2; sig_recovery := 0 |}.

(** A world in which every call of the upgrade script succeeds. *)
Definition scripted_chain : Task.Oracle UpgradeMain.Ext :=
  fun R _ c =>
    match c in UpgradeMain.Ext R return Completion R with
    | UpgradeMain.randomBytes n => Normal (repeat x2a n)
    | UpgradeMain.signAuthorization _ _ _ => Normal (JObject [])
    | UpgradeMain.sendTransaction _ _ => Normal "0xabc"
    | UpgradeMain.getTransactionReceipt _ =>
        Normal (JObject [("status", JString "success")])
    | UpgradeMain.getCode _ =>
        Normal (Some "0xef0100261d8c5e9742e6f7f1076fa1f560894524e19cad")
    | UpgradeMain.writeContract _ _ _ _ => Normal "0xdef"
    | UpgradeMain.waitForTransactionReceipt _ =>
        Normal (JObject [("status", JString "success")])
    | UpgradeMain.readContract _ _ _ => Normal (JBool true)
    end.

(** Requests of the verification component, told apart by their
    address. *)
Definition fetches (url : string) (e : PasskeyVerification.Event) : bool :=
  match e with
  | PasskeyVerification.ev_fetch url' _ _ => String.eqb url' url
  | _ => false
  end.

(** The state of the verification component when it mounts. *)
Definition mounted : PasskeyVerification.State :=
  {| PasskeyVerification.verifying := false;
     PasskeyVerification.steps := [];
     PasskeyVerification.isVerified := false;
     PasskeyVerification.showRecoveryModal := false |}.

(** The handler tells its parent that the recovery is complete. *)
Definition reports_completion (e : PasskeyVerification.Event) : bool :=
  match e with
  | PasskeyVerification.ev_op PasskeyVerification.onRecoveryComplete => true
  | _ => false
  end.

(** A request sent with [fetch]. *)
Definition is_request (e : PasskeyVerification.Event) : bool :=
  match e with
  | PasskeyVerification.ev_fetch _ _ _ => true
  | _ => false
  end.

(** The user operation of [handleVerify], with the gas limits and the
    fees written there. *)
Definition user_operation (account : PasskeyVerification.SmartAccount)
    (callData : string) (nonce : Z) (signature : string)
  : PasskeyVerification.UserOperation :=
  {| PasskeyVerification.sender := PasskeyVerification.sa_address account;
     PasskeyVerification.nonce := nonce;
     PasskeyVerification.initCode := "0x";
     PasskeyVerification.callData := callData;
     PasskeyVerification.callGasLimit := 500000;
     PasskeyVerification.verificationGasLimit := 500000;
     PasskeyVerification.preVerificationGas := 100000;
     PasskeyVerification.maxFeePerGas := 3000000000;
     PasskeyVerification.maxPriorityFeePerGas := 2000000000;
     PasskeyVerification.paymasterAndData := "0x";
     PasskeyVerification.signature := signature |}.

End Observed.

(* ================================================================== *)
(** * Properties of the hex codecs *)
(* ================================================================== *)

Module JsFacts.

Import Js.

Lemma string_pair_ind (P : string -> Prop) :
  P EmptyString ->
  (forall c, P (String c EmptyString)) ->
  (forall c1 c2 s, P s -> P (String c1 (String c2 s))) ->
  forall s, P s.
Proof.
  intros H0 H1 H2 s.
  assert (both : P s /\ forall c, P (String c s)).
  { induction s as [|c s [IHs IHcs]]; split; auto. }
  exact (proj1 both).
Qed.

Lemma append_assoc (a b c : string) : ((a ++ b) ++ c = a ++ (b ++ c))%string.
Proof. induction a; simpl; congruence. Qed.

Lemma length_append (a b : string) :
  String.length (a ++ b) = String.length a + String.length b.
Proof. induction a; simpl; congruence. Qed.

Lemma to_N_byte_of_N (n : N) : (n < 256)%N -> Byte.to_N (byte_of_N n) = n.
Proof.
  intros Hn. unfold byte_of_N.
  destruct (Byte.of_N n) as [b|] eqn:E.
  - now apply Byte.to_of_N.
  - pose proof (Byte.to_of_N_option_map n) as H. rewrite E in H. simpl in H.
    destruct (N.leb_spec n 255); [discriminate | lia].
Qed.

Lemma byte_of_N_to_N (b : byte) : byte_of_N (Byte.to_N b) = b.
Proof. unfold byte_of_N. now rewrite Byte.of_to_N. Qed.

(** Every hex digit has a value below sixteen and, lower-cased, is the
    digit of that value. *)
Lemma asciiToBase16_spec (c : ascii) (n : N) :
  asciiToBase16 c = Some n -> (n < 16)%N /\ hex_digit n = lower_char c.
Proof.
  destruct c as [[] [] [] [] [] [] [] []]; vm_compute;
    intros H; inversion H; subst; split; reflexivity.
Qed.

Lemma asciiToBase16_lower (c : ascii) :
  asciiToBase16 (lower_char c) = asciiToBase16 c.
Proof. destruct c as [[] [] [] [] [] [] [] []]; reflexivity. Qed.

Lemma nibble_cases (n : N) :
  (n < 16)%N -> In n (map N.of_nat (seq 0 16)).
Proof. cbn. lia. Qed.

Lemma asciiToBase16_hex_digit (n : N) :
  (n < 16)%N -> asciiToBase16 (hex_digit n) = Some n.
Proof.
  intros Hn. pose proof (nibble_cases n Hn) as H. cbn in H.
  repeat (destruct H as [<-|H]; [reflexivity|]). contradiction.
Qed.

Lemma lower_hex_digit (n : N) :
  (n < 16)%N -> lower_char (hex_digit n) = hex_digit n.
Proof.
  intros Hn. pose proof (nibble_cases n Hn) as H. cbn in H.
  repeat (destruct H as [<-|H]; [reflexivity|]). contradiction.
Qed.

Lemma byte_hex_pair (n1 n2 : N) :
  (n1 < 16)%N -> (n2 < 16)%N ->
  byte_hex (byte_of_N (n1 * 16 + n2))
  = String (hex_digit n1) (String (hex_digit n2) EmptyString).
Proof.
  intros H1 H2. unfold byte_hex.
  rewrite to_N_byte_of_N by lia.
  replace ((n1 * 16 + n2) / 16)%N with n1
    by (apply N.div_unique with (r := n2); lia).
  replace ((n1 * 16 + n2) mod 16)%N with n2
    by (apply N.mod_unique with (q := n1); lia).
  reflexivity.
Qed.

Lemma byte_nibbles (b : byte) :
  (Byte.to_N b / 16 < 16)%N /\ (Byte.to_N b mod 16 < 16)%N
  /\ (Byte.to_N b / 16 * 16 + Byte.to_N b mod 16 = Byte.to_N b)%N.
Proof.
  pose proof (Byte.to_N_bounded b) as Hb.
  pose proof (N.div_mod (Byte.to_N b) 16 ltac:(lia)) as Hd.
  pose proof (N.mod_lt (Byte.to_N b) 16 ltac:(lia)) as Hm.
  repeat split; try lia.
  apply N.Div0.div_lt_upper_bound; lia.
Qed.

(** Decoding undoes encoding, one byte at a time. *)
Lemma hexToBytes_byte_hex (b : byte) (rest : string) :
  hexToBytes (byte_hex b ++ rest) = option_map (cons b) (hexToBytes rest).
Proof.
  destruct (byte_nibbles b) as (Hhi & Hlo & Hsum).
  unfold byte_hex. cbn [append hexToBytes].
  rewrite !asciiToBase16_hex_digit by assumption.
  rewrite Hsum, byte_of_N_to_N.
  now destruct (hexToBytes rest).
Qed.

Lemma hexToBytes_hex_of_bytes (bs : Bytes) :
  hexToBytes (hex_of_bytes bs) = Some bs.
Proof.
  induction bs as [|b bs IH]; [reflexivity|].
  cbn [hex_of_bytes]. now rewrite hexToBytes_byte_hex, IH.
Qed.

Lemma hexToBytes_hex_app (a : Bytes) (s : string) :
  hexToBytes (hex_of_bytes a ++ s) = option_map (List.app a) (hexToBytes s).
Proof.
  induction a as [|x a IH]; cbn [hex_of_bytes].
  - cbn [append]. now destruct (hexToBytes s).
  - rewrite append_assoc, hexToBytes_byte_hex, IH.
    now destruct (hexToBytes s).
Qed.

Lemma hex_of_bytes_app (a b : Bytes) :
  hex_of_bytes (a ++ b) = (hex_of_bytes a ++ hex_of_bytes b)%string.
Proof.
  induction a as [|x a IH]; [reflexivity|].
  cbn [hex_of_bytes List.app]. now rewrite IH, append_assoc.
Qed.

Lemma length_hex_of_bytes (bs : Bytes) :
  String.length (hex_of_bytes bs) = 2 * List.length bs.
Proof.
  induction bs as [|b bs IH]; [reflexivity|].
  cbn [hex_of_bytes List.length]. rewrite length_append, IH.
  unfold byte_hex. simpl. lia.
Qed.

Lemma every_hex_of_bytes (bs : Bytes) :
  every is_hex_char (hex_of_bytes bs) = true.
Proof.
  induction bs as [|b bs IH]; [reflexivity|].
  destruct (byte_nibbles b) as (Hhi & Hlo & _).
  cbn [hex_of_bytes]. unfold byte_hex. cbn [append every].
  unfold is_hex_char at 1 2.
  rewrite !asciiToBase16_hex_digit by assumption. now rewrite IH.
Qed.

Lemma toLowerCase_hex_of_bytes (bs : Bytes) :
  toLowerCase (hex_of_bytes bs) = hex_of_bytes bs.
Proof.
  induction bs as [|b bs IH]; [reflexivity|].
  destruct (byte_nibbles b) as (Hhi & Hlo & _).
  cbn [hex_of_bytes]. unfold byte_hex. cbn [append toLowerCase].
  now rewrite !lower_hex_digit, IH by assumption.
Qed.

(** Decoding does not see the case of the digits. *)
Lemma hexToBytes_toLowerCase (s : string) :
  hexToBytes (toLowerCase s) = hexToBytes s.
Proof.
  induction s as [|c|c1 c2 s IH] using string_pair_ind.
  - reflexivity.
  - reflexivity.
  - cbn [toLowerCase hexToBytes]. now rewrite !asciiToBase16_lower, IH.
Qed.

(** The lower-cased text of a hex string is the encoding of its bytes. *)
Lemma toLowerCase_canonical (s : string) (bs : Bytes) :
  hexToBytes s = Some bs -> toLowerCase s = hex_of_bytes bs.
Proof.
  revert bs.
  induction s as [|c|c1 c2 s IH] using string_pair_ind; intros bs H.
  - inversion H. reflexivity.
  - discriminate.
  - cbn [hexToBytes] in H.
    destruct (asciiToBase16 c1) as [n1|] eqn:E1; [|discriminate].
    destruct (asciiToBase16 c2) as [n2|] eqn:E2; [|discriminate].
    destruct (hexToBytes s) as [bs'|] eqn:E; [|discriminate].
    inversion H; subst bs. clear H.
    apply asciiToBase16_spec in E1. apply asciiToBase16_spec in E2.
    destruct E1 as [L1 D1], E2 as [L2 D2].
    cbn [toLowerCase hex_of_bytes].
    rewrite byte_hex_pair by assumption.
    cbn [append]. now rewrite D1, D2, (IH bs' eq_refl).
Qed.

(** Two hex strings agree up to case exactly when they denote the same
    bytes. *)
Lemma toLowerCase_eq_iff (s1 s2 : string) (b1 b2 : Bytes) :
  hexToBytes s1 = Some b1 -> hexToBytes s2 = Some b2 ->
  (toLowerCase s1 = toLowerCase s2 <-> b1 = b2).
Proof.
  intros H1 H2. split.
  - intros E.
    rewrite <- hexToBytes_toLowerCase, E, hexToBytes_toLowerCase in H1.
    congruence.
  - intros ->.
    now rewrite (toLowerCase_canonical _ _ H1), (toLowerCase_canonical _ _ H2).
Qed.

Lemma hexToBytes_length (s : string) (bs : Bytes) :
  hexToBytes s = Some bs -> String.length s = 2 * List.length bs.
Proof.
  intros H. apply toLowerCase_canonical in H.
  rewrite <- length_hex_of_bytes, <- H.
  clear. induction s; simpl; congruence.
Qed.


(** Below [2 ^ 53] the conversion of a big integer to a number is
    exact. *)
Lemma Number_of_BigInt_exact (n : Z) :
  (Z.abs n < 2 ^ 53)%Z -> Number_of_BigInt n = integer n.
Proof.
  intros H. unfold Number_of_BigInt.
  destruct (Z.eq_dec (Z.abs n) 0) as [E|E].
  - rewrite E. reflexivity.
  - assert (Hl : (Z.log2 (Z.abs n) < 53)%Z)
      by (apply Z.log2_lt_pow2; lia).
    destruct (Z.leb_spec (Z.log2 (Z.abs n) - 52) 0); [reflexivity|lia].
Qed.

(** From there on it rounds: to the nearest double, to the even one of
    two that are as near, and to an infinity beyond the largest. *)
Example Number_of_BigInt_rounds :
  Number_of_BigInt 9007199254740993 = integer 9007199254740992
  /\ Number_of_BigInt 9007199254740995 = integer 9007199254740996
  /\ Number_of_BigInt (- 9007199254740993) = integer (- 9007199254740992)
  /\ Number_of_BigInt (2 ^ 1024) = infinity false.
Proof. repeat split; vm_compute; reflexivity. Qed.

End JsFacts.

(* ================================================================== *)
(** * Numbers as hex text *)
(* ================================================================== *)

Module HexNumberFacts.

Import Js JsFacts Spec.
Local Open Scope N_scope.

Lemma repeat_char_shift (c : ascii) (k : nat) (acc : string) :
  (repeat_char c k ++ String c acc = String c (repeat_char c k ++ acc))%string.
Proof. induction k as [|k IH]; cbn; congruence. Qed.

Lemma fixed_hex_zero (k : nat) (acc : string) :
  fixed_hex k 0 acc = (repeat_char "0" k ++ acc)%string.
Proof.
  revert acc. induction k as [|k IH]; intros acc; [reflexivity|].
  cbn [fixed_hex]. change (0 / 16) with 0. change (hex_digit (0 mod 16)) with "0"%char.
  rewrite IH. apply repeat_char_shift.
Qed.

Lemma pow16_succ (f : nat) : 16 ^ N.of_nat (S f) = 16 * 16 ^ N.of_nat f.
Proof. rewrite Nat2N.inj_succ, N.pow_succ_r'. reflexivity. Qed.

Lemma div16_bound (f : nat) (n : N) :
  n < 16 ^ N.of_nat (S f) -> n / 16 < 16 ^ N.of_nat f.
Proof.
  rewrite pow16_succ. intros H. apply N.Div0.div_lt_upper_bound. lia.
Qed.

Lemma div16_nonzero (f : nat) (n : N) :
  n < 16 ^ N.of_nat (S f) -> n / 16 <> 0 -> (1 <= f)%nat.
Proof.
  intros H Hd. destruct f as [|f]; [|lia].
  exfalso. apply Hd. apply N.div_small. exact H.
Qed.

(** The digits [toString] produces are the fixed-width digits without
    their leading zeros. *)
Lemma hex_digits_fixed (fuel : nat) :
  forall n acc,
    n < 16 ^ N.of_nat fuel -> (1 <= fuel)%nat ->
    exists z : nat,
      (z < fuel)%nat
      /\ fixed_hex fuel n acc = (repeat_char "0" z ++ hex_digits fuel n acc)%string
      /\ String.length (hex_digits fuel n acc)
         = (fuel - z + String.length acc)%nat.
Proof.
  induction fuel as [|f IH]; intros n acc Hn Hf; [lia|].
  cbn [fixed_hex hex_digits].
  destruct (N.eqb_spec (n / 16) 0) as [E|E].
  - exists f. rewrite E, fixed_hex_zero. cbn [String.length].
    repeat split; lia.
  - pose proof (div16_nonzero _ _ Hn E) as Hf1.
    destruct (IH (n / 16) (String (hex_digit (n mod 16)) acc)
                (div16_bound _ _ Hn) Hf1) as (z & Hz & Hfix & Hlen).
    exists z. rewrite Hfix, Hlen. cbn [String.length].
    repeat split; lia.
Qed.

Lemma hex_digits_more (fuel : nat) :
  forall n acc,
    n < 16 ^ N.of_nat fuel -> (1 <= fuel)%nat ->
    hex_digits (S fuel) n acc = hex_digits fuel n acc.
Proof.
  induction fuel as [|f IH]; intros n acc Hn Hf; [lia|].
  cbn [hex_digits].
  destruct (N.eqb_spec (n / 16) 0) as [E|E]; [reflexivity|].
  pose proof (IH (n / 16) (String (hex_digit (n mod 16)) acc)
                (div16_bound _ _ Hn) (div16_nonzero _ _ Hn E)) as H.
  cbn [hex_digits] in H. exact H.
Qed.

Lemma pow16_mono (a b : nat) (n : N) :
  (a <= b)%nat -> n < 16 ^ N.of_nat a -> n < 16 ^ N.of_nat b.
Proof.
  intros Hab Hn. eapply N.lt_le_trans; [exact Hn|].
  apply N.pow_le_mono_r; lia.
Qed.

Lemma hex_digits_fuel (extra fuel : nat) (n : N) (acc : string) :
  n < 16 ^ N.of_nat fuel -> (1 <= fuel)%nat ->
  hex_digits (extra + fuel) n acc = hex_digits fuel n acc.
Proof.
  intros Hn Hf. induction extra as [|extra IH]; [reflexivity|].
  cbn [Nat.add]. rewrite hex_digits_more; [exact IH | | lia].
  apply (pow16_mono fuel); [lia | exact Hn].
Qed.

Lemma toString16_bound (n : N) :
  n < 16 ^ N.of_nat (S (N.to_nat (N.log2 n))).
Proof.
  rewrite Nat2N.inj_succ, N2Nat.id.
  destruct (N.eq_dec n 0) as [->|Hn]; [reflexivity|].
  pose proof (N.log2_spec n ltac:(lia)) as [_ Hup].
  eapply N.lt_le_trans; [exact Hup|].
  apply N.pow_le_mono_l. lia.
Qed.

Lemma toString16_fuel (fuel : nat) (n : N) :
  n < 16 ^ N.of_nat fuel -> (1 <= fuel)%nat ->
  toString16 n = hex_digits fuel n EmptyString.
Proof.
  intros Hn Hf. unfold toString16.
  set (own := S (N.to_nat (N.log2 n))).
  rewrite <- (hex_digits_fuel fuel own) by (apply toString16_bound || (unfold own; lia)).
  rewrite <- (hex_digits_fuel own fuel) by assumption.
  now rewrite Nat.add_comm.
Qed.

(** Padding the digits of [n] on the left gives its fixed-width
    digits. *)
Lemma padStart_toString16 (width : nat) (n : N) :
  n < 16 ^ N.of_nat width -> (1 <= width)%nat ->
  padStart width "0" (toString16 n) = fixed_hex width n EmptyString.
Proof.
  intros Hn Hw. rewrite (toString16_fuel width) by assumption.
  destruct (hex_digits_fixed width n EmptyString Hn Hw) as (z & Hz & Hfix & Hlen).
  unfold padStart. rewrite Hfix, Hlen. cbn [String.length].
  replace (width - (width - z + 0))%nat with z by lia. reflexivity.
Qed.

Lemma nibbles_of_low_byte (n : N) :
  (n mod 256) / 16 = (n / 16) mod 16 /\ (n mod 256) mod 16 = n mod 16.
Proof.
  change 256 with (16 * 16).
  rewrite N.Div0.mod_mul_r.
  pose proof (N.mod_lt n 16 ltac:(lia)) as H0.
  pose proof (N.mod_lt (n / 16) 16 ltac:(lia)) as H1.
  split.
  - symmetry. apply N.div_unique with (r := n mod 16); lia.
  - symmetry. apply N.mod_unique with (q := (n / 16) mod 16); lia.
Qed.

(** The fixed-width digits of [n] are the hex text of its bytes, most
    significant first. *)
Lemma fixed_hex_bytes (k : nat) :
  forall n acc,
    fixed_hex (2 * k) n acc = (hex_of_bytes (be_bytes k n) ++ acc)%string.
Proof.
  induction k as [|k IH]; intros n acc; [reflexivity|].
  replace (2 * S k)%nat with (S (S (2 * k))) by lia.
  cbn [fixed_hex]. rewrite IH.
  unfold be_bytes. cbn [le_bytes rev].
  rewrite hex_of_bytes_app, append_assoc, N.Div0.div_div.
  change (16 * 16) with 256. f_equal.
  cbn [hex_of_bytes]. unfold byte_hex.
  rewrite to_N_byte_of_N by (apply N.mod_lt; lia).
  destruct (nibbles_of_low_byte n) as [-> ->]. reflexivity.
Qed.

Lemma padStart_64 (n : N) :
  n < 2 ^ 256 ->
  padStart 64 "0" (toString16 n) = hex_of_bytes (be_bytes 32 n).
Proof.
  intros Hn.
  rewrite padStart_toString16 by (exact Hn || lia).
  rewrite (fixed_hex_bytes 32).
  generalize (hex_of_bytes (be_bytes 32 n)).
  intros t. induction t; cbn; congruence.
Qed.

End HexNumberFacts.

(* ================================================================== *)
(** * Properties of the hash and of the encoder *)
(* ================================================================== *)

Module ViemFacts.

Import Js JsFacts Viem Spec.

Lemma startsWith_0x (s : string) :
  startsWith s "0x" = true -> s = ("0x" ++ slice_from 2 s)%string.
Proof.
  destruct s as [|c1 [|c2 s]]; cbn [startsWith]; try discriminate.
  - now rewrite andb_false_r.
  - intros H. apply andb_prop in H. destruct H as [H1 H2].
    apply andb_prop in H2. destruct H2 as [H2 _].
    apply Ascii.eqb_eq in H1, H2. subst. reflexivity.
Qed.

Lemma length_0x (s : string) :
  startsWith s "0x" = true ->
  String.length s = 2 + String.length (slice_from 2 s).
Proof.
  intros H. rewrite (startsWith_0x _ H) at 1. reflexivity.
Qed.

Lemma byte_string_toHex (bs : Bytes) : byte_string (toHex bs) = Some bs.
Proof. unfold byte_string, toHex. cbn. apply hexToBytes_hex_of_bytes. Qed.

Lemma isHex_toHex (bs : Bytes) : isHex (toHex bs) = true.
Proof. unfold isHex, toHex. cbn. apply every_hex_of_bytes. Qed.

Lemma hexToBytes_toHex (bs : Bytes) : Viem.hexToBytes (toHex bs) = Some bs.
Proof.
  unfold Viem.hexToBytes, toHex. cbn [append slice_from].
  rewrite length_hex_of_bytes.
  replace (Nat.odd (2 * List.length bs)) with false.
  - apply hexToBytes_hex_of_bytes.
  - symmetry. rewrite <- Nat.negb_even, Nat.even_mul. reflexivity.
Qed.

(** viem's [keccak256] on the hex text of a byte string hashes the
    bytes. *)
Lemma keccak256_toHex (bs : Bytes) :
  keccak256 (toHex bs) = toHex (Keccak.keccak_256 bs).
Proof.
  unfold keccak256, toBytes. now rewrite isHex_toHex, hexToBytes_toHex.
Qed.

(** ** The digest has 32 bytes *)

Lemma length_build f : List.length (Keccak.build f) = 25.
Proof. unfold Keccak.build. now rewrite length_map, length_seq. Qed.

Lemma length_round a rc : List.length (Keccak.round a rc) = 25.
Proof.
  unfold Keccak.round, Keccak.chi.
  set (b := Keccak.build _).
  assert (Hb : List.length b = 25) by apply length_build.
  destruct b; [discriminate|]. exact Hb.
Qed.

Lemma length_keccak_f a : List.length (Keccak.keccak_f a) = 25.
Proof.
  unfold Keccak.keccak_f.
  change Keccak.round_constants
    with (removelast Keccak.round_constants ++ [last Keccak.round_constants 0%N]).
  rewrite fold_left_app. cbn [fold_left]. apply length_round.
Qed.

Lemma length_absorb fuel st msg :
  List.length st = 25 -> List.length (Keccak.absorb fuel st msg) = 25.
Proof.
  revert st msg. induction fuel as [|fuel IH]; intros st msg Hst; [exact Hst|].
  cbn [Keccak.absorb]. destruct (_ <? _)%nat.
  - apply length_keccak_f.
  - apply IH. apply length_keccak_f.
Qed.

Lemma length_le_bytes k n : List.length (le_bytes k n) = k.
Proof. revert n. induction k; intros n; simpl; auto. Qed.

Lemma length_keccak_256 (msg : Bytes) :
  List.length (Keccak.keccak_256 msg) = 32.
Proof.
  unfold Keccak.keccak_256.
  set (st := Keccak.absorb _ _ _).
  assert (Hst : List.length st = 25)
    by (apply length_absorb; apply repeat_length).
  destruct st as [|a [|b [|c [|d st]]]]; try discriminate.
  cbn [firstn flat_map]. rewrite !length_app, !length_le_bytes. reflexivity.
Qed.

Lemma length_word n : List.length (word n) = 32.
Proof. unfold word, be_bytes. now rewrite length_rev, length_le_bytes. Qed.

Lemma length_pad_right32 (bs : Bytes) :
  List.length (pad_right32 bs) = 32 * ((List.length bs + 31) / 32).
Proof.
  unfold pad_right32. rewrite length_app, repeat_length.
  set (n := List.length bs).
  pose proof (Nat.div_mod_eq n 32) as Hn.
  pose proof (Nat.mod_upper_bound n 32 ltac:(lia)) as Hr.
  destruct (Nat.eq_dec (n mod 32) 0) as [E|E].
  - rewrite E. replace ((32 - 0) mod 32) with 0 by reflexivity.
    replace ((n + 31) / 32) with (n / 32); [lia|].
    apply Nat.div_unique with (r := 31); lia.
  - rewrite (Nat.mod_small (32 - n mod 32)) by lia.
    replace ((n + 31) / 32) with (S (n / 32)); [lia|].
    apply Nat.div_unique with (r := n mod 32 - 1); lia.
Qed.

(** A valid address denotes twenty bytes. *)
Lemma isAddress_bytes (a : string) (bs : Bytes) :
  isAddress a = true -> byte_string a = Some bs -> List.length bs = 20.
Proof.
  unfold isAddress, byte_string. intros Ha Hb.
  apply andb_prop in Ha. destruct Ha as [Ha _].
  apply andb_prop in Ha. destruct Ha as [Ha _].
  apply andb_prop in Ha. destruct Ha as [H0x Hlen].
  rewrite H0x in Hb. apply hexToBytes_length in Hb.
  apply Nat.eqb_eq in Hlen.
  rewrite (length_0x _ H0x) in Hlen. lia.
Qed.

(** ** Hex text *)

Lemma toLowerCase_app (a b : string) :
  toLowerCase (a ++ b) = (toLowerCase a ++ toLowerCase b)%string.
Proof. induction a as [|c a IH]; cbn; congruence. Qed.

Lemma hexToBytes_app (a b : string) (x y : Bytes) :
  Js.hexToBytes a = Some x -> Js.hexToBytes b = Some y ->
  Js.hexToBytes (a ++ b) = Some (x ++ y).
Proof.
  intros Ha Hb.
  rewrite <- hexToBytes_toLowerCase, toLowerCase_app.
  rewrite (toLowerCase_canonical _ _ Ha), (toLowerCase_canonical _ _ Hb).
  rewrite <- hex_of_bytes_app. apply hexToBytes_hex_of_bytes.
Qed.

Lemma hex_of_zeros (k : nat) :
  hex_of_bytes (repeat x00 k) = repeat_char "0" (2 * k).
Proof.
  induction k as [|k IH]; [reflexivity|].
  replace (2 * S k) with (S (S (2 * k))) by lia.
  cbn [repeat hex_of_bytes repeat_char]. now rewrite IH.
Qed.

Lemma hexToBytes_every (s : string) (bs : Bytes) :
  Js.hexToBytes s = Some bs -> every is_hex_char s = true.
Proof.
  intros H. revert bs H.
  induction s as [|c|c1 c2 s IH] using string_pair_ind; intros bs H.
  - reflexivity.
  - discriminate.
  - cbn [Js.hexToBytes] in H. cbn [every]. unfold is_hex_char at 1 2.
    destruct (asciiToBase16 c1); [|discriminate].
    destruct (asciiToBase16 c2); [|discriminate].
    destruct (Js.hexToBytes s) as [bs'|]; [|discriminate].
    now rewrite (IH bs' eq_refl).
Qed.

Lemma append_empty (s : string) : (s ++ "")%string = s.
Proof. induction s; cbn; congruence. Qed.

Lemma strip0x_0x (s : string) : strip0x ("0x" ++ s) = s.
Proof. reflexivity. Qed.

Lemma byte_string_0x (value : string) (bs : Bytes) :
  byte_string value = Some bs ->
  value = ("0x" ++ slice_from 2 value)%string
  /\ Js.hexToBytes (slice_from 2 value) = Some bs.
Proof.
  unfold byte_string. destruct (startsWith value "0x") eqn:H; [|discriminate].
  intros Hb. split; [now apply startsWith_0x | exact Hb].
Qed.

Lemma byte_string_intro (digits : string) (bs : Bytes) :
  Js.hexToBytes digits = Some bs -> byte_string ("0x" ++ digits) = Some bs.
Proof. intros H. exact H. Qed.

(** A text that denotes its own lower-case bytes is their hex text. *)
Lemma size_0x (digits : string) :
  size ("0x" ++ digits) = (String.length digits + 1) / 2.
Proof.
  unfold size. cbn [startsWith append Ascii.eqb Bool.eqb andb String.length].
  now replace (S (S (String.length digits)) - 2) with (String.length digits)
    by lia.
Qed.

Lemma size_toHex (bs : Bytes) : size (toHex bs) = List.length bs.
Proof.
  unfold toHex. rewrite size_0x, length_hex_of_bytes.
  symmetry. apply Nat.div_unique with (r := 1); lia.
Qed.

(** viem's [keccak256] on hex text hashes the bytes it denotes. *)
Lemma keccak256_byte_string (value : string) (bs : Bytes) :
  byte_string value = Some bs ->
  keccak256 value = toHex (Keccak.keccak_256 bs).
Proof.
  intros H. destruct (byte_string_0x _ _ H) as [H0x Hb].
  unfold keccak256, toBytes, isHex, Viem.hexToBytes.
  rewrite (hexToBytes_every _ _ Hb), (hexToBytes_length _ _ Hb).
  rewrite H0x at 1. cbn [startsWith Ascii.eqb Bool.eqb andb append].
  replace (Nat.odd (2 * List.length bs)) with false.
  - now rewrite Hb.
  - symmetry. rewrite <- Nat.negb_even, Nat.even_mul. reflexivity.
Qed.

(** ** The words of the encoder *)

Lemma numberToHex32_toHex (n : N) : numberToHex32 n = toHex (word n).
Proof. reflexivity. Qed.

Lemma size_numberToHex32 (n : N) : size (numberToHex32 n) = 32.
Proof. rewrite numberToHex32_toHex, size_toHex. apply length_word. Qed.

Lemma concat_cons_toHex (bs : Bytes) (rest : list string) :
  concat (toHex bs :: rest)
  = ("0x" ++ hex_of_bytes bs ++ slice_from 2 (concat rest))%string.
Proof.
  unfold concat, toHex. cbn [map strip0x startsWith append Ascii.eqb
                              Bool.eqb andb slice_from].
  destruct rest as [|r rest]; cbn [map String.concat append].
  - now rewrite append_empty.
  - reflexivity.
Qed.

Lemma concat_cons_0x (digits : string) (rest : list string) :
  concat (("0x" ++ digits)%string :: rest)
  = ("0x" ++ digits ++ slice_from 2 (concat rest))%string.
Proof.
  unfold concat. cbn [map strip0x startsWith append Ascii.eqb
                       Bool.eqb andb slice_from].
  destruct rest as [|r rest]; cbn [map String.concat append].
  - now rewrite append_empty.
  - reflexivity.
Qed.

Lemma concat_nil : concat [] = "0x".
Proof. reflexivity. Qed.

(** The address word: twelve zero bytes, then the twenty bytes of the
    address, in lower-case digits. *)
Lemma encodeAddress_word (value : string) (addr : Bytes) :
  isAddress value = true ->
  byte_string value = Some addr ->
  encodeAddress value = Some (false, toHex (repeat x00 12 ++ addr)).
Proof.
  intros Ha Hb. unfold encodeAddress. rewrite Ha.
  destruct (byte_string_0x _ _ Hb) as [H0x Hd].
  pose proof (isAddress_bytes _ _ Ha Hb) as Hlen.
  rewrite H0x. cbn [toLowerCase append]. unfold padHex.
  change (String (lower_char "0") (String (lower_char "x") ?t))
    with ("0x" ++ t)%string.
  rewrite strip0x_0x, (toLowerCase_canonical _ _ Hd).
  rewrite length_hex_of_bytes, Hlen. cbn [Nat.mul Nat.add Nat.ltb Nat.leb].
  unfold padStart. rewrite length_hex_of_bytes, Hlen.
  cbn [OptionMonad.bind]. unfold toHex.
  rewrite hex_of_bytes_app. reflexivity.
Qed.

Lemma encodeAddress_isAddress (value : string) (p : PreparedParam) :
  encodeAddress value = Some p -> isAddress value = true.
Proof. unfold encodeAddress. now destruct (isAddress value). Qed.

(** The encoding of a byte string: its length, then its digits as they
    are written, then zero digits up to the next multiple of 32
    bytes. *)
Lemma encodeBytes_text (digits : string) (bs : Bytes) :
  Js.hexToBytes digits = Some bs ->
  encodeBytes ("0x" ++ digits)
  = Some (true,
          ("0x" ++ hex_of_bytes (word (N.of_nat (List.length bs)))
                ++ digits
                ++ repeat_char "0"
                     (2 * ((32 - List.length bs mod 32) mod 32)))%string).
Proof.
  intros Hd. pose proof (hexToBytes_length _ _ Hd) as Hlen.
  set (n := List.length bs) in *.
  unfold encodeBytes. rewrite size_0x, Hlen.
  replace ((2 * n + 1) / 2) with n
    by (apply Nat.div_unique with (r := 1); lia).
  pose proof (Nat.div_mod_eq n 32) as Hn.
  pose proof (Nat.mod_upper_bound n 32 ltac:(lia)) as Hr.
  destruct (Nat.eqb_spec (n mod 32) 0) as [E|E].
  - cbn [OptionMonad.bind]. rewrite E.
    change ((32 - 0) mod 32) with 0. cbn [Nat.mul repeat_char].
    rewrite append_empty, numberToHex32_toHex, concat_cons_toHex,
      concat_cons_0x, concat_nil.
    cbn [slice_from append]. now rewrite append_empty.
  - cbn [String.length append]. rewrite Hlen.
    replace (S (S (2 * n)) - 2 + 63) with (2 * n + 63) by lia.
    assert (Hq : (2 * n + 63) / 64 = S (n / 32)).
    { symmetry. apply Nat.div_unique with (r := 2 * (n mod 32) - 1); lia. }
    rewrite Hq. unfold padHex.
    change (strip0x (String "0" (String "x" digits))) with digits.
    rewrite Hlen.
    destruct (Nat.ltb_spec (S (n / 32) * 32 * 2) (2 * n)) as [L|_]; [lia|].
    cbn [OptionMonad.bind]. unfold padEnd. rewrite Hlen.
    replace (S (n / 32) * 32 * 2 - 2 * n)
      with (2 * ((32 - n mod 32) mod 32))
      by (rewrite (Nat.mod_small (32 - n mod 32)) by lia; lia).
    rewrite numberToHex32_toHex, concat_cons_toHex, concat_cons_0x,
      concat_nil.
    cbn [slice_from append]. now rewrite append_empty.
Qed.

Lemma byte_string_padded (digits : string) (bs : Bytes) (lead : Bytes) :
  Js.hexToBytes digits = Some bs ->
  byte_string
    ("0x" ++ hex_of_bytes lead ++ digits
          ++ repeat_char "0" (2 * ((32 - List.length bs mod 32) mod 32)))
  = Some (lead ++ pad_right32 bs).
Proof.
  intros Hd. apply byte_string_intro.
  rewrite hexToBytes_hex_app.
  rewrite (hexToBytes_app _ _ bs
             (repeat x00 ((32 - List.length bs mod 32) mod 32)) Hd).
  - reflexivity.
  - rewrite <- hex_of_zeros. apply hexToBytes_hex_of_bytes.
Qed.

(** On the hex text of a byte string the encoding is the hex text of
    the length word and the padded bytes. *)
Lemma encodeBytes_toHex (bs : Bytes) :
  encodeBytes (toHex bs)
  = Some (true, toHex (word (N.of_nat (List.length bs)) ++ pad_right32 bs)).
Proof.
  unfold toHex at 1.
  rewrite (encodeBytes_text _ _ (hexToBytes_hex_of_bytes bs)).
  unfold toHex, pad_right32.
  now rewrite !hex_of_bytes_app, hex_of_zeros.
Qed.

Lemma concat_toHex (parts : list Bytes) :
  concat (map toHex parts) = toHex (List.concat parts).
Proof.
  induction parts as [|x parts IH]; [reflexivity|].
  cbn [map List.concat]. rewrite concat_cons_toHex, IH.
  unfold toHex. cbn [slice_from append]. now rewrite hex_of_bytes_app.
Qed.

(** The encoding of an (address, bytes) pair, as text. *)
Lemma encode_address_bytes_text
    (proxyAddress initArgs : string) (addr args : Bytes) :
  isAddress proxyAddress = true ->
  byte_string proxyAddress = Some addr ->
  byte_string initArgs = Some args ->
  encodeAbiParameters [t_address; t_bytes] [a_hex proxyAddress; a_hex initArgs]
  = Some ("0x" ++ hex_of_bytes
                    ((repeat x00 12 ++ addr) ++ word 64
                       ++ word (N.of_nat (List.length args)))%list
               ++ slice_from 2 initArgs
               ++ repeat_char "0"
                    (2 * ((32 - List.length args mod 32) mod 32)))%string.
Proof.
  intros Ha Hp Hi.
  destruct (byte_string_0x _ _ Hi) as [H0x Hd].
  pose proof (isAddress_bytes _ _ Ha Hp) as Hlen.
  unfold encodeAbiParameters.
  cbn [prepareParams prepareParam OptionMonad.bind].
  rewrite (encodeAddress_word _ _ Ha Hp). cbn [OptionMonad.bind].
  rewrite H0x at 1. rewrite (encodeBytes_text _ _ Hd).
  cbn [OptionMonad.bind]. unfold encodeParams, static_size.
  cbn [fold_left fst snd heads tails List.app].
  rewrite size_toHex, length_app, repeat_length, Hlen.
  cbn [Nat.add N.of_nat]. change (N.pos (Pos.of_succ_nat 63)) with 64%N.
  rewrite numberToHex32_toHex, !concat_cons_toHex, concat_cons_0x,
    concat_nil.
  cbn [slice_from append].
  rewrite !hex_of_bytes_app, append_empty, !append_assoc. reflexivity.
Qed.

(** The same encoding denotes the bytes of the pair. *)
Lemma encode_address_bytes (proxyAddress initArgs : string) (addr args : Bytes) :
  isAddress proxyAddress = true ->
  byte_string proxyAddress = Some addr ->
  byte_string initArgs = Some args ->
  exists encoded,
    encodeAbiParameters [t_address; t_bytes]
      [a_hex proxyAddress; a_hex initArgs] = Some encoded
    /\ byte_string encoded = Some (abi_address_bytes addr args).
Proof.
  intros Ha Hp Hi. eexists. split.
  - exact (encode_address_bytes_text _ _ _ _ Ha Hp Hi).
  - destruct (byte_string_0x _ _ Hi) as [_ Hd].
    rewrite (byte_string_padded _ _ _ Hd). unfold abi_address_bytes.
    now rewrite <- !app_assoc.
Qed.

(** What the encoder returns starts with the prefix. *)
Lemma encodeAbiParameters_0x params values encoded :
  encodeAbiParameters params values = Some encoded ->
  startsWith encoded "0x" = true.
Proof.
  unfold encodeAbiParameters.
  destruct (prepareParams params values); cbn [OptionMonad.bind];
    [|discriminate].
  intros H; inversion H. reflexivity.
Qed.

End ViemFacts.

(* ================================================================== *)
(** * The initialization hash and the owner encoding *)
(* ================================================================== *)

Module InitializationFacts.

Import Js JsFacts Viem ViemFacts Spec.

(** On a valid proxy address and hex text of whole bytes, both copies
    of [createInitializeHash] hash the ABI encoding of the pair. *)
Lemma createInitializeHash_of_bytes
    (proxyAddress initArgs : string) (addr args : Bytes) :
  isAddress proxyAddress = true ->
  byte_string proxyAddress = Some addr ->
  byte_string initArgs = Some args ->
  WalletUtils.createInitializeHash proxyAddress initArgs
    = Some (toHex (Keccak.keccak_256 (abi_address_bytes addr args)))
  /\ UpgradeScript.createInitializeHash proxyAddress initArgs
    = Some (toHex (Keccak.keccak_256 (abi_address_bytes addr args))).
Proof.
  intros Ha Hp Hi.
  destruct (encode_address_bytes _ _ _ _ Ha Hp Hi) as (encoded & Henc & Hb).
  split.
  - unfold WalletUtils.createInitializeHash. rewrite Henc.
    cbn [OptionMonad.bind]. now rewrite (keccak256_byte_string _ _ Hb).
  - unfold UpgradeScript.createInitializeHash. rewrite Henc.
    cbn [OptionMonad.bind].
    destruct (byte_string_0x _ _ Hb) as [_ Hd]. now rewrite Hd.
Qed.

(** With a proxy that is no valid address neither copy returns. *)
Lemma createInitializeHash_not_address (proxyAddress initArgs : string) :
  isAddress proxyAddress = false ->
  WalletUtils.createInitializeHash proxyAddress initArgs = None
  /\ UpgradeScript.createInitializeHash proxyAddress initArgs = None.
Proof.
  intros Hn.
  unfold WalletUtils.createInitializeHash,
    UpgradeScript.createInitializeHash, encodeAbiParameters.
  cbn [prepareParams prepareParam]. unfold encodeAddress. rewrite Hn.
  split; reflexivity.
Qed.

(** C2. For every valid proxy address and every byte string of
    initialization arguments, [createInitializeHash] — the library's and
    the script's — returns the Keccak-256 digest of the ABI encoding of
    the pair (address, bytes) and of nothing else: the address word, the
    offset word, the length word and the padded argument bytes; no nonce
    enters the encoding. *)
Theorem createInitializeHash_abi_pair
    (proxyAddress initArgs : string) (addr args : Bytes) :
  isAddress proxyAddress = true ->
  byte_string proxyAddress = Some addr ->
  byte_string initArgs = Some args ->
  let preimage := abi_address_bytes addr args in
  WalletUtils.createInitializeHash proxyAddress initArgs
    = Some (toHex (Keccak.keccak_256 preimage))
  /\ UpgradeScript.createInitializeHash proxyAddress initArgs
    = Some (toHex (Keccak.keccak_256 preimage))
  /\ preimage = (repeat x00 12 ++ addr) ++ word 64
                  ++ word (N.of_nat (List.length args)) ++ pad_right32 args
  /\ List.length preimage = 96 + 32 * ((List.length args + 31) / 32).
Proof.
  intros Ha Hp Hi preimage.
  destruct (createInitializeHash_of_bytes _ _ _ _ Ha Hp Hi)
    as (Hlib & Hscript).
  repeat split; [exact Hlib | exact Hscript |].
  - unfold preimage, abi_address_bytes.
    rewrite !length_app, repeat_length, !length_word, length_pad_right32.
    rewrite (isAddress_bytes _ _ Ha Hp). lia.
Qed.

Lemma createInitializeHash_abi_pair_witness :
  WalletUtils.createInitializeHash
    Contracts.EIP7702PROXY_TEMPLATE_ADDRESS "0x1234"
  = Some "0xcd87e191a84890065d5572bf7555f7696c76b99edc7c518275a77180512a0882"
  /\ UpgradeScript.createInitializeHash
       Contracts.EIP7702PROXY_TEMPLATE_ADDRESS "0x1234"
     = Some "0xcd87e191a84890065d5572bf7555f7696c76b99edc7c518275a77180512a0882".
Proof.
  destruct (createInitializeHash_abi_pair
              Contracts.EIP7702PROXY_TEMPLATE_ADDRESS "0x1234"
              [xca; x27; x1a; x94; xdd; x66; x98; x21; x80; x96;
               x0b; x57; x9d; xe6; xb3; x21; x30; x84; xd6; x7a]
              [x12; x34])
    as (Hlib & Hscript & _);
    [vm_compute; reflexivity | vm_compute; reflexivity
     | vm_compute; reflexivity |].
  rewrite Hlib, Hscript. split; vm_compute; reflexivity.
Defined.

Lemma encodeInitializeArgs_same (ownerAddress : string) :
  WalletUtils.encodeInitializeArgs ownerAddress
  = UpgradeScript.encodeInitializeArgs ownerAddress.
Proof.
  unfold WalletUtils.encodeInitializeArgs, UpgradeScript.encodeInitializeArgs.
  cbn [OptionMonad.mapM OptionMonad.bind].
  destruct (encodeAbiParameters [t_address] [a_hex ownerAddress]) as [e|];
    cbn [OptionMonad.bind]; [|reflexivity].
  now destruct (encodeAbiParameters [t_bytes_array] [a_array [e]]).
Qed.

Lemma pad_right32_word (bs : Bytes) :
  List.length bs = 32 -> pad_right32 bs = bs.
Proof.
  intros H. unfold pad_right32. rewrite H. cbn. apply app_nil_r.
Qed.

(** For a valid owner address the encoding succeeds and is the ABI
    encoding of a one-element array holding the encoded address. *)
Lemma encodeInitializeArgs_layout (ownerAddress : string) (addr : Bytes) :
  isAddress ownerAddress = true ->
  byte_string ownerAddress = Some addr ->
  UpgradeScript.encodeInitializeArgs ownerAddress
  = Some (toHex (abi_owner_array addr)).
Proof.
  intros Ha Hp.
  pose proof (isAddress_bytes _ _ Ha Hp) as Hlen.
  set (owner := repeat x00 12 ++ addr).
  assert (Hword : List.length owner = 32)
    by (unfold owner; rewrite length_app, repeat_length, Hlen; reflexivity).
  assert (Hone : encodeAbiParameters [t_address] [a_hex ownerAddress]
                 = Some (toHex owner)).
  { unfold encodeAbiParameters.
    cbn [prepareParams prepareParam OptionMonad.bind].
    rewrite (encodeAddress_word _ _ Ha Hp). cbn [OptionMonad.bind].
    unfold encodeParams, static_size.
    cbn [fold_left fst snd heads tails List.app]. fold owner.
    change [toHex owner] with (map toHex [owner]).
    rewrite concat_toHex. cbn [List.concat]. now rewrite app_nil_r. }
  unfold UpgradeScript.encodeInitializeArgs. rewrite Hone.
  cbn [OptionMonad.bind]. unfold encodeAbiParameters.
  cbn [prepareParams prepareParam OptionMonad.bind].
  unfold encodeArray. cbn [OptionMonad.mapM OptionMonad.bind].
  rewrite encodeBytes_toHex, Hword, (pad_right32_word _ Hword).
  cbn [OptionMonad.bind List.length].
  unfold encodeParams at 2, static_size.
  cbn [fold_left fst snd heads tails List.app Nat.add N.of_nat].
  rewrite !numberToHex32_toHex.
  change [toHex ?a; toHex ?b] with (map toHex [a; b]).
  rewrite concat_toHex.
  change [toHex ?a; toHex ?b] with (map toHex [a; b]).
  rewrite concat_toHex.
  unfold encodeParams, static_size.
  cbn [fold_left fst snd heads tails List.app Nat.add N.of_nat].
  rewrite !numberToHex32_toHex.
  change [toHex ?a; toHex ?b] with (map toHex [a; b]).
  rewrite concat_toHex. cbn [List.concat].
  unfold abi_owner_array. fold owner.
  change (N.pos (Pos.of_succ_nat 31)) with 32%N.
  change (N.pos (Pos.of_succ_nat 0)) with 1%N.
  repeat (rewrite app_nil_r || rewrite <- app_assoc). reflexivity.
Qed.

(** Where the script returns a digest, the library returns the same
    one: the script decodes the encoding as hex digits, and on such
    text the library hashes the bytes it denotes. *)
Lemma createInitializeHash_script_library
    (proxyAddress initArgs digest : string) :
  UpgradeScript.createInitializeHash proxyAddress initArgs = Some digest ->
  WalletUtils.createInitializeHash proxyAddress initArgs = Some digest.
Proof.
  unfold WalletUtils.createInitializeHash, UpgradeScript.createInitializeHash.
  destruct (encodeAbiParameters _ _) as [e|] eqn:E; [|discriminate].
  cbn [OptionMonad.bind].
  destruct (Js.hexToBytes (slice_from 2 e)) as [bs|] eqn:Hd; [|discriminate].
  cbn [OptionMonad.bind]. intros H; inversion H; subst digest. clear H.
  assert (Hb : byte_string e = Some bs).
  { unfold byte_string. now rewrite (encodeAbiParameters_0x _ _ _ E). }
  now rewrite (keccak256_byte_string _ _ Hb).
Qed.

Lemma isAddress_byte_string (a : string) :
  isAddress a = true -> exists addr, byte_string a = Some addr.
Proof.
  intros Ha. unfold isAddress in Ha. unfold byte_string.
  apply andb_prop in Ha. destruct Ha as [Ha _].
  apply andb_prop in Ha. destruct Ha as [Ha Hev].
  apply andb_prop in Ha. destruct Ha as [H0x Hlen]. rewrite H0x.
  apply Nat.eqb_eq in Hlen. rewrite (length_0x _ H0x) in Hlen.
  assert (Hl : String.length (slice_from 2 a) = 40) by lia.
  clear - Hev Hl.
  assert (G : forall s, every is_hex_char s = true ->
                        Nat.even (String.length s) = true ->
                        exists bs, Js.hexToBytes s = Some bs).
  { induction s as [|c|c1 c2 s IH] using string_pair_ind; intros He Hn.
    - eexists; reflexivity.
    - discriminate.
    - cbn [every] in He.
      apply andb_prop in He. destruct He as [E1 He].
      apply andb_prop in He. destruct He as [E2 He].
      destruct (IH He Hn) as [bs Hbs].
      unfold is_hex_char in E1, E2. cbn [Js.hexToBytes].
      destruct (asciiToBase16 c1); [|discriminate].
      destruct (asciiToBase16 c2); [|discriminate].
      rewrite Hbs. eexists; reflexivity. }
  apply G; [assumption | now rewrite Hl].
Qed.

(** C3, corrected. For every owner address the two copies
    of [encodeInitializeArgs] return the same result, which for a valid
    address is the same byte string. The two copies of
    [createInitializeHash] agree wherever the script returns: a digest
    the script returns for a proxy address and arguments is the digest
    the library returns for them; and for a valid proxy address and
    arguments that are hex text of whole bytes, both return one and
    the same 32-byte digest. *)
Theorem helpers_agree_where_the_script_returns
    (ownerAddress proxyAddress initArgs : string) :
  WalletUtils.encodeInitializeArgs ownerAddress
    = UpgradeScript.encodeInitializeArgs ownerAddress
  /\ (isAddress ownerAddress = true ->
      exists encoded,
        WalletUtils.encodeInitializeArgs ownerAddress = Some (toHex encoded)
        /\ UpgradeScript.encodeInitializeArgs ownerAddress
           = Some (toHex encoded))
  /\ (forall digest,
         UpgradeScript.createInitializeHash proxyAddress initArgs
         = Some digest ->
         WalletUtils.createInitializeHash proxyAddress initArgs
         = Some digest)
  /\ (forall args,
         isAddress proxyAddress = true ->
         byte_string initArgs = Some args ->
         exists digest,
           List.length digest = 32
           /\ WalletUtils.createInitializeHash proxyAddress initArgs
              = Some (toHex digest)
           /\ UpgradeScript.createInitializeHash proxyAddress initArgs
              = Some (toHex digest)).
Proof.
  split; [apply encodeInitializeArgs_same|].
  split.
  { intros Ha. destruct (isAddress_byte_string _ Ha) as [addr Hp].
    exists (abi_owner_array addr).
    rewrite encodeInitializeArgs_same.
    split; now apply encodeInitializeArgs_layout. }
  split; [intros digest; apply createInitializeHash_script_library|].
  intros args Ha Hi. destruct (isAddress_byte_string _ Ha) as [addr Hp].
  destruct (createInitializeHash_of_bytes _ _ _ _ Ha Hp Hi)
    as (Hlib & Hscript).
  eexists. split; [apply length_keccak_256|]. split; eassumption.
Qed.

(** C3, counterexample. The two copies of [createInitializeHash] do
    not return the same for every proxy address and every value of the
    arguments: on arguments that are no hex text the library pads them
    as text and hashes the text of the encoding, while the script
    cannot decode the encoding and throws. *)
Lemma helpers_differ_on_text_that_is_no_hex :
  WalletUtils.createInitializeHash
    Contracts.EIP7702PROXY_TEMPLATE_ADDRESS "0xzz"
  = Some "0x22cd93848ea2067b7e47cbb0499b84401e880a3b6549f3cdccc6f758bf470c9f"
  /\ UpgradeScript.createInitializeHash
       Contracts.EIP7702PROXY_TEMPLATE_ADDRESS "0xzz"
     = None
  /\ WalletUtils.createInitializeHash
       Contracts.EIP7702PROXY_TEMPLATE_ADDRESS "0xzz"
     <> UpgradeScript.createInitializeHash
          Contracts.EIP7702PROXY_TEMPLATE_ADDRESS "0xzz".
Proof.
  assert (Hlib : WalletUtils.createInitializeHash
                   Contracts.EIP7702PROXY_TEMPLATE_ADDRESS "0xzz"
                 = Some "0x22cd93848ea2067b7e47cbb0499b84401e880a3b6549f3cdccc6f758bf470c9f")
    by (vm_compute; reflexivity).
  assert (Hscript : UpgradeScript.createInitializeHash
                      Contracts.EIP7702PROXY_TEMPLATE_ADDRESS "0xzz"
                    = None)
    by (vm_compute; reflexivity).
  split; [exact Hlib|]. split; [exact Hscript|].
  rewrite Hlib, Hscript. discriminate.
Qed.

End InitializationFacts.

(* ================================================================== *)
(** * The initialization signature *)
(* ================================================================== *)

Module SigningFacts.

Import Js JsFacts Viem ViemFacts Spec.

(** What the script hands to the signing primitive is the digest
    itself. *)
Lemma script_signs_the_digest
    (secp256k1_sign : Signer) (acct : UpgradeScript.ExtendedAccount)
    (hash : string) (digest key : Bytes) :
  byte_string (UpgradeScript._privateKey acct) = Some key ->
  byte_string hash = Some digest ->
  UpgradeScript.signInitialization secp256k1_sign
    (UpgradeScript.mkWalletClient (Some acct)) hash
  = option_map pack (secp256k1_sign digest key).
Proof.
  unfold byte_string. intros Hk Hh.
  destruct (startsWith (UpgradeScript._privateKey acct) "0x"); [|discriminate].
  destruct (startsWith hash "0x"); [|discriminate].
  unfold UpgradeScript.signInitialization.
  cbn [UpgradeScript.account]. rewrite Hk, Hh. cbn [OptionMonad.bind].
  now destruct (secp256k1_sign digest key).
Qed.

(** What the library hands to the signing primitive is the hash of the
    EIP-191 prefixed text of the message. *)
Lemma library_signs_the_prefixed_hash
    (secp256k1_sign : Signer) (wallet : WalletUtils.WalletClient)
    (message : string) (key : Bytes) :
  Js.hexToBytes
    (slice_from 2 (WalletUtils.privateKey (WalletUtils.account wallet)))
  = Some key ->
  WalletUtils.signInitialization secp256k1_sign wallet message
  = option_map WalletUtils.serializeSignature
      (secp256k1_sign
         (Keccak.keccak_256
            (utf8 (presignMessagePrefix
                     ++ toStringDec (N.of_nat (String.length message)))
               ++ utf8 message))
         key).
Proof.
  intros Hk.
  unfold WalletUtils.signInitialization, WalletUtils.wallet_signMessage,
    WalletUtils.account_signMessage.
  rewrite Hk. cbn [OptionMonad.bind].
  unfold hashMessage, toPrefixedMessage.
  now destruct (secp256k1_sign _ key).
Qed.

Lemma recovery_byte (recovery : N) :
  (recovery < 2)%N ->
  toString16 (recovery + 27) = hex_of_bytes [byte_of_N (recovery + 27)].
Proof.
  intros H. assert (E : recovery = 0%N \/ recovery = 1%N) by lia.
  destruct E as [-> | ->]; reflexivity.
Qed.

Lemma packed_r_s_v (sg : Signature) (v : N) (tail : string) :
  (sig_r sg < 2 ^ 256)%N -> (sig_s sg < 2 ^ 256)%N ->
  tail = hex_of_bytes [byte_of_N v] ->
  ("0x" ++ padStart 64 "0" (toString16 (sig_r sg))
        ++ padStart 64 "0" (toString16 (sig_s sg)) ++ tail)%string
  = toHex (r_s_v sg v)
  /\ List.length (r_s_v sg v) = 65.
Proof.
  intros Hr Hs ->. split.
  - rewrite !HexNumberFacts.padStart_64 by assumption.
    unfold toHex, r_s_v. now rewrite !hex_of_bytes_app.
  - unfold r_s_v, be_bytes.
    rewrite !length_app, !length_rev, !length_le_bytes. reflexivity.
Qed.

(** The script returns the signature packed as r, s, v: 32 + 32 + 1
    bytes, with v = 27 + recovery. *)
Lemma script_signature_layout
    (secp256k1_sign : Signer) (acct : UpgradeScript.ExtendedAccount)
    (hash : string) (digest key : Bytes) (sg : Signature) :
  byte_string (UpgradeScript._privateKey acct) = Some key ->
  byte_string hash = Some digest ->
  secp256k1_sign digest key = Some sg ->
  (sig_r sg < 2 ^ 256)%N -> (sig_s sg < 2 ^ 256)%N ->
  (sig_recovery sg < 2)%N ->
  UpgradeScript.signInitialization secp256k1_sign
    (UpgradeScript.mkWalletClient (Some acct)) hash
  = Some (toHex (r_s_v sg (sig_recovery sg + 27)))
  /\ List.length (r_s_v sg (sig_recovery sg + 27)) = 65.
Proof.
  intros Hk Hh Hsg Hr Hs Hv.
  rewrite (script_signs_the_digest _ _ _ _ _ Hk Hh), Hsg.
  destruct (packed_r_s_v sg (sig_recovery sg + 27) _ Hr Hs
              (recovery_byte _ Hv)) as [Hpack Hlen].
  split; [|exact Hlen]. cbn [option_map]. unfold pack. now rewrite Hpack.
Qed.

(** So does viem's serialization, with v = 27 or 28. *)
Lemma library_signature_layout (sg : Signature) :
  (sig_r sg < 2 ^ 256)%N -> (sig_s sg < 2 ^ 256)%N ->
  WalletUtils.serializeSignature sg
  = toHex (r_s_v sg (if (sig_recovery sg =? 0)%N then 27 else 28)).
Proof.
  intros Hr Hs. unfold WalletUtils.serializeSignature.
  apply packed_r_s_v; try assumption.
  now destruct (sig_recovery sg =? 0)%N.
Qed.

(** C4 (the library's [signInitialization] departs from it). For the
    all-zero 32-byte digest and whatever the signing primitive, the
    library's [signInitialization] has the key sign the Keccak-256 hash
    of the EIP-191 prefix, the length "66" and the text of the digest —
    32 bytes that differ from the digest — while the script's
    [signInitialization] has the key sign the digest itself. *)
Theorem signInitialization_prefixes_the_digest (secp256k1_sign : Signer) :
  let message := toHex zero_digest in
  let key := be_bytes 32 1 in
  WalletUtils.signInitialization secp256k1_sign
    (WalletUtils.mkWalletClient
       (WalletUtils.mkLocalAccount Contracts.ZERO_ADDRESS one_key))
    message
  = option_map WalletUtils.serializeSignature
      (secp256k1_sign prefixed_hash_of_zero_digest key)
  /\ prefixed_hash_of_zero_digest
     = Keccak.keccak_256
         (utf8 (presignMessagePrefix ++ "66") ++ utf8 message)
  /\ prefixed_hash_of_zero_digest <> zero_digest
  /\ UpgradeScript.signInitialization secp256k1_sign
       (UpgradeScript.mkWalletClient
          (Some (UpgradeScript.mkExtendedAccount Contracts.ZERO_ADDRESS one_key)))
       message
     = option_map pack (secp256k1_sign zero_digest key).
Proof.
  intros message key.
  assert (Hhash : prefixed_hash_of_zero_digest
                  = Keccak.keccak_256
                      (utf8 (presignMessagePrefix ++ "66") ++ utf8 message))
    by (vm_compute; reflexivity).
  split; [|split; [exact Hhash|split]].
  - rewrite (library_signs_the_prefixed_hash _ _ _ key)
      by (vm_compute; reflexivity).
    replace (toStringDec (N.of_nat (String.length message))) with "66"
      by (vm_compute; reflexivity).
    now rewrite <- Hhash.
  - discriminate.
  - apply script_signs_the_digest; vm_compute; reflexivity.
Qed.

End SigningFacts.

(* ================================================================== *)
(** * The recovery dialog *)
(* ================================================================== *)

Module RecoveryModalFacts.

Import RecoveryModal.

(** C5. The dialog classifies exactly the issue vector
    (delegate incorrect, implementation correct, ownership disrupted)
    as unrecoverable; in that state it shows the unrecoverable notice and
    a single "Close" button, so that nothing rendered starts a recovery;
    in every other state the open dialog shows the inconsistency notice
    and offers the "Restore Account" button. *)
Theorem unrecoverable_is_terminal
    (delegateIssue implementationIssue ownershipDisrupted
       isOpen isRecovering : bool) :
  (isUnrecoverable delegateIssue implementationIssue ownershipDisrupted = true
   <-> (delegateIssue, implementationIssue, ownershipDisrupted)
       = (true, false, true))
  /\ offers_recovery (RecoveryModal isOpen true false true isRecovering) = false
  /\ RecoveryModal true true false true isRecovering
     = Some {| notice := UnrecoverableNotice;
               buttons := [ {| label := "Close"; onClick := onClose;
                               disabled := false |} ] |}
  /\ offers_recovery
       (RecoveryModal true delegateIssue implementationIssue
          ownershipDisrupted isRecovering)
     = negb (isUnrecoverable delegateIssue implementationIssue
               ownershipDisrupted)
  /\ (option_map notice
        (RecoveryModal true delegateIssue implementationIssue
           ownershipDisrupted isRecovering)
      = Some UnrecoverableNotice
      <-> (delegateIssue, implementationIssue, ownershipDisrupted)
          = (true, false, true)).
Proof.
  repeat split.
  - destruct delegateIssue, implementationIssue, ownershipDisrupted;
      cbn; intros H; congruence.
  - intros H; inversion H; reflexivity.
  - now destruct isOpen.
  - destruct delegateIssue, implementationIssue, ownershipDisrupted;
      reflexivity.
  - destruct delegateIssue, implementationIssue, ownershipDisrupted;
      cbn; intros H; congruence.
  - intros H; inversion H; reflexivity.
Qed.

End RecoveryModalFacts.

(* ================================================================== *)
(** * The relay endpoint *)
(* ================================================================== *)

Module RelayFacts.

Import Async Relay Spec Observed.

Lemma prop_total (k1 k2 : string) (v x : JsValue) :
  JsVal.prop k1 v = Some x -> exists y, JsVal.prop k2 v = Some y.
Proof. destruct v; cbn; intros H; try discriminate; eauto. Qed.

Section Route.

Variable NEW_IMPLEMENTATION_ADDRESS : string.
Variable BigInt : JsValue -> option Z.
Variable encodeFunctionData : FunctionCall -> option string.
Variable message_of : Failure -> string.

(** A request outside the three operations submits nothing, whether
    its body can be read or not. *)
Lemma unknown_operation_submits_nothing
    (request_json : Outcome JsValue) (world : Oracle Ext) :
  (forall operation, operation_of request_json = Some operation ->
                     known operation = false) ->
  fst (Relay.serve NEW_IMPLEMENTATION_ADDRESS BigInt encodeFunctionData
         message_of request_json world) = [].
Proof.
  intros Hop. unfold Relay.serve, POST, POST_try.
  destruct request_json as [body|m]; [|reflexivity].
  cbn [of_outcome bind]. unfold read.
  destruct (JsVal.prop "operation" body) as [op|] eqn:E; [|reflexivity].
  destruct (prop_total _ "targetAddress" _ _ E) as [t Ht]. rewrite Ht.
  specialize (Hop op E). unfold known in Hop.
  apply orb_false_elim in Hop. destruct Hop as [Hop Hex].
  apply orb_false_elim in Hop. destruct Hop as [Hf Hu].
  cbn [lift bind]. rewrite Hf, Hu, Hex.
  now destruct (JsVal.toString op).
Qed.

(** C10, corrected. A POST whose [operation] field is none
    of "fund", "upgradeEOA" and "execute" submits no transaction:
    neither [sendTransaction] nor [writeContract] is called. When the
    operation can be converted to a string, the answer has status 400
    and an error that names the operation; when it cannot, the
    template literal throws and the answer has status 500 and carries
    the message of that error. *)
Theorem unknown_operation_submits_no_transaction
    (body operation : JsValue) (world : Oracle Ext) :
  JsVal.prop "operation" body = Some operation ->
  known operation = false ->
  Relay.serve NEW_IMPLEMENTATION_ADDRESS BigInt encodeFunctionData
    message_of (Returned body) world
  = ([],
     Done match JsVal.toString operation with
          | Some shown =>
              {| body := JObject
                   [("error", JString ("Unknown operation: " ++ shown))];
                 status := 400 |}
          | None =>
              {| body := JObject
                   [("error",
                     JString (relay_error_text
                                (message_of (no_string operation))))];
                 status := 500 |}
          end).
Proof.
  intros E Hop. unfold Relay.serve, POST, POST_try.
  cbn [of_outcome bind]. unfold read. rewrite E.
  destruct (prop_total _ "targetAddress" _ _ E) as [t Ht]. rewrite Ht.
  unfold known in Hop.
  apply orb_false_elim in Hop. destruct Hop as [Hop Hex].
  apply orb_false_elim in Hop. destruct Hop as [Hf Hu].
  cbn [lift bind]. rewrite Hf, Hu, Hex.
  now destruct (JsVal.toString operation).
Qed.

End Route.

(** The request the recovery component sends for the delegate repair is
    such a request, and its operation is a string. *)
Lemma unknown_operation_submits_no_transaction_witness :
  Relay.serve "0x" (fun _ => None) (fun _ => None) (fun _ => "")
    (Returned (JObject [("operation", JString "resetDelegate");
                        ("targetAddress", JString Contracts.ZERO_ADDRESS)]))
    (fun _ _ _ => Rejected "offline")
  = ([],
     Done {| body := JObject
               [("error", JString "Unknown operation: resetDelegate")];
             status := 400 |}).
Proof.
  exact (unknown_operation_submits_no_transaction
           "0x" (fun _ => None) (fun _ => None) (fun _ => "")
           (JObject [("operation", JString "resetDelegate");
                     ("targetAddress", JString Contracts.ZERO_ADDRESS)])
           (JString "resetDelegate")
           (fun _ _ _ => Rejected "offline") eq_refl eq_refl).
Defined.

(** C10, counterexample. The status is not 400 for every operation
    outside the three: an operation that is an object with a property
    [toString] is none of the three operations, the template literal
    cannot convert it, and the answer has status 500. *)
Lemma unconvertible_operation_is_answered_500 :
  let operation := JObject [("toString", JNumber "1")] in
  let served :=
    Relay.serve "0x" (fun _ => None) (fun _ => None)
      (fun _ => "Cannot convert object to primitive value")
      (Returned (JObject [("operation", operation);
                          ("targetAddress",
                           JString Contracts.ZERO_ADDRESS)]))
      (fun _ _ _ => Rejected "offline") in
  known operation = false
  /\ served
     = ([],
        Done {| body := JObject
                  [("error",
                    JString "Cannot convert object to primitive value")];
                status := 500 |})
  /\ forall response,
       snd served = Done response -> status response <> 400.
Proof.
  split; [reflexivity|]. split; [reflexivity|].
  intros response H. inversion H. discriminate.
Qed.

End RelayFacts.

(* ================================================================== *)
(** * State inspection *)
(* ================================================================== *)

Module InspectionFacts.

Import Js JsFacts Viem ViemFacts AccountState Spec.


Lemma byte_string_inv (s : string) (bs : Bytes) :
  byte_string s = Some bs ->
  s = ("0x" ++ slice_from 2 s)%string /\ Js.hexToBytes (slice_from 2 s) = Some bs.
Proof.
  unfold byte_string. destruct (startsWith s "0x") eqn:E; [|discriminate].
  intros H. split; [now apply startsWith_0x | exact H].
Qed.


(** Hex values agree up to case exactly when they denote the same
    bytes. *)
Lemma lower_eqb_bytes (s1 s2 : string) (b1 b2 : Bytes) :
  byte_string s1 = Some b1 -> byte_string s2 = Some b2 ->
  (String.eqb (toLowerCase s1) (toLowerCase s2) = true <-> b1 = b2).
Proof.
  intros H1 H2.
  apply byte_string_inv in H1, H2.
  destruct H1 as [E1 H1], H2 as [E2 H2].
  rewrite String.eqb_eq, E1, E2. cbn [append toLowerCase].
  rewrite <- (toLowerCase_eq_iff _ _ _ _ H1 H2).
  split; [intros H; now inversion H | now intros ->].
Qed.


Section Component.

Variable NEW_IMPLEMENTATION_ADDRESS : string.
Variable expectedDelegate : bool -> string.

Variables implementation delegate : Bytes.
Hypothesis implementation_bytes :
  byte_string NEW_IMPLEMENTATION_ADDRESS = Some implementation.
Hypothesis delegate_bytes :
  byte_string (expectedDelegate false) = Some delegate.






End Component.


End InspectionFacts.

(* ================================================================== *)
(** * Order of events: the checks are sound *)
(* ================================================================== *)

Module OrderFacts.

Import Async PasskeyVerification RecoverySpec.

Lemma split_cons {A} (x : A) (tr pre post : list A) (e : A) :
  x :: tr = pre ++ e :: post ->
  (pre = [] /\ x = e /\ tr = post)
  \/ (exists pre', pre = x :: pre' /\ tr = pre' ++ e :: post).
Proof.
  destruct pre as [|y pre']; cbn; intros H; inversion H; subst; eauto.
Qed.



(** ** Delegate repair first *)











(** ** Inspection before completion *)









(** ** Locating an event *)

Lemma locate_unique (P : Event -> bool) (tr : list Event) :
  forall pre e post,
    tr = pre ++ e :: post -> P e = true ->
    List.length (filter P tr) <= 1 ->
    locate P tr = Some (pre, e).
Proof.
  induction tr as [|x tr IH]; intros pre e post Hsplit He Hcount.
  - destruct pre; discriminate.
  - apply split_cons in Hsplit.
    destruct Hsplit as [(-> & -> & ->) | (pre' & -> & ->)].
    + cbn [locate]. now rewrite He.
    + cbn [locate filter] in *.
      destruct (P x) eqn:Hx.
      * exfalso. rewrite filter_app in Hcount. cbn [filter] in Hcount.
        rewrite He in Hcount. cbn [List.length] in Hcount.
        rewrite length_app in Hcount. cbn [List.length] in Hcount. lia.
      * now rewrite (IH pre' e post eq_refl He Hcount).
Qed.

(** ** The step log does not depend on what the state held before it was
       cleared *)

Lemma apply_op_steps (op : Op) (st1 st2 : State) :
  steps st1 = steps st2 -> steps (apply_op op st1) = steps (apply_op op st2).
Proof. intros H. destruct op; cbn; congruence. Qed.

Lemma final_steps {A} (p : P A) (world : Oracle Ext) :
  forall tick st1 st2,
    steps st1 = steps st2 ->
    steps (final apply_op p world tick st1)
    = steps (final apply_op p world tick st2).
Proof.
  induction p as [a|m|op k IH|R c k IH]; intros tick st1 st2 H; cbn [final];
    auto using apply_op_steps.
Qed.

End OrderFacts.

(* ================================================================== *)
(** * The set-implementation commitment *)
(* ================================================================== *)

Module CommitmentFacts.

Import Js Viem TypeDescriptor.

Lemma descriptor_fields :
  parse Contracts.IMPLEMENTATION_SET_TYPEHASH
  = Some ("EIP7702ProxyImplementationSet", seven_fields).
Proof. vm_compute. reflexivity. Qed.

Lemma encoded_fields (c : SetImplementationCommitment) :
  OptionMonad.mapM (encode_field c) seven_fields
  = Some [(t_uint256, a_bigint (chainId c));
          (t_address, a_hex (proxy c));
          (t_uint256, a_bigint (nonce c));
          (t_address, a_hex (currentImplementation c));
          (t_address, a_hex (newImplementation c));
          (t_bytes32, a_hex (keccak256 (callData c)));
          (t_address, a_hex (validator c))].
Proof. reflexivity. Qed.

(** The commitment hash is the one the descriptor prescribes for the
    seven fields. *)
Lemma createSetImplementationHash_typed
    (proxyAddr newImplementation callData : string) (nonce : Z)
    (currentImplementation : string) (allowCrossChainReplay : bool)
    (chainId : Z) :
  WalletUtils.createSetImplementationHash proxyAddr newImplementation
    callData nonce currentImplementation allowCrossChainReplay chainId
  = commitment_hash Contracts.IMPLEMENTATION_SET_TYPEHASH
      {| TypeDescriptor.chainId :=
           if allowCrossChainReplay then 0%Z else chainId;
         proxy := proxyAddr;
         TypeDescriptor.nonce := nonce;
         TypeDescriptor.currentImplementation := currentImplementation;
         TypeDescriptor.newImplementation := newImplementation;
         TypeDescriptor.callData := callData;
         validator := Contracts.VALIDATOR_ADDRESS |}.
Proof.
  unfold commitment_hash. rewrite descriptor_fields.
  cbn [OptionMonad.bind snd]. rewrite encoded_fields.
  cbn [OptionMonad.bind map fst snd].
  unfold WalletUtils.createSetImplementationHash.
  now destruct allowCrossChainReplay.
Qed.

End CommitmentFacts.

(* ================================================================== *)
(** * The recovery sequence *)
(* ================================================================== *)

Module RecoveryFacts.

Import Async PasskeyVerification RecoverySpec OrderFacts.

#[local] Arguments WalletUtils.createSetImplementationHash : simpl never.
#[local] Arguments slot_address : simpl never.

(** One step of a run: compute, or split on the next answer of the
    world or on the next test. *)
Ltac scrutinee x :=
  lazymatch x with
  | context [match ?y with _ => _ end] => scrutinee y
  | _ => x
  end.

Ltac step world :=
  first
    [ progress cbn
    | match goal with
      | |- context [world ?R ?n ?c] => destruct (world R n c) eqn:?
      | |- context [match ?x with _ => _ end] =>
          let y := scrutinee x in destruct y eqn:?
      end ].

Ltac paths world :=
  unfold events, log, handleRecover, handleRecover_try, repair_delegate,
    repair_implementation, checkState, waitForTransaction, json_field,
    of_outcome, lift, await, act, JsVal.truthy_string;
  repeat step world.

Section Recovery.

Variables smartWalletAddress passkey : string.
Variable useAnvil : bool.
Variable odysseyTestnet_id : Z.
Variable NEW_IMPLEMENTATION_ADDRESS : string.

Let recover (isDelegateDisrupted isImplementationDisrupted : bool) : P unit :=
  handleRecover smartWalletAddress passkey useAnvil isDelegateDisrupted
    isImplementationDisrupted odysseyTestnet_id NEW_IMPLEMENTATION_ADDRESS.

Let chainId : Z :=
  if useAnvil then WalletUtils.localAnvil_id else odysseyTestnet_id.

(** ** Order *)



(** ** The commitment *)

Lemma sign_context (d i : bool) (world : Oracle Ext) :
  let tr := events (recover d i) world in
  List.length (filter builds_commitment tr) <= 1
  /\ forall pre e,
       locate builds_commitment tr = Some (pre, e) ->
       exists slotData nonce nextOwnerIndex owner account raw answer,
         e = ev_signMessage account raw answer
         /\ pre = firstn (List.length pre - 4) pre ++
               [ev_getStorageAt smartWalletAddress ERC1967_IMPLEMENTATION_SLOT
                  (Returned (Some slotData));
                ev_readContract NONCE_TRACKER_ADDRESS "nonces"
                  [smartWalletAddress] (Returned nonce);
                ev_readContract smartWalletAddress "nextOwnerIndex" []
                  (Returned nextOwnerIndex);
                ev_toCoinbaseSmartAccount owner smartWalletAddress
                  (Js.Number_of_BigInt (nextOwnerIndex - 1)) (Returned account)]
         /\ WalletUtils.createSetImplementationHash
              smartWalletAddress NEW_IMPLEMENTATION_ADDRESS "0x" nonce
              (slot_address slotData) false chainId
            = Some raw.
Proof.
  unfold recover, chainId. destruct d, i; paths world.
  all: split; [lia|]; intros pre e Hloc; inversion Hloc; subst.
  all: do 7 eexists; split; [reflexivity|]; split; [reflexivity|];
    eassumption.
Qed.

Lemma signed_commitment (d i : bool) (world : Oracle Ext)
    (pre post : list Event) (account : SmartAccount) (raw : string)
    (answer : Outcome string) :
  events (recover d i) world = pre ++ ev_signMessage account raw answer :: post ->
  exists before slotData nonce nextOwnerIndex owner,
    pre = before ++
          [ev_getStorageAt smartWalletAddress ERC1967_IMPLEMENTATION_SLOT
             (Returned (Some slotData));
           ev_readContract NONCE_TRACKER_ADDRESS "nonces"
             [smartWalletAddress] (Returned nonce);
           ev_readContract smartWalletAddress "nextOwnerIndex" []
             (Returned nextOwnerIndex);
           ev_toCoinbaseSmartAccount owner smartWalletAddress
             (Js.Number_of_BigInt (nextOwnerIndex - 1)) (Returned account)]
    /\ WalletUtils.createSetImplementationHash
         smartWalletAddress NEW_IMPLEMENTATION_ADDRESS "0x" nonce
         (slot_address slotData) false chainId
       = Some raw.
Proof.
  intros Hsplit.
  destruct (sign_context d i world) as (Hcount & Hctx).
  pose proof (locate_unique builds_commitment _ _ _ _ Hsplit eq_refl Hcount)
    as Hloc.
  destruct (Hctx _ _ Hloc)
    as (slotData & nonce & noi & owner & account' & raw' & answer'
        & He & Hpre & Hhash).
  inversion He; subst account' raw' answer'.
  exists (firstn (List.length pre - 4) pre), slotData, nonce, noi, owner.
  split; assumption.
Qed.

(** C7. In every recovery attempt, whenever the set-implementation
    commitment is handed to the signer, the events just before it are
    the read of the implementation-pointer slot of the account, the
    read of the nonce tracker for the account, the read of the owner
    index and the construction of the signing account with the index
    before it, converted as [Number] converts a big integer — all four
    answered within this attempt — and the commitment is built with
    the nonce the tracker answered and with the low 20 bytes of the
    slot value the ledger answered. *)
Theorem commitment_built_from_fresh_reads
    (isDelegateDisrupted isImplementationDisrupted : bool)
    (world : Oracle Ext) :
  commitment_is_fresh smartWalletAddress NEW_IMPLEMENTATION_ADDRESS chainId
    (events (recover isDelegateDisrupted isImplementationDisrupted) world).
Proof.
  intros pre account raw answer post Hsplit.
  exact (signed_commitment _ _ _ _ _ _ _ _ Hsplit).
Qed.

(** C1. The type descriptor names exactly the seven fields chainId,
    proxy, nonce, currentImplementation, newImplementation, callData
    and validator, in this order; the commitment hash is the hash the
    descriptor prescribes — the hash of the descriptor text followed
    by these seven fields; and every commitment signed during an
    implementation repair is this hash, with the account as proxy, the
    expected implementation, empty call data and the validator
    constant. *)
Theorem commitment_binds_seven_fields
    (isDelegateDisrupted isImplementationDisrupted : bool)
    (world : Oracle Ext) :
  TypeDescriptor.parse Contracts.IMPLEMENTATION_SET_TYPEHASH
  = Some ("EIP7702ProxyImplementationSet",
          [("uint256", "chainId"); ("address", "proxy");
           ("uint256", "nonce"); ("address", "currentImplementation");
           ("address", "newImplementation"); ("bytes", "callData");
           ("address", "validator")])
  /\ (forall proxyAddr newImplementation callData nonce
             currentImplementation chain,
        WalletUtils.createSetImplementationHash proxyAddr newImplementation
          callData nonce currentImplementation false chain
        = TypeDescriptor.commitment_hash Contracts.IMPLEMENTATION_SET_TYPEHASH
            {| TypeDescriptor.chainId := chain;
               TypeDescriptor.proxy := proxyAddr;
               TypeDescriptor.nonce := nonce;
               TypeDescriptor.currentImplementation := currentImplementation;
               TypeDescriptor.newImplementation := newImplementation;
               TypeDescriptor.callData := callData;
               TypeDescriptor.validator := Contracts.VALIDATOR_ADDRESS |})
  /\ commitment_is_typed smartWalletAddress NEW_IMPLEMENTATION_ADDRESS chainId
       (events (recover isDelegateDisrupted isImplementationDisrupted) world).
Proof.
  split; [exact CommitmentFacts.descriptor_fields|].
  split.
  - intros. apply CommitmentFacts.createSetImplementationHash_typed.
  - intros pre account raw answer post Hsplit.
    destruct (signed_commitment _ _ _ _ _ _ _ _ Hsplit)
      as (before & slotData & nonce & noi & owner & _ & Hhash).
    exists nonce, (slot_address slotData).
    rewrite <- Hhash. symmetry.
    exact (CommitmentFacts.createSetImplementationHash_typed
             smartWalletAddress NEW_IMPLEMENTATION_ADDRESS "0x" nonce
             (slot_address slotData) false chainId).
Qed.

(** ** The step log *)

Ltac close_log :=
  match goal with
  | |- recovery_log _ _ ?tr ?lg /\ _ =>
      split;
      [ exists (removelast (tl lg)), (last lg (new_step "" false));
        split; [reflexivity|];
        split; [repeat constructor|];
        first
          [ left; split; [reflexivity|];
            split; [reflexivity | repeat constructor]
          | right; eexists _, (removelast (removelast tr));
            split; [reflexivity|];
            split; [cbn; lia|];
            split; reflexivity ]
      | split; cbn; lia ]
  end.

Lemma recovery_log_shape (d i : bool) (world : Oracle Ext) (st : State) :
  recovery_log d i (events (recover d i) world) (log (recover d i) world st)
  /\ List.length (filter submits_delegate (events (recover d i) world)) <= 1
  /\ List.length (filter submits_implementation (events (recover d i) world))
     <= 1.
Proof.
  unfold recover. destruct d, i; paths world.
  all: close_log.
Qed.

Lemma recovery_clears_log (d i : bool) (world : Oracle Ext) (st st' : State) :
  (exists rest,
      events (recover d i) world
      = ev_op (setVerifying true) :: ev_op setSteps_empty :: rest)
  /\ log (recover d i) world st = log (recover d i) world st'.
Proof.
  unfold recover, events, log, handleRecover, handleRecover_try, act.
  cbn [trace final bind try_catch finally]. split.
  - eexists. reflexivity.
  - apply final_steps. reflexivity.
Qed.

Lemma verification_clears_log
    (EntryPointAddress RELAYER_ADDRESS : string)
    (serializeBigInts : UserOperation -> JsValue)
    (world : Oracle Ext) (st st' : State) :
  let verify :=
    handleVerify smartWalletAddress passkey useAnvil false false
      EntryPointAddress RELAYER_ADDRESS serializeBigInts in
  (exists rest,
      events verify world
      = ev_op (setVerifying true) :: ev_op setSteps_empty :: rest)
  /\ log verify world st = log verify world st'.
Proof.
  unfold events, log, handleVerify, handleVerify_try, act.
  cbn [orb trace final bind try_catch finally]. split.
  - eexists. reflexivity.
  - apply final_steps. reflexivity.
Qed.

(** The step log of the two handlers. Every recovery attempt and every
    verification attempt that proceeds starts by clearing the step
    log, so that the log it leaves does not depend on the log it
    found. A recovery leaves the opening entry, one entry for each
    repair step it started and a closing entry: on success every
    repair step has exactly one entry, marked complete; on a failure
    the error is recorded in a separate closing entry "Recovery
    failed", the entry of the step that failed stays incomplete and
    carries no error, and the run ends there: no later step is
    started and no submission is repeated. *)
Theorem step_log_discipline
    (isDelegateDisrupted isImplementationDisrupted : bool)
    (EntryPointAddress RELAYER_ADDRESS : string)
    (serializeBigInts : UserOperation -> JsValue)
    (world : Oracle Ext) (st st' : State) :
  let recovery := recover isDelegateDisrupted isImplementationDisrupted in
  let verify :=
    handleVerify smartWalletAddress passkey useAnvil false false
      EntryPointAddress RELAYER_ADDRESS serializeBigInts in
  (exists rest,
      events recovery world
      = ev_op (setVerifying true) :: ev_op setSteps_empty :: rest)
  /\ log recovery world st = log recovery world st'
  /\ (exists rest,
         events verify world
         = ev_op (setVerifying true) :: ev_op setSteps_empty :: rest)
  /\ log verify world st = log verify world st'
  /\ recovery_log isDelegateDisrupted isImplementationDisrupted
       (events recovery world) (log recovery world st)
  /\ List.length (filter submits_delegate (events recovery world)) <= 1
  /\ List.length (filter submits_implementation (events recovery world)) <= 1.
Proof.
  intros recovery verify.
  destruct (recovery_clears_log isDelegateDisrupted
              isImplementationDisrupted world st st') as (Hc1 & Hc2).
  destruct (verification_clears_log EntryPointAddress RELAYER_ADDRESS
              serializeBigInts world st st') as (Hv1 & Hv2).
  destruct (recovery_log_shape isDelegateDisrupted
              isImplementationDisrupted world st) as (Hl & Hd & Hi).
  repeat split; assumption.
Qed.

End Recovery.


Lemma commitment_built_from_fresh_reads_witness :
  exists before slotData nonce nextOwnerIndex owner,
    firstn 17
      (events
         (handleRecover Contracts.ZERO_ADDRESS "passkey" true true true 1
            Contracts.CBSW_IMPLEMENTATION_ADDRESS)
         obliging_world)
    = before ++
      [ev_getStorageAt Contracts.ZERO_ADDRESS ERC1967_IMPLEMENTATION_SLOT
         (Returned (Some slotData));
       ev_readContract NONCE_TRACKER_ADDRESS "nonces" [Contracts.ZERO_ADDRESS]
         (Returned nonce);
       ev_readContract Contracts.ZERO_ADDRESS "nextOwnerIndex" []
         (Returned nextOwnerIndex);
       ev_toCoinbaseSmartAccount owner Contracts.ZERO_ADDRESS
         (Js.Number_of_BigInt (nextOwnerIndex - 1))
         (Returned (mkSmartAccount Contracts.ZERO_ADDRESS (Js.integer 6)))]
    /\ WalletUtils.createSetImplementationHash Contracts.ZERO_ADDRESS
         Contracts.CBSW_IMPLEMENTATION_ADDRESS "0x" nonce
         (slot_address slotData) false 31337
       = Some "0x84baaf4de1fb76ee68e5a50ff1b7580d326e415fd8e1912884ebe342492e5abc".
Proof.
  apply (commitment_built_from_fresh_reads
           Contracts.ZERO_ADDRESS "passkey" true 1
           Contracts.CBSW_IMPLEMENTATION_ADDRESS true true obliging_world)
    with (answer := Returned "0x51")
         (post := skipn 18
                    (events
                       (handleRecover Contracts.ZERO_ADDRESS "passkey" true
                          true true 1 Contracts.CBSW_IMPLEMENTATION_ADDRESS)
                       obliging_world)).
  vm_compute. reflexivity.
Defined.

Lemma commitment_binds_seven_fields_witness :
  exists nonce currentImplementation,
    TypeDescriptor.commitment_hash Contracts.IMPLEMENTATION_SET_TYPEHASH
      {| TypeDescriptor.chainId := 31337;
         TypeDescriptor.proxy := Contracts.ZERO_ADDRESS;
         TypeDescriptor.nonce := nonce;
         TypeDescriptor.currentImplementation := currentImplementation;
         TypeDescriptor.newImplementation :=
           Contracts.CBSW_IMPLEMENTATION_ADDRESS;
         TypeDescriptor.callData := "0x";
         TypeDescriptor.validator := Contracts.VALIDATOR_ADDRESS |}
    = Some "0x84baaf4de1fb76ee68e5a50ff1b7580d326e415fd8e1912884ebe342492e5abc".
Proof.
  apply (proj2 (proj2 (commitment_binds_seven_fields
                         Contracts.ZERO_ADDRESS "passkey" true 1
                         Contracts.CBSW_IMPLEMENTATION_ADDRESS true true
                         obliging_world)))
    with (pre := firstn 17
                   (events
                      (handleRecover Contracts.ZERO_ADDRESS "passkey" true
                         true true 1 Contracts.CBSW_IMPLEMENTATION_ADDRESS)
                      obliging_world))
         (account := mkSmartAccount Contracts.ZERO_ADDRESS (Js.integer 6))
         (answer := Returned "0x51")
         (post := skipn 18
                    (events
                       (handleRecover Contracts.ZERO_ADDRESS "passkey" true
                          true true 1 Contracts.CBSW_IMPLEMENTATION_ADDRESS)
                       obliging_world)).
  vm_compute. reflexivity.
Defined.

(** C9, code bug. A failure during a recovery step is not recorded on
    that step. When the relay refuses the delegate repair, the catch
    of [handleRecover] appends a further entry "Recovery failed" that
    carries the error, and the entry "Resetting delegate to
    relayer..." stays as it was appended: incomplete and without
    error, so no failure is recorded on the step. [handleVerify], in
    the same world, records the refusal of its deposit request on the
    entry of the deposit step itself, which it marks complete, and
    appends nothing. *)
Theorem recovery_failure_is_left_off_its_step :
  let mounted :=
    {| verifying := false; steps := []; isVerified := false;
       showRecoveryModal := true |} in
  let recovery :=
    handleRecover Contracts.ZERO_ADDRESS "passkey" true true false 1
      Contracts.CBSW_IMPLEMENTATION_ADDRESS in
  let verification :=
    handleVerify Contracts.ZERO_ADDRESS "passkey" true false false
      Contracts.ENTRYPOINT_ADDRESS Contracts.ZERO_ADDRESS (fun _ => JNull) in
  let left_log := log recovery refusing_endpoints mounted in
  (left_log
   = [new_step "Starting account recovery..." false;
      new_step "Resetting delegate to relayer..." false;
      failure_entry "Failed to reset delegate"]
   /\ ~ recorded_on_step left_log 1)
  /\ log verification refusing_endpoints mounted
     = [new_step "Smart account balance verified" true;
        {| status := "Pre-funding smart account gas in EntryPoint...";
           isComplete := true;
           txHash := JUndefined;
           userOpHash := JUndefined;
           error := Some "refused" |}].
Proof.
  intros mounted recovery verification left_log.
  assert (Hlog : left_log
                 = [new_step "Starting account recovery..." false;
                    new_step "Resetting delegate to relayer..." false;
                    failure_entry "Failed to reset delegate"])
    by (vm_compute; reflexivity).
  split; [split; [exact Hlog|]|vm_compute; reflexivity].
  rewrite Hlog. intros (step & Hstep & Herr).
  inversion Hstep; subst step. now apply Herr.
Qed.

(** A recovery in a world where every call succeeds: both repairs, in
    order, and the log they leave. *)
Example recovery_in_an_obliging_world :
  let recovery :=
    handleRecover Contracts.ZERO_ADDRESS "passkey" true true true 1
      Contracts.CBSW_IMPLEMENTATION_ADDRESS in
  map status
    (log recovery obliging_world
       {| verifying := false; steps := []; isVerified := false;
          showRecoveryModal := true |})
  = ["Starting account recovery..."; "Successfully reset delegate";
     "Successfully reset implementation"; "✓ Account recovered successfully"]
  /\ map relay_operation (filter submits (events recovery obliging_world))
     = [JString "resetDelegate"; JString "resetImplementation"].
Proof. vm_compute. split; reflexivity. Qed.

End RecoveryFacts.

(* ================================================================== *)
(** * Wallet creation *)
(* ================================================================== *)

Module WalletCreationFacts.

Import Js Viem JsFacts HexNumberFacts ViemFacts Spec.

(** [b.toString(16).padStart(2, "0")] is the two hex digits of [b]. *)
Lemma byte_text (b : byte) :
  padStart 2 "0" (toString16 (Byte.to_N b)) = byte_hex b.
Proof.
  pose proof (Byte.to_N_bounded b) as Hb.
  rewrite (padStart_toString16 2) by (cbn; lia).
  rewrite (fixed_hex_bytes 1). cbn [be_bytes le_bytes rev List.app].
  rewrite N.mod_small by lia. rewrite byte_of_N_to_N.
  cbn [hex_of_bytes]. now rewrite !append_empty.
Qed.

Lemma joined_byte_texts (bs : Bytes) :
  String.concat ""
    (map (fun b => padStart 2 "0" (toString16 (Byte.to_N b))) bs)
  = hex_of_bytes bs.
Proof.
  induction bs as [|b bs IH]; [reflexivity|].
  cbn [map hex_of_bytes]. rewrite <- IH, byte_text.
  destruct bs as [|b' bs]; [now rewrite append_empty|reflexivity].
Qed.

Section Accounts.

Variable privateKeyToAddress : string -> Completion string.

Lemma createEOAWallet_key (randomBytes : Bytes) :
  WalletAccounts.createEOAWallet privateKeyToAddress randomBytes
  = WalletAccounts.privateKeyToAccount privateKeyToAddress
      (toHex randomBytes).
Proof.
  unfold WalletAccounts.createEOAWallet. now rewrite joined_byte_texts.
Qed.

Lemma privateKeyToAccount_key (privateKey : string)
    (account : WalletUtils.LocalAccount) :
  WalletAccounts.privateKeyToAccount privateKeyToAddress privateKey
  = Normal account ->
  WalletUtils.privateKey account = privateKey
  /\ privateKeyToAddress privateKey = Normal (WalletUtils.address account).
Proof.
  unfold WalletAccounts.privateKeyToAccount.
  destruct (privateKeyToAddress privateKey) as [a|e]; cbn; intros H;
    inversion H; subst; auto.
Qed.

(** X1. The private key of a wallet made by [createEOAWallet] is the
    text "0x" followed by the lower-case hex digits of the random bytes
    it drew, two for each byte, so that the text decodes to exactly these
    bytes; for 32 random bytes it is a well-formed hex value of 66
    characters. The script's [createRandomEOAWallet] makes, from the
    same random bytes, the account with the same key and address. *)
Theorem wallet_key_is_the_random_bytes
    (randomBytes : Bytes) (account : WalletUtils.LocalAccount) :
  WalletAccounts.createEOAWallet privateKeyToAddress randomBytes
  = Normal account ->
  WalletUtils.privateKey account = toHex randomBytes
  /\ Js.hexToBytes (slice_from 2 (WalletUtils.privateKey account))
     = Some randomBytes
  /\ isHex (WalletUtils.privateKey account) = true
  /\ String.length (WalletUtils.privateKey account)
     = 2 + 2 * List.length randomBytes
  /\ UpgradeAccounts.createRandomEOAWallet privateKeyToAddress randomBytes
     = Normal {| UpgradeScript.address := WalletUtils.address account;
                 UpgradeScript._privateKey :=
                   WalletUtils.privateKey account |}.
Proof.
  rewrite createEOAWallet_key. intros H.
  destruct (privateKeyToAccount_key _ _ H) as [Hkey Haddr].
  rewrite Hkey. split; [reflexivity|].
  split; [exact (byte_string_toHex randomBytes)|].
  split; [apply isHex_toHex|].
  split.
  - unfold toHex. cbn [append String.length].
    now rewrite length_hex_of_bytes.
  - unfold UpgradeAccounts.createRandomEOAWallet. fold (toHex randomBytes).
    rewrite H. reflexivity.
Qed.

End Accounts.

Lemma wallet_key_is_the_random_bytes_witness :
  WalletUtils.privateKey
    (WalletUtils.mkLocalAccount Contracts.ZERO_ADDRESS
       (toHex (repeat x2a 32)))
  = "0x2a2a2a2a2a2a2a2a2a2a2a2a2a2a2a2a2a2a2a2a2a2a2a2a2a2a2a2a2a2a2a2a"
  /\ String.length
       (WalletUtils.privateKey
          (WalletUtils.mkLocalAccount Contracts.ZERO_ADDRESS
             (toHex (repeat x2a 32))))
     = 66.
Proof.
  destruct (wallet_key_is_the_random_bytes
              (fun _ => Normal Contracts.ZERO_ADDRESS) (repeat x2a 32)
              (WalletUtils.mkLocalAccount Contracts.ZERO_ADDRESS
                 (toHex (repeat x2a 32)))
              eq_refl)
    as (Hkey & _ & _ & Hlen & _).
  split; [exact Hkey | exact Hlen].
Defined.

Section Signing.

Variable privateKeyToAddress : string -> Completion string.
Variable secp256k1_sign : Signer.

(** X2. A wallet signs with the random bytes it was made from. The
    script's wallet hands the signing primitive the 32 bytes of the hash
    it is given and, as the key, the random bytes of
    [createRandomEOAWallet]; the library's wallet hands it the same key,
    the random bytes of [createEOAWallet], but the EIP-191 hash of the
    hash text as the bytes to sign. *)
Theorem wallets_sign_with_their_random_bytes
    (randomBytes digest : Bytes) (hash : string) (useAnvil : bool) :
  byte_string hash = Some digest ->
  (forall account,
      UpgradeAccounts.createRandomEOAWallet privateKeyToAddress randomBytes
      = Normal account ->
      UpgradeScript.signInitialization secp256k1_sign
        (UpgradeAccounts.createEOAClient account useAnvil) hash
      = option_map pack (secp256k1_sign digest randomBytes))
  /\ (forall account,
         WalletAccounts.createEOAWallet privateKeyToAddress randomBytes
         = Normal account ->
         WalletUtils.signInitialization secp256k1_sign
           (WalletAccounts.wallet
              (WalletAccounts.createEOAClient account useAnvil)) hash
         = option_map WalletUtils.serializeSignature
             (secp256k1_sign (hashMessage hash) randomBytes)).
Proof.
  intros Hhash. split; intros account H.
  - unfold UpgradeAccounts.createRandomEOAWallet in H.
    fold (toHex randomBytes) in H.
    destruct (WalletAccounts.privateKeyToAccount privateKeyToAddress
                (toHex randomBytes)) as [a|e]; cbn in H; inversion H.
    apply SigningFacts.script_signs_the_digest; [|exact Hhash].
    exact (byte_string_toHex randomBytes).
  - assert (Hkey : Js.hexToBytes
                     (slice_from 2 (WalletUtils.privateKey account))
                   = Some randomBytes).
    { rewrite createEOAWallet_key in H.
      destruct (privateKeyToAccount_key _ _ _ H) as [Hk _].
      rewrite Hk. exact (byte_string_toHex randomBytes). }
    now apply SigningFacts.library_signs_the_prefixed_hash.
Qed.

End Signing.

Lemma wallets_sign_with_their_random_bytes_witness :
  let sign : Signer :=
    fun _ key =>
      if list_eq_dec Byte.byte_eq_dec key (repeat x2a 32)
      then Some {| sig_r := 1; sig_s := 2; sig_recovery := 0 |}
      else None in
  UpgradeScript.signInitialization sign
    (UpgradeAccounts.createEOAClient
       {| UpgradeScript.address := Contracts.ZERO_ADDRESS;
          UpgradeScript._privateKey := toHex (repeat x2a 32) |} true)
    (toHex zero_digest)
  = option_map pack (sign zero_digest (repeat x2a 32)).
Proof.
  intros sign.
  exact (proj1 (wallets_sign_with_their_random_bytes
                  (fun _ => Normal Contracts.ZERO_ADDRESS) sign
                  (repeat x2a 32) zero_digest (toHex zero_digest) true
                  eq_refl)
           _ eq_refl).
Defined.

End WalletCreationFacts.

(* ================================================================== *)
(** * Owner encoding and initialization hash *)
(* ================================================================== *)

Module OwnerEncodingFacts.

Import Js Viem JsFacts ViemFacts Spec.

Lemma toHex_injective (a b : Bytes) : toHex a = toHex b -> a = b.
Proof.
  intros H. pose proof (byte_string_toHex a) as Ha.
  rewrite H, byte_string_toHex in Ha. now inversion Ha.
Qed.

Lemma abi_owner_array_injective (a b : Bytes) :
  abi_owner_array a = abi_owner_array b -> a = b.
Proof.
  unfold abi_owner_array. intros H.
  repeat apply app_inv_head in H. exact H.
Qed.

Lemma length_abi_owner_array (addr : Bytes) :
  List.length addr = 20 -> List.length (abi_owner_array addr) = 160.
Proof.
  intros H. unfold abi_owner_array.
  rewrite !length_app, !length_word, repeat_length. lia.
Qed.

Lemma not_address_not_encoded (ownerAddress : string) :
  isAddress ownerAddress = false ->
  UpgradeScript.encodeInitializeArgs ownerAddress = None.
Proof.
  intros H. unfold UpgradeScript.encodeInitializeArgs, encodeAbiParameters.
  cbn [prepareParams prepareParam]. unfold encodeAddress. rewrite H.
  reflexivity.
Qed.

(** X3. [encodeInitializeArgs], in the library and in the script, is
    defined exactly on valid addresses: any other owner makes it throw.
    On a valid address it returns the 160 bytes (322 characters) that
    encode a one-element [bytes[]] whose element is the address word:
    the words 32, 1, 32 and 32, then twelve zero bytes and the twenty
    bytes of the address. *)
Theorem encodeInitializeArgs_on_addresses (ownerAddress : string) :
  (isAddress ownerAddress = false ->
   WalletUtils.encodeInitializeArgs ownerAddress = None
   /\ UpgradeScript.encodeInitializeArgs ownerAddress = None)
  /\ (isAddress ownerAddress = true ->
      exists addr,
        byte_string ownerAddress = Some addr
        /\ List.length addr = 20
        /\ WalletUtils.encodeInitializeArgs ownerAddress
           = Some (toHex (word 32 ++ word 1 ++ word 32 ++ word 32
                            ++ repeat x00 12 ++ addr))
        /\ UpgradeScript.encodeInitializeArgs ownerAddress
           = Some (toHex (word 32 ++ word 1 ++ word 32 ++ word 32
                            ++ repeat x00 12 ++ addr))
        /\ List.length (word 32 ++ word 1 ++ word 32 ++ word 32
                          ++ repeat x00 12 ++ addr) = 160
        /\ String.length
             (toHex (word 32 ++ word 1 ++ word 32 ++ word 32
                       ++ repeat x00 12 ++ addr)) = 322).
Proof.
  split; intros H.
  - rewrite InitializationFacts.encodeInitializeArgs_same.
    split; now apply not_address_not_encoded.
  - destruct (InitializationFacts.isAddress_byte_string _ H) as [addr Ha].
    pose proof (isAddress_bytes _ _ H Ha) as Hlen.
    pose proof (InitializationFacts.encodeInitializeArgs_layout _ _ H Ha)
      as Hs.
    unfold abi_owner_array in Hs.
    exists addr. repeat split; try assumption.
    + now rewrite InitializationFacts.encodeInitializeArgs_same.
    + exact (length_abi_owner_array addr Hlen).
    + unfold toHex. cbn [append String.length].
      rewrite length_hex_of_bytes.
      pose proof (length_abi_owner_array addr Hlen) as H160.
      unfold abi_owner_array in H160. rewrite H160. reflexivity.
Qed.

(** X4. The encoded owner depends on the twenty bytes of the address and
    on nothing else: two valid addresses have the same [initArgs]
    exactly when they agree up to the case of their letters, so a
    checksummed and a lower-case spelling of one address encode alike and
    two different addresses never do. *)
Theorem encodeInitializeArgs_up_to_case (a b : string) :
  isAddress a = true -> isAddress b = true ->
  (WalletUtils.encodeInitializeArgs a = WalletUtils.encodeInitializeArgs b
   <-> toLowerCase a = toLowerCase b)
  /\ (UpgradeScript.encodeInitializeArgs a
      = UpgradeScript.encodeInitializeArgs b
      <-> toLowerCase a = toLowerCase b).
Proof.
  intros Ha Hb.
  destruct (InitializationFacts.isAddress_byte_string _ Ha) as [A HA].
  destruct (InitializationFacts.isAddress_byte_string _ Hb) as [B HB].
  pose proof (InitializationFacts.encodeInitializeArgs_layout _ _ Ha HA) as Ea.
  pose proof (InitializationFacts.encodeInitializeArgs_layout _ _ Hb HB) as Eb.
  pose proof (InspectionFacts.lower_eqb_bytes _ _ _ _ HA HB) as Hlow.
  rewrite String.eqb_eq in Hlow.
  assert (Hscript :
            UpgradeScript.encodeInitializeArgs a
            = UpgradeScript.encodeInitializeArgs b
            <-> toLowerCase a = toLowerCase b).
  { rewrite Ea, Eb, Hlow. split.
    - intros H. apply abi_owner_array_injective, toHex_injective.
      congruence.
    - now intros ->. }
  split; [|exact Hscript].
  now rewrite !InitializationFacts.encodeInitializeArgs_same.
Qed.

Lemma encodeInitializeArgs_up_to_case_witness :
  WalletUtils.encodeInitializeArgs Contracts.CBSW_IMPLEMENTATION_ADDRESS
  = WalletUtils.encodeInitializeArgs
      "0x3e0becb45ebf7bd1e3943b9521264bc5b0bd8ca9".
Proof.
  apply (proj1 (encodeInitializeArgs_up_to_case
                  Contracts.CBSW_IMPLEMENTATION_ADDRESS
                  "0x3e0becb45ebf7bd1e3943b9521264bc5b0bd8ca9"
                  ltac:(vm_compute; reflexivity)
                  ltac:(vm_compute; reflexivity))).
  vm_compute. reflexivity.
Defined.

(** X5. Encoding an owner and hashing the result with a proxy address
    compose: for a valid proxy and a valid owner the initialization hash
    is defined, in the library and in the script alike, and is the hash
    of 256 bytes: the proxy's address word, the offset 64, the length
    160 and the 160 bytes of the encoded owner. With a proxy that is no
    valid address the hash is not defined, whatever the arguments. *)
Theorem initialization_hash_of_an_owner
    (proxyAddress ownerAddress : string) (proxy owner : Bytes) :
  isAddress proxyAddress = true -> isAddress ownerAddress = true ->
  byte_string proxyAddress = Some proxy ->
  byte_string ownerAddress = Some owner ->
  let preimage :=
    (repeat x00 12 ++ proxy) ++ word 64 ++ word 160
      ++ abi_owner_array owner in
  (initArgs <- WalletUtils.encodeInitializeArgs ownerAddress ;;
   WalletUtils.createInitializeHash proxyAddress initArgs)
  = Some (toHex (Keccak.keccak_256 preimage))
  /\ (initArgs <- UpgradeScript.encodeInitializeArgs ownerAddress ;;
      UpgradeScript.createInitializeHash proxyAddress initArgs)
     = Some (toHex (Keccak.keccak_256 preimage))
  /\ List.length preimage = 256
  /\ (forall notAnAddress initArgs,
         isAddress notAnAddress = false ->
         WalletUtils.createInitializeHash notAnAddress initArgs = None
         /\ UpgradeScript.createInitializeHash notAnAddress initArgs = None).
Proof.
  intros Hp Ho Hpb Hob preimage.
  pose proof (isAddress_bytes _ _ Hp Hpb) as Hplen.
  pose proof (isAddress_bytes _ _ Ho Hob) as Holen.
  pose proof (length_abi_owner_array owner Holen) as H160.
  pose proof (InitializationFacts.encodeInitializeArgs_layout _ _ Ho Hob)
    as Hargs.
  assert (Hpre : abi_address_bytes proxy (abi_owner_array owner) = preimage).
  { unfold abi_address_bytes, preimage, pad_right32. rewrite H160.
    cbn [Nat.modulo Nat.divmod Nat.sub fst snd repeat].
    now rewrite app_nil_r. }
  assert (Hscript :
            (initArgs <- UpgradeScript.encodeInitializeArgs ownerAddress ;;
             UpgradeScript.createInitializeHash proxyAddress initArgs)
            = Some (toHex (Keccak.keccak_256 preimage))).
  { rewrite Hargs. cbn [OptionMonad.bind].
    destruct (InitializationFacts.createInitializeHash_of_bytes
                proxyAddress (toHex (abi_owner_array owner)) proxy
                (abi_owner_array owner) Hp Hpb (byte_string_toHex _))
      as (_ & Hs).
    rewrite Hs, Hpre. reflexivity. }
  split; [|split; [exact Hscript|split]].
  - rewrite InitializationFacts.encodeInitializeArgs_same, Hargs.
    cbn [OptionMonad.bind].
    destruct (InitializationFacts.createInitializeHash_of_bytes
                proxyAddress (toHex (abi_owner_array owner)) proxy
                (abi_owner_array owner) Hp Hpb (byte_string_toHex _))
      as (Hl & _).
    rewrite Hl, Hpre. reflexivity.
  - unfold preimage.
    rewrite !length_app, !length_word, repeat_length, H160. lia.
  - intros notAnAddress initArgs Hn.
    now apply InitializationFacts.createInitializeHash_not_address.
Qed.

Lemma initialization_hash_of_an_owner_witness :
  (initArgs <- WalletUtils.encodeInitializeArgs Contracts.ZERO_ADDRESS ;;
   WalletUtils.createInitializeHash Contracts.EIP7702PROXY_TEMPLATE_ADDRESS
     initArgs)
  = Some (toHex
            (Keccak.keccak_256
               ((repeat x00 12
                   ++ [xca; x27; x1a; x94; xdd; x66; x98; x21; x80; x96;
                       x0b; x57; x9d; xe6; xb3; x21; x30; x84; xd6; x7a])
                  ++ word 64 ++ word 160
                  ++ abi_owner_array (repeat x00 20)))).
Proof.
  exact (proj1 (initialization_hash_of_an_owner
                  Contracts.EIP7702PROXY_TEMPLATE_ADDRESS
                  Contracts.ZERO_ADDRESS
                  [xca; x27; x1a; x94; xdd; x66; x98; x21; x80; x96;
                   x0b; x57; x9d; xe6; xb3; x21; x30; x84; xd6; x7a]
                  (repeat x00 20)
                  ltac:(vm_compute; reflexivity)
                  ltac:(vm_compute; reflexivity)
                  eq_refl eq_refl)).
Defined.

End OwnerEncodingFacts.

(* ================================================================== *)
(** * The text of a signature *)
(* ================================================================== *)

Module SignatureTextFacts.

Import Js Viem JsFacts HexNumberFacts ViemFacts Spec.

Lemma append_cancel (a b c : string) :
  (a ++ b)%string = (a ++ c)%string -> b = c.
Proof.
  induction a as [|x a IH]; cbn; intros H; [exact H|].
  inversion H. auto.
Qed.

(** X6. The script packs a signature as the library's serializer does:
    for a signature whose [r] and [s] fit 32 bytes and whose recovery
    bit is 0 or 1, the script's [signInitialization] returns the very
    text viem's [serializeSignature] gives for it, the 65 bytes [r],
    [s], [v] (132 characters) with [v] = 27 + recovery. For the
    recovery values 2 and 3 the two texts differ. *)
Theorem script_packs_as_the_library_serializes
    (secp256k1_sign : Signer) (acct : UpgradeScript.ExtendedAccount)
    (hash : string) (digest key : Bytes) (sg : Signature) :
  byte_string (UpgradeScript._privateKey acct) = Some key ->
  byte_string hash = Some digest ->
  secp256k1_sign digest key = Some sg ->
  (sig_r sg < 2 ^ 256)%N -> (sig_s sg < 2 ^ 256)%N ->
  let packed :=
    UpgradeScript.signInitialization secp256k1_sign
      (UpgradeScript.mkWalletClient (Some acct)) hash in
  ((sig_recovery sg < 2)%N ->
   packed = Some (WalletUtils.serializeSignature sg)
   /\ WalletUtils.serializeSignature sg
      = toHex (r_s_v sg (sig_recovery sg + 27))
   /\ List.length (r_s_v sg (sig_recovery sg + 27)) = 65
   /\ String.length (WalletUtils.serializeSignature sg) = 132)
  /\ (sig_recovery sg = 2%N \/ sig_recovery sg = 3%N ->
      packed <> Some (WalletUtils.serializeSignature sg)).
Proof.
  intros Hkey Hhash Hsign Hr Hs packed. split.
  - intros Hrec.
    destruct (SigningFacts.script_signature_layout secp256k1_sign acct hash
                digest key sg Hkey Hhash Hsign Hr Hs Hrec) as [Hp Hlen].
    pose proof (SigningFacts.library_signature_layout sg Hr Hs) as Hlib.
    assert (Hv : (if (sig_recovery sg =? 0)%N then 27 else 28)%N
                 = (sig_recovery sg + 27)%N).
    { destruct (N.eqb_spec (sig_recovery sg) 0) as [->|Hn]; lia. }
    rewrite Hv in Hlib. unfold packed.
    rewrite Hp, Hlib. split; [reflexivity|]. split; [reflexivity|].
    split; [exact Hlen|].
    unfold toHex. cbn [append String.length].
    now rewrite length_hex_of_bytes, Hlen.
  - intros Hrec. unfold packed.
    rewrite (SigningFacts.script_signs_the_digest secp256k1_sign acct hash
               digest key Hkey Hhash), Hsign.
    cbn [option_map]. unfold pack, WalletUtils.serializeSignature.
    intros H. inversion H as [H'].
    apply append_cancel in H'. apply append_cancel in H'.
    destruct Hrec as [E|E]; rewrite E in H'; vm_compute in H';
      discriminate.
Qed.

Lemma script_packs_as_the_library_serializes_witness :
  let sg := {| sig_r := 1; sig_s := 2; sig_recovery := 1 |} in
  UpgradeScript.signInitialization (fun _ _ => Some sg)
    (UpgradeScript.mkWalletClient
       (Some (UpgradeScript.mkExtendedAccount Contracts.ZERO_ADDRESS one_key)))
    (toHex zero_digest)
  = Some (WalletUtils.serializeSignature sg).
Proof.
  intros sg.
  exact (proj1
           (proj1 (script_packs_as_the_library_serializes
                     (fun _ _ => Some sg)
                     (UpgradeScript.mkExtendedAccount Contracts.ZERO_ADDRESS
                        one_key)
                     (toHex zero_digest) zero_digest (be_bytes 32 1) sg
                     eq_refl eq_refl eq_refl
                     ltac:(vm_compute; reflexivity)
                     ltac:(vm_compute; reflexivity))
              ltac:(vm_compute; reflexivity))).
Defined.

End SignatureTextFacts.

(* ================================================================== *)
(** * The relay route, request by request *)
(* ================================================================== *)

Module RelayRunFacts.

Import Async Relay Observed.

#[local] Arguments JsVal.is_string : simpl never.
#[local] Arguments JsVal.toString : simpl never.
#[local] Arguments JsVal.prop : simpl never.
#[local] Arguments String.eqb : simpl never.

Ltac scrutinee x :=
  lazymatch x with
  | context [match ?y with _ => _ end] => scrutinee y
  | _ => x
  end.

(** One step of a request: compute, or split on the next answer of the
    relayer or on the next test of the handler. *)
Ltac step world :=
  first
    [ progress cbn
    | match goal with
      | |- context [world ?R ?n ?c] => destruct (world R n c) eqn:?
      | |- context [match ?x with _ => _ end] =>
          let y := scrutinee x in destruct y eqn:?
      end ].

Ltac requests world :=
  unfold Relay.serve, POST, POST_try, read, of_outcome, lift, await;
  repeat step world.

Section Route.

Variable NEW_IMPLEMENTATION_ADDRESS : string.
Variable BigInt : JsValue -> option Z.
Variable encodeFunctionData : FunctionCall -> option string.
Variable message_of : Failure -> string.

Let serve : Outcome JsValue -> Oracle Ext -> list Event * Result Response :=
  Relay.serve NEW_IMPLEMENTATION_ADDRESS BigInt encodeFunctionData message_of.

(** X7. The relay route answers every request: whatever the request
    holds and however the relayer's wallet answers, a rejection being
    an error with its message, the handler returns a response and
    never throws, the status of the response is 200, 400 or 500, and
    at most one transaction has been handed to the wallet. *)
Theorem relay_always_answers
    (request_json : Outcome JsValue) (world : Oracle Ext) :
  exists response,
    snd (serve request_json world) = Done response
    /\ (status response = 200 \/ status response = 400
        \/ status response = 500)
    /\ List.length (fst (serve request_json world)) <= 1.
Proof.
  unfold serve. requests world.
  all: eexists; split; [reflexivity|]; split; cbn; auto.
Qed.

(** X8. The route reports success exactly for an answered transaction:
    the status of the response is 200 if and only if exactly one
    transaction was handed to the relayer's wallet and the wallet
    answered it with a hash, and then the body of the response is that
    hash, under the key [hash]. *)
Theorem relay_success_is_one_answered_transaction
    (request_json : Outcome JsValue) (world : Oracle Ext)
    (response : Response) :
  snd (serve request_json world) = Done response ->
  (status response = 200
   <-> exists e hash,
         fst (serve request_json world) = [e]
         /\ relay_answer e = Returned hash
         /\ body response = JObject [("hash", hash)]).
Proof.
  unfold serve. requests world.
  all: intros Hdone; inversion Hdone; subst response; cbn.
  all: split;
    [ intros H; try discriminate H; eexists _, _; repeat split
    | intros (e & hash & He & Ha & Hb);
      try discriminate He; try reflexivity;
      inversion He; subst e; cbn in Ha; discriminate Ha ].
Qed.

(** X9. A failure becomes a 500 response that carries the message of the
    error, or "Internal server error" when the message is empty: this
    holds when the request body cannot be parsed, and when the wallet
    rejects the one transaction handed to it. A body that is [null]
    cannot be destructured: the response is a 500 that carries the
    message of the error thrown for reading [operation] of [null], and
    nothing is handed to the wallet. *)
Theorem relay_failure_carries_the_message
    (request_json : Outcome JsValue) (world : Oracle Ext) :
  (forall message,
      request_json = Rejected message ->
      serve request_json world
      = ([], Done {| body := JObject
                       [("error", JString (relay_error_text message))];
                     status := 500 |}))
  /\ (forall e message,
         fst (serve request_json world) = [e] ->
         relay_answer e = Rejected message ->
         snd (serve request_json world)
         = Done {| body := JObject
                     [("error", JString (relay_error_text message))];
                   status := 500 |})
  /\ (request_json = Returned JNull ->
      serve request_json world
      = ([], Done {| body := JObject
                       [("error",
                         JString
                           (relay_error_text
                              (message_of (no_property "operation" JNull))))];
                     status := 500 |})).
Proof.
  split; [|split].
  - intros message ->. reflexivity.
  - unfold serve. requests world.
    all: intros ev msg He Ha; try discriminate He;
      inversion He; subst ev; cbn in Ha; try discriminate Ha;
      inversion Ha; subst; unfold relay_error_text;
      match goal with
      | H : String.eqb _ "" = _ |- _ => rewrite H
      end; reflexivity.
  - intros ->. reflexivity.
Qed.

(** X10. What the route hands to the relayer's wallet is shaped by the
    route, not by the request. A transaction that carries call data is
    a call of [setImplementation] with the implementation and the
    validator of lib/contracts.ts and with cross-chain replay off; the
    request chooses only the target, the initialization arguments, the
    signature and the authorization list, and such a transaction
    carries no value. A transaction without call data is the funding
    transaction: it carries the requested value and no authorization
    list. A contract write is always a call of [execute] on the
    target. *)
Theorem relay_transactions_are_shaped_by_the_route
    (body : JsValue) (world : Oracle Ext) (e : Event) :
  In e (fst (serve (Returned body) world)) ->
  exists targetAddress,
    JsVal.prop "targetAddress" body = Some targetAddress
    /\ match e with
       | ev_sendTransaction tx _ =>
           to tx = targetAddress
           /\ match data tx with
              | Some calldata =>
                  value tx = None
                  /\ exists initArgs signature,
                       JsVal.prop "initArgs" body = Some initArgs
                       /\ JsVal.prop "signature" body = Some signature
                       /\ JsVal.prop "authorizationList" body
                          = Some (authorizationList tx)
                       /\ encodeFunctionData
                            {| functionName := "setImplementation";
                               args := [JString NEW_IMPLEMENTATION_ADDRESS;
                                        initArgs;
                                        JString Contracts.VALIDATOR_ADDRESS;
                                        signature;
                                        JBool false] |}
                          = Some calldata
              | None =>
                  authorizationList tx = JUndefined
                  /\ exists requested amount,
                       JsVal.prop "value" body = Some requested
                       /\ BigInt requested = Some amount
                       /\ value tx = Some amount
              end
       | ev_writeContract address functionName args _ =>
           address = targetAddress
           /\ functionName = "execute"
           /\ exists call target requested amount data,
                JsVal.prop "args" body = Some call
                /\ JsVal.prop "target" call = Some target
                /\ JsVal.prop "value" call = Some requested
                /\ BigInt requested = Some amount
                /\ JsVal.prop "data" call = Some data
                /\ args = [arg_value target; arg_bigint amount;
                           arg_value data]
       end.
Proof.
  revert e. unfold serve. requests world.
  all: intros e Hin; cbn in Hin; try contradiction.
  all: destruct Hin as [Hin|[]]; subst e.
  all: eexists; split; [reflexivity|]; cbn; repeat split; eauto 12.
Qed.

End Route.

Lemma relay_success_is_one_answered_transaction_witness :
  exists e hash,
    fst (Relay.serve "0x" (fun _ => Some 1%Z) (fun _ => None) (fun _ => "")
           (Returned (JObject [("operation", JString "fund");
                               ("targetAddress",
                                JString Contracts.ZERO_ADDRESS);
                               ("value", JString "1")]))
           (answering_wallet (JString "0xabc")))
    = [e]
    /\ relay_answer e = Returned hash
    /\ JObject [("hash", JString "0xabc")] = JObject [("hash", hash)].
Proof.
  exact (proj1
           (relay_success_is_one_answered_transaction
              "0x" (fun _ => Some 1%Z) (fun _ => None) (fun _ => "")
              (Returned (JObject [("operation", JString "fund");
                                  ("targetAddress",
                                   JString Contracts.ZERO_ADDRESS);
                                  ("value", JString "1")]))
              (answering_wallet (JString "0xabc"))
              {| body := JObject [("hash", JString "0xabc")];
                 status := 200 |}
              eq_refl)
           eq_refl).
Defined.

Lemma relay_transactions_are_shaped_by_the_route_witness :
  exists initArgs signature,
    encodeFunctionData_of_names
      {| functionName := "setImplementation";
         args := [JString Contracts.CBSW_IMPLEMENTATION_ADDRESS;
                  initArgs;
                  JString Contracts.VALIDATOR_ADDRESS;
                  signature;
                  JBool false] |}
    = Some "setImplementation".
Proof.
  destruct (relay_transactions_are_shaped_by_the_route
              Contracts.CBSW_IMPLEMENTATION_ADDRESS (fun _ => None)
              encodeFunctionData_of_names (fun _ => "")
              (JObject [("operation", JString "upgradeEOA");
                        ("targetAddress", JString Contracts.ZERO_ADDRESS);
                        ("initArgs", JString "0x01");
                        ("signature", JString "0x02");
                        ("authorizationList", JArray [])])
              (answering_wallet (JString "0xabc"))
              (ev_sendTransaction
                 {| to := JString Contracts.ZERO_ADDRESS;
                    value := None;
                    data := Some "setImplementation";
                    authorizationList := JArray [] |}
                 (Returned (JString "0xabc")))
              (or_introl eq_refl))
    as (targetAddress & _ & _ & _ & initArgs & signature & _ & _ & _ & H).
  exists initArgs, signature. exact H.
Defined.

End RelayRunFacts.

(* ================================================================== *)
(** * Runs of the programs whose exceptions are values *)
(* ================================================================== *)

Module TaskFacts.

Import Task.

Ltac scrutinee x :=
  lazymatch x with
  | context [match ?y with _ => _ end] => scrutinee y
  | _ => x
  end.

(** One step of a run: compute, or split on the next answer of the
    world or on the next test of the program. *)
Ltac step world :=
  first
    [ progress cbn
    | match goal with
      | |- context [world ?R ?n ?c] => destruct (world R n c) eqn:?
      | |- context [match ?x with _ => _ end] =>
          let y := scrutinee x in destruct y eqn:?
      end ].

(** An equation of the goal that is one of the context, found by the
    function it is about. *)
Ltac recorded :=
  match goal with
  | H : ?f ?x = _ |- ?g ?y = _ => constr_eq f g; exact H
  end.

Section Programs.

Context {Ext : Type -> Type} {Op : Type}.
Context {Event State : Type}.
Variable observe_op : Op -> Event.
Variable observe_call : forall R : Type, Ext R -> Completion R -> Event.
Variable apply_op : Op -> State -> State.

(** A [try] whose handler cannot throw ends normally. *)
Lemma result_try_catch {A} (p : Prog Ext Op A) (handler : Thrown -> Prog Ext Op A)
    (world : Oracle Ext) :
  (forall error tick, exists a, result (handler error) world tick = Normal a) ->
  forall tick, exists a, result (try_catch p handler) world tick = Normal a.
Proof.
  intros Hh.
  induction p as [a|error|op k IH|R c k IH]; intros tick; cbn; eauto.
Qed.

(** A [finally] block that only updates the state does not change how
    the block it guards ends. *)
Lemma result_finally_act {A} (p : Prog Ext Op A) (op : Op)
    (world : Oracle Ext) :
  forall tick,
    result (finally p (act op)) world tick = result p world tick.
Proof.
  induction p as [a|error|op' k IH|R c k IH]; intros tick; cbn; auto.
Qed.

(** The state update of a [finally] block is the last one of the run. *)
Lemma final_finally_act {A} (p : Prog Ext Op A) (op : Op)
    (world : Oracle Ext) :
  forall tick st,
    final apply_op (finally p (act op)) world tick st
    = apply_op op (final apply_op p world tick st).
Proof.
  induction p as [a|error|op' k IH|R c k IH]; intros tick st; cbn; auto.
Qed.

Lemma trace_finally_act {A} (p : Prog Ext Op A) (op : Op)
    (world : Oracle Ext) :
  forall tick,
    trace observe_op observe_call (finally p (act op)) world tick
    = trace observe_op observe_call p world tick ++ [observe_op op].
Proof.
  induction p as [a|error|op' k IH|R c k IH]; intros tick; cbn;
    try reflexivity; now rewrite IH.
Qed.

End Programs.

End TaskFacts.

(* ================================================================== *)
(** * api/verify-passkey/submit/route.ts *)
(* ================================================================== *)

Module SubmitRouteFacts.

Import Task SubmitRoute TaskFacts Observed.

#[local] Arguments JsVal.prop : simpl never.

Ltac requests world :=
  unfold SubmitRoute.serve, POST, POST_try, of_completion, lift, await,
    act, WalletAccounts.privateKeyToAccount, Exn.bind;
  repeat step world.

Section Route.

Variable ENTRYPOINT_ADDRESS : string.
Variable RELAYER_PRIVATE_KEY : option string.
Variable privateKeyToAddress : string -> Completion string.

Let serve : Completion JsValue -> Oracle Ext
            -> list Event * Completion Response :=
  SubmitRoute.serve ENTRYPOINT_ADDRESS RELAYER_PRIVATE_KEY
    privateKeyToAddress.

(** X11. The submit route answers every request and never throws. The
    response is either a 200 whose body holds, as [txHash] and
    [userOpHash], what the wallet answered to the two contract writes
    of the request, [handleOps] first and [getUserOpHash] second, and
    nothing else happened; or a 500 whose body is the text of the
    error's message, "Unknown error" for a thrown value that is no
    [Error], and then at most two writes were made and the last thing
    the handler did was to log that error. *)
Theorem submit_route_always_answers
    (request_json : Completion JsValue) (world : Oracle Ext) :
  exists response,
    snd (serve request_json world) = Normal response
    /\ ((status response = 200
         /\ exists userOp relayer txHash userOpHash,
              fst (serve request_json world)
              = [ev_writeContract ENTRYPOINT_ADDRESS "handleOps"
                   [JArray [userOp]; JString relayer] (Normal txHash);
                 ev_writeContract ENTRYPOINT_ADDRESS "getUserOpHash"
                   [userOp] (Normal userOpHash)]
              /\ body response
                 = json (JObject [("txHash", txHash);
                                  ("userOpHash", userOpHash)]))
        \/ (status response = 500
            /\ exists error writes,
                 fst (serve request_json world)
                 = writes ++ [ev_console_error "Error in submit endpoint:"
                                error]
                 /\ List.length writes <= 2
                 /\ body response
                    = text match error with
                           | ErrorObject message _ => message
                           | ThrownValue _ => "Unknown error"
                           end)).
Proof.
  unfold serve. requests world.
  all: eexists; split; [reflexivity|].
  all: first
         [ left; split; [reflexivity|]; do 4 eexists; split; reflexivity
         | right; split; [reflexivity|]; eexists _, (@nil Event);
           split; [reflexivity|]; split; [cbn; lia|reflexivity]
         | right; split; [reflexivity|]; eexists _, [_];
           split; [reflexivity|]; split; [cbn; lia|reflexivity]
         | right; split; [reflexivity|]; eexists _, [_; _];
           split; [reflexivity|]; split; [cbn; lia|reflexivity] ].
Qed.

(** X12. Every contract write of the submit route follows from the
    request: the body could be read and held the user operation, the
    environment held the relayer's key and the key had an address; the
    write goes to the entry point; the first write of the run is
    [handleOps] with the user operation and the relayer's address as
    beneficiary; and [getUserOpHash] is written, with the same user
    operation, only after the wallet answered [handleOps] with a
    hash. *)
Theorem submit_writes_follow_the_request
    (request_json : Completion JsValue) (world : Oracle Ext)
    (address functionName : string) (args : list JsValue)
    (answer : Completion JsValue) :
  In (ev_writeContract address functionName args answer)
    (fst (serve request_json world)) ->
  exists body userOp key relayer first,
    request_json = Normal body
    /\ JsVal.prop "userOp" body = Some userOp
    /\ RELAYER_PRIVATE_KEY = Some key
    /\ privateKeyToAddress key = Normal relayer
    /\ hd_error (fst (serve request_json world))
       = Some (ev_writeContract ENTRYPOINT_ADDRESS "handleOps"
                 [JArray [userOp]; JString relayer] first)
    /\ address = ENTRYPOINT_ADDRESS
    /\ ((functionName = "handleOps"
         /\ args = [JArray [userOp]; JString relayer]
         /\ answer = first)
        \/ (functionName = "getUserOpHash"
            /\ args = [userOp]
            /\ exists txHash, first = Normal txHash)).
Proof.
  revert address functionName args answer. unfold serve.
  requests world.
  all: intros address functionName args answer Hin; cbn in Hin.
  all: repeat match goal with
              | H : _ \/ _ |- _ => destruct H as [H|H]
              | H : False |- _ => destruct H
              | H : ev_console_error _ _ = ev_writeContract _ _ _ _ |- _ =>
                  discriminate H
              | H : ev_writeContract _ _ _ _ = ev_writeContract _ _ _ _
                |- _ => inversion H; clear H; subst
              end.
  all: do 5 eexists;
    repeat (split; [first [eassumption | reflexivity]|]);
    first [ left; repeat split; reflexivity
          | right; split; [reflexivity|]; split; [reflexivity|];
            eexists; reflexivity ].
Qed.

End Route.

Lemma submit_writes_follow_the_request_witness :
  exists body userOp key relayer first,
    Normal (JObject [("userOp", JString "op")]) = Normal body
    /\ JsVal.prop "userOp" body = Some userOp
    /\ Some "0x01" = Some key
    /\ Normal Contracts.ZERO_ADDRESS = Normal relayer
    /\ hd_error
         (fst (SubmitRoute.serve Contracts.ENTRYPOINT_ADDRESS (Some "0x01")
                 (fun _ => Normal Contracts.ZERO_ADDRESS)
                 (Normal (JObject [("userOp", JString "op")]))
                 (answering_entry_point (JString "0xabc"))))
       = Some (ev_writeContract Contracts.ENTRYPOINT_ADDRESS "handleOps"
                 [JArray [userOp]; JString relayer] first)
    /\ Contracts.ENTRYPOINT_ADDRESS = Contracts.ENTRYPOINT_ADDRESS
    /\ (("getUserOpHash" = "handleOps"
         /\ [JString "op"] = [JArray [userOp]; JString relayer]
         /\ Normal (JString "0xabc") = first)
        \/ ("getUserOpHash" = "getUserOpHash"
            /\ [JString "op"] = [userOp]
            /\ exists txHash, first = Normal txHash)).
Proof.
  exact (submit_writes_follow_the_request
           Contracts.ENTRYPOINT_ADDRESS (Some "0x01")
           (fun _ => Normal Contracts.ZERO_ADDRESS)
           (Normal (JObject [("userOp", JString "op")]))
           (answering_entry_point (JString "0xabc"))
           Contracts.ENTRYPOINT_ADDRESS "getUserOpHash" [JString "op"]
           (Normal (JString "0xabc"))
           (or_intror (or_introl eq_refl))).
Defined.

End SubmitRouteFacts.

(* ================================================================== *)
(** * The recovery dialog *)
(* ================================================================== *)

Module DialogFacts.

Import Task TaskFacts Observed.

(** X13. The dialog's own [handleRecover] closes the dialog before it
    starts the recovery, never throws, and leaves [isRecovering] false
    however the recovery ends: the run is [setIsRecovering(true)],
    [onClose()], the call of [onRecover], the logging of the error if
    that call was rejected, and [setIsRecovering(false)]. *)
Theorem dialog_closes_before_it_recovers
    (world : Oracle RecoveryModalHandlers.Ext) (isRecovering : bool) :
  let run := RecoveryModalHandlers.handleRecover in
  let answer := world unit 0 RecoveryModalHandlers.onRecover in
  result run world 0 = Normal tt
  /\ final RecoveryModalHandlers.apply_op run world 0 isRecovering = false
  /\ trace RecoveryModalHandlers.ev_op RecoveryModalHandlers.observe
       run world 0
     = [RecoveryModalHandlers.ev_op
          (RecoveryModalHandlers.setIsRecovering true);
        RecoveryModalHandlers.ev_op RecoveryModalHandlers.onClose;
        RecoveryModalHandlers.ev_onRecover answer]
         ++ match answer with
            | Normal _ => []
            | Abrupt error =>
                [RecoveryModalHandlers.ev_op
                   (RecoveryModalHandlers.console_error "Recovery failed:"
                      error)]
            end
         ++ [RecoveryModalHandlers.ev_op
               (RecoveryModalHandlers.setIsRecovering false)].
Proof.
  cbn. destruct (world unit 0 RecoveryModalHandlers.onRecover) as [[]|error];
    cbn; repeat split.
Qed.

(** X14. An open dialog that does not show the unrecoverable notice
    names exactly the parts that are flagged: "delegate",
    "implementation" and "ownership" each occur in its text if and only
    if the flag is set; it hints at a new passkey exactly when ownership
    is flagged. With no flag set the text reads "the undefined is
    incorrect". *)
Theorem dialog_names_the_flagged_issues
    (delegateIssue implementationIssue ownershipDisrupted
       isRecovering : bool) :
  RecoveryModal.isUnrecoverable delegateIssue implementationIssue
    ownershipDisrupted = false ->
  exists issues,
    inconsistent_notice
      (RecoveryModal.RecoveryModal true delegateIssue implementationIssue
         ownershipDisrupted isRecovering)
    = Some (issues, ownershipDisrupted)
    /\ issues = RecoveryModal.renderIssues delegateIssue implementationIssue
                  ownershipDisrupted
    /\ (delegateIssue || implementationIssue || ownershipDisrupted = true ->
        mentions "delegate" issues = delegateIssue
        /\ mentions "implementation" issues = implementationIssue
        /\ mentions "ownership" issues = ownershipDisrupted)
    /\ (delegateIssue || implementationIssue || ownershipDisrupted = false ->
        issues = "the undefined is incorrect").
Proof.
  destruct delegateIssue, implementationIssue, ownershipDisrupted;
    cbn; intros H; try discriminate H;
    eexists; (split; [reflexivity|]); (split; [reflexivity|]);
    split; intros H'; try discriminate H'; repeat split.
Qed.

Lemma dialog_names_the_flagged_issues_witness :
  exists issues,
    inconsistent_notice (RecoveryModal.RecoveryModal true true true true false)
    = Some (issues, true)
    /\ issues = "delegate, implementation and ownership are incorrect".
Proof.
  destruct (dialog_names_the_flagged_issues true true true false eq_refl)
    as (issues & Hn & Hi & _).
  exists issues. split; [exact Hn | exact Hi].
Defined.

End DialogFacts.

(* ================================================================== *)
(** * The relayer behind the relay route *)
(* ================================================================== *)

Module RelaySetupFacts.

Import Js Viem Observed.

Section Setup.

Variable privateKeyToAddress : string -> Completion string.

(** X15. The relay route loads only with a relayer that matches its
    public address: when the statements of the module run through, both
    environment variables are set and not empty, the account is the one
    of the private key, and its address and the public address agree up
    to the case of their letters, so that they denote the same bytes. A
    missing or empty private key stops the module with its own error
    whatever else is set. *)
Theorem relayer_matches_its_public_address
    (RELAYER_PRIVATE_KEY PUBLIC_RELAYER_ADDRESS : option string)
    (account : WalletUtils.LocalAccount) :
  RelaySetup.relayerAccount privateKeyToAddress RELAYER_PRIVATE_KEY
    PUBLIC_RELAYER_ADDRESS = Normal account ->
  exists privateKey publicAddress,
    RELAYER_PRIVATE_KEY = Some privateKey /\ privateKey <> ""
    /\ PUBLIC_RELAYER_ADDRESS = Some publicAddress /\ publicAddress <> ""
    /\ WalletUtils.privateKey account = privateKey
    /\ privateKeyToAddress privateKey
       = Normal (WalletUtils.address account)
    /\ toLowerCase (WalletUtils.address account)
       = toLowerCase publicAddress
    /\ (forall a b,
           byte_string (WalletUtils.address account) = Some a ->
           byte_string publicAddress = Some b -> a = b)
    /\ (forall other,
           RelaySetup.relayerAccount privateKeyToAddress None other
           = Abrupt (Exn.new_Error
                       "RELAYER_PRIVATE_KEY environment variable is required")
           /\ RelaySetup.relayerAccount privateKeyToAddress (Some "") other
              = Abrupt (Exn.new_Error
                          "RELAYER_PRIVATE_KEY environment variable is required")).
Proof.
  unfold RelaySetup.relayerAccount, JsVal.truthy_string.
  destruct RELAYER_PRIVATE_KEY as [k|]; cbn [negb]; [|discriminate].
  destruct (String.eqb_spec k "") as [->|Hk]; cbn [negb]; [discriminate|].
  destruct PUBLIC_RELAYER_ADDRESS as [p|]; cbn [negb]; [|discriminate].
  destruct (String.eqb_spec p "") as [->|Hp]; cbn [negb]; [discriminate|].
  cbn [PasskeyVerification.or_else].
  unfold WalletAccounts.privateKeyToAccount.
  destruct (privateKeyToAddress k) as [a|e] eqn:Ha; cbn [Exn.bind];
    [|discriminate].
  cbn [WalletUtils.address].
  destruct (String.eqb_spec (toLowerCase a) (toLowerCase p)) as [E|E];
    cbn [negb]; [|discriminate].
  intros H. inversion H; subst account. cbn.
  exists k, p. repeat split; auto.
  intros x y Hx Hy.
  apply (InspectionFacts.lower_eqb_bytes _ _ _ _ Hx Hy).
  now apply String.eqb_eq.
Qed.

End Setup.

Lemma relayer_matches_its_public_address_witness :
  exists privateKey publicAddress,
    Some WalletAccounts.ANVIL_RELAYER_PRIVATE_KEY = Some privateKey
    /\ Some "0x3e0becb45ebf7bd1e3943b9521264bc5b0bd8ca9" = Some publicAddress
    /\ toLowerCase Contracts.CBSW_IMPLEMENTATION_ADDRESS
       = toLowerCase publicAddress.
Proof.
  destruct (relayer_matches_its_public_address
              (fun _ => Normal Contracts.CBSW_IMPLEMENTATION_ADDRESS)
              (Some WalletAccounts.ANVIL_RELAYER_PRIVATE_KEY)
              (Some "0x3e0becb45ebf7bd1e3943b9521264bc5b0bd8ca9")
              (WalletUtils.mkLocalAccount
                 Contracts.CBSW_IMPLEMENTATION_ADDRESS
                 WalletAccounts.ANVIL_RELAYER_PRIVATE_KEY)
              eq_refl)
    as (k & p & Hk & _ & Hp & _ & _ & _ & Hl & _).
  exists k, p. repeat split; assumption.
Defined.

End RelaySetupFacts.

(* ================================================================== *)
(** * components/WalletManager.tsx *)
(* ================================================================== *)

Module WalletManagerFacts.

Import Js Viem Task TaskFacts WalletManager Observed Spec.

Lemma formatError_throws (error : Thrown) :
  formatError error = None
  <-> error = ThrownValue JNull \/ error = ThrownValue JUndefined
      \/ exists v, In v (appended_by_formatError error)
                   /\ JsVal.toString v = None.
Proof.
  assert (Hv : forall v,
             v <> JNull -> v <> JUndefined ->
             exists sm m d,
               Exn.prop "shortMessage" (ThrownValue v) = Some sm
               /\ Exn.prop "message" (ThrownValue v) = Some m
               /\ Exn.prop "data" (ThrownValue v) = Some d).
  { intros v Hn Hu. destruct v; try congruence;
      cbn [Exn.prop JsVal.prop]; eauto 10. }
  assert (Hp : error = ThrownValue JNull \/ error = ThrownValue JUndefined
               \/ exists sm m d,
                    Exn.prop "shortMessage" error = Some sm
                    /\ Exn.prop "message" error = Some m
                    /\ Exn.prop "data" error = Some d).
  { destruct error as [message props|v].
    - right; right. cbn [Exn.prop]. eauto 10.
    - destruct v; auto; right; right; apply Hv; discriminate. }
  clear Hv.
  destruct Hp as [->|[->|(sm & m & d & Hsm & Hm & Hd)]].
  - split; auto.
  - split; auto.
  - unfold formatError, appended_by_formatError. rewrite Hsm, Hm, Hd.
    cbn [OptionMonad.bind].
    assert (Hnn : error <> ThrownValue JNull)
      by (intros ->; discriminate Hsm).
    assert (Hnu : error <> ThrownValue JUndefined)
      by (intros ->; discriminate Hsm).
    destruct (JsVal.truthy sm);
      [destruct (JsVal.toString sm) as [t|] eqn:Et
      |destruct (JsVal.truthy m);
       [destruct (JsVal.toString m) as [t|] eqn:Et|]];
      cbn [OptionMonad.bind];
      (destruct (JsVal.truthy (Exn.optional_prop "message" d));
       [destruct (JsVal.toString (Exn.optional_prop "message" d))
          as [t'|] eqn:Et'|]);
      cbn [OptionMonad.bind app];
      (split;
       [ intros H; try discriminate H; right; right;
         first [ exists sm; split; [now left|assumption]
               | exists m; split; [now left|assumption]
               | eexists; split; [right; now left|assumption]
               | eexists; split; [now left|assumption] ]
       | intros [H|[H|(v & Hin & Hnone)]];
         [ contradiction | contradiction |];
         cbn [In] in Hin;
         repeat match goal with
                | H : _ \/ _ |- _ => destruct H as [H|H]
                | H : False |- _ => destruct H
                end; subst; congruence ]).
Qed.

Lemma formatError_prefix (error : Thrown) (text : string) :
  formatError error = Some text ->
  startsWith text "Failed to upgrade wallet: " = true.
Proof.
  unfold formatError.
  destruct (Exn.prop "shortMessage" error) as [sm|]; [|discriminate].
  cbn [OptionMonad.bind].
  destruct (Exn.prop "message" error) as [m|];
    destruct (Exn.prop "data" error) as [d|];
    repeat first
      [ progress cbn [OptionMonad.bind]
      | match goal with
        | |- context [if ?b then _ else _] => destruct b
        | |- context [JsVal.toString ?v] => destruct (JsVal.toString v)
        end ];
    try discriminate;
    intros H; injection H as H; subst text; reflexivity.
Qed.

Lemma formatError_new_Error (message : string) :
  formatError (Exn.new_Error message)
  = Some ("Failed to upgrade wallet: " ++ message)%string.
Proof.
  unfold formatError. cbn.
  destruct (String.eqb_spec message "") as [->|_]; reflexivity.
Qed.

(** X16. [formatError] throws on a thrown [null] or [undefined], whose
    properties cannot be read, and when a value it appends to its text
    cannot be converted to a string: the short message when it is
    truthy, or else the message when it is truthy, and the message of
    the error's data when it is truthy; it throws in no other case. An
    object with an own property [toString] that is no function is such
    a value. On anything else it returns a text that starts with
    "Failed to upgrade wallet: ": for a plain [Error] the prefix and the
    message; for an error with a non-empty [shortMessage] and no [data]
    the prefix and the short message, whatever the message; and when
    the error's [data] holds a non-empty [message], the text ends with
    a new line, "Contract message: " and that message. *)
Theorem formatError_text (error : Thrown) :
  (formatError error = None
   <-> error = ThrownValue JNull \/ error = ThrownValue JUndefined
       \/ exists v, In v (appended_by_formatError error)
                    /\ JsVal.toString v = None)
  /\ (forall message unconvertible,
         formatError
           (ErrorObject message
              [("shortMessage", JObject [("toString", unconvertible)])])
         = None)
  /\ (forall text,
         formatError error = Some text ->
         startsWith text "Failed to upgrade wallet: " = true)
  /\ (forall message,
         formatError (Exn.new_Error message)
         = Some ("Failed to upgrade wallet: " ++ message)%string)
  /\ (forall message shortMessage,
         shortMessage <> "" ->
         formatError
           (ErrorObject message [("shortMessage", JString shortMessage)])
         = Some ("Failed to upgrade wallet: " ++ shortMessage)%string)
  /\ (forall message reason,
         reason <> "" ->
         formatError
           (ErrorObject message
              [("data", JObject [("message", JString reason)])])
         = Some (("Failed to upgrade wallet: " ++ message)
                   ++ String (ascii_of_N 10) "Contract message: "
                   ++ reason)%string).
Proof.
  split; [apply formatError_throws|].
  split; [intros message unconvertible; reflexivity|].
  split; [intros text; apply formatError_prefix|].
  split; [apply formatError_new_Error|split].
  - intros message shortMessage Hs. unfold formatError. cbn.
    destruct (String.eqb_spec shortMessage "") as [->|_];
      [contradiction|reflexivity].
  - intros message reason Hr. unfold formatError. cbn.
    destruct (String.eqb_spec reason "") as [->|_]; [contradiction|].
    destruct (String.eqb_spec message "") as [->|_]; reflexivity.
Qed.

#[local] Arguments WalletUtils.encodeInitializeArgs : simpl never.
#[local] Arguments WalletUtils.createInitializeHash : simpl never.
#[local] Arguments WalletUtils.signInitialization : simpl never.
#[local] Arguments ViemCalls.encodeFunctionData : simpl never.
#[local] Arguments WalletAccounts.getRelayerWalletClient : simpl never.
#[local] Arguments WalletAccounts.createEOAClient : simpl never.
#[local] Arguments WalletAccounts.createEOAWallet : simpl never.
#[local] Arguments formatError : simpl never.
#[local] Arguments String.eqb : simpl never.

Ltac runs world :=
  unfold handleCreateEOA, handleUpgradeWallet, report, of_completion, lift,
    await, act, JsVal.truthy_string;
  repeat step world.

Section Component.

Variable useAnvil : bool.
Variable RELAYER_PRIVATE_KEY : option string.
Variable privateKeyToAddress : string -> Completion string.
Variable secp256k1_sign : Signer.
Variable EIP7702ProxyAddresses_anvil : string.
Variable EIP7702ProxyAddresses_baseSepolia : string.

Let create : P unit := handleCreateEOA privateKeyToAddress.

Let upgrade (account : option WalletUtils.LocalAccount) : P unit :=
  handleUpgradeWallet useAnvil RELAYER_PRIVATE_KEY privateKeyToAddress
    secp256k1_sign EIP7702ProxyAddresses_anvil
    EIP7702ProxyAddresses_baseSepolia account.

Let events (p : P unit) (world : Oracle Ext) : list Event :=
  trace ev_op observe p world 0.

(** X17. Creating a wallet never throws and leaves [loading] false.
    Either the random source answered and the key it gave has an
    address: then the account made from these bytes is stored and its
    address, and only it, is announced through [onWalletCreated], and
    no error is set; or the error "Failed to create EOA wallet" is set,
    the stored account is untouched and nothing is announced. *)
Theorem create_announces_the_stored_wallet
    (world : Oracle Ext) (st : State) :
  let st' := final apply_op create world 0 st in
  result create world 0 = Normal tt
  /\ loading st' = false
  /\ ((exists randomBytes account,
          world _ 0 (getRandomValues 32) = Normal randomBytes
          /\ WalletAccounts.createEOAWallet privateKeyToAddress randomBytes
             = Normal account
          /\ WalletManager.account st' = Some account
          /\ error st' = None
          /\ filter (fun e => match e with
                              | ev_op (onWalletCreated _) => true
                              | _ => false
                              end) (events create world)
             = [ev_op (onWalletCreated (WalletUtils.address account))])
      \/ (WalletManager.account st' = WalletManager.account st
          /\ error st' = Some "Failed to create EOA wallet"
          /\ filter (fun e => match e with
                              | ev_op (onWalletCreated _) => true
                              | _ => false
                              end) (events create world)
             = [])).
Proof.
  unfold create, events. runs world.
  all: split; [reflexivity|]; split; [reflexivity|].
  all: first [ right; repeat split; reflexivity
             | left; eexists _, _; repeat split; eauto ].
Qed.

(** X18. The upgrade is reported complete only on deployed code: if
    [onUpgradeComplete] is called, it is called for the account's own
    address with the hash the relayer's wallet answered to the
    transaction, after the receipt of that hash was awaited and the
    code at the address was read and found to be neither absent, nor
    empty, nor "0x"; [setIsUpgraded(true)] follows and nothing but the
    two resets of [loading] comes after. The receipt's status plays no
    part. Both reads are made on the local Anvil chain, whatever
    [useAnvil] says. *)
Theorem upgrade_completes_only_on_deployed_code
    (account : WalletUtils.LocalAccount) (world : Oracle Ext)
    (address txHash : string) :
  In (ev_op (onUpgradeComplete address txHash))
    (events (upgrade (Some account)) world) ->
  address = WalletUtils.address account
  /\ exists before relayer tx receipt code,
       events (upgrade (Some account)) world
       = before
           ++ [ev_sendTransaction relayer tx (Normal txHash);
               ev_waitForTransactionReceipt WalletAccounts.localAnvil
                 txHash (Normal receipt);
               ev_getCode WalletAccounts.localAnvil
                 (WalletUtils.address account) (Normal (Some code));
               ev_op (onUpgradeComplete (WalletUtils.address account)
                        txHash);
               ev_op (setIsUpgraded true);
               ev_op (setLoading false);
               ev_op (setLoading false)]
       /\ code <> "" /\ code <> "0x".
Proof.
  revert address txHash. unfold upgrade, events. runs world.
  all: intros address txHash Hin; cbn in Hin.
  all: repeat match goal with
              | H : _ \/ _ |- _ => destruct H as [H|H]
              | H : False |- _ => destruct H
              | H : _ = ev_op (onUpgradeComplete _ _) |- _ =>
                  first [ discriminate H | inversion H; clear H; subst ]
              end.
  all: split; [reflexivity|].
  all: eexists [_; _; _], _, _, _, _; split; [reflexivity|].
  all: split; intros ->; discriminate.
Qed.

(** X19. The one transaction of an upgrade is shaped by the handler:
    it is sent by the relayer's wallet to the account itself, with the
    value 0.0001 ether and a gas limit of 1000000; its authorization
    list is the one authorization the user's wallet signed for the
    proxy with the relayer as sponsor; its data is the call
    [initialize(initArgs, signature)] where [initArgs] encodes the
    relayer's address as the only owner and [signature] is what the
    user's wallet gave for the initialization hash of the proxy and
    these arguments. No second transaction is sent. *)
Theorem upgrade_transaction_installs_the_relayer
    (account : WalletUtils.LocalAccount) (world : Oracle Ext)
    (sender : WalletAccounts.Client) (tx : TransactionRequest)
    (answer : Completion string) :
  In (ev_sendTransaction sender tx answer)
    (events (upgrade (Some account)) world) ->
  let userWallet := WalletAccounts.createEOAClient account useAnvil in
  let proxyAddress :=
    if useAnvil then EIP7702ProxyAddresses_anvil
    else EIP7702ProxyAddresses_baseSepolia in
  exists relayer initArgs hash signature authorization,
    WalletAccounts.getRelayerWalletClient privateKeyToAddress
      RELAYER_PRIVATE_KEY useAnvil = Normal sender
    /\ relayer
       = WalletUtils.address
           (WalletUtils.account (WalletAccounts.wallet sender))
    /\ WalletUtils.encodeInitializeArgs relayer = Some initArgs
    /\ WalletUtils.createInitializeHash proxyAddress initArgs = Some hash
    /\ WalletUtils.signInitialization secp256k1_sign
         (WalletAccounts.wallet userWallet) hash = Some signature
    /\ ViemCalls.encodeFunctionData "initialize" [t_bytes; t_bytes]
         [a_hex initArgs; a_hex signature] = Some (data tx)
    /\ to tx = WalletUtils.address account
    /\ value tx = 100000000000000%Z
    /\ gas tx = 1000000%Z
    /\ authorizationList tx = [authorization]
    /\ In (ev_signAuthorization userWallet proxyAddress relayer
             (Normal authorization))
         (events (upgrade (Some account)) world)
    /\ List.length
         (filter (fun e => match e with
                           | ev_sendTransaction _ _ _ => true
                           | _ => false
                           end) (events (upgrade (Some account)) world))
       = 1.
Proof.
  revert sender tx answer. unfold upgrade, events. runs world.
  all: intros sender tx answer Hin; cbn in Hin.
  all: repeat match goal with
              | H : _ \/ _ |- _ => destruct H as [H|H]
              | H : False |- _ => destruct H
              | H : _ = ev_sendTransaction _ _ _ |- _ =>
                  first [ discriminate H | inversion H; clear H; subst ]
              end.
  all: do 5 eexists.
  all: repeat (split; [first [recorded | reflexivity]|]).
  all: split; [cbn; auto 8 | reflexivity].
Qed.

Lemma relayer_client_throws_formatted :
  throws_are_formatted privateKeyToAddress ->
  forall error,
    WalletAccounts.getRelayerWalletClient privateKeyToAddress
      RELAYER_PRIVATE_KEY useAnvil = Abrupt error ->
    formatError error <> None.
Proof.
  intros Hkey error.
  unfold WalletAccounts.getRelayerWalletClient,
    WalletAccounts.privateKeyToAccount.
  destruct useAnvil; cbn [Exn.bind].
  - destruct (privateKeyToAddress _) as [a|e] eqn:E; cbn [Exn.bind];
      intros H; inversion H; subst. exact (Hkey _ _ E).
  - destruct (negb (JsVal.truthy_string RELAYER_PRIVATE_KEY));
      cbn [Exn.bind].
    + intros H; inversion H; subst.
      rewrite formatError_new_Error. discriminate.
    + destruct (privateKeyToAddress _) as [a|e] eqn:E; cbn [Exn.bind];
        intros H; inversion H; subst. exact (Hkey _ _ E).
Qed.

(** X20. An upgrade ends upgraded or with an error. When [formatError]
    returns on whatever is thrown or rejected, the handler does not
    throw, leaves [loading] false and ends in one of two ways: the
    upgrade was reported and [isUpgraded] is set, with no error; or an
    error text that starts with "Failed to upgrade wallet: " is set,
    [isUpgraded] is as it was and nothing was reported. Without an
    account the handler does nothing. *)
Theorem upgrade_ends_upgraded_or_with_an_error
    (account : WalletUtils.LocalAccount) (world : Oracle Ext) (st : State) :
  rejections_are_formatted world ->
  throws_are_formatted privateKeyToAddress ->
  let st' := final apply_op (upgrade (Some account)) world 0 st in
  result (upgrade (Some account)) world 0 = Normal tt
  /\ loading st' = false
  /\ ((isUpgraded st' = true /\ error st' = None
       /\ exists txHash,
            In (ev_op (onUpgradeComplete (WalletUtils.address account)
                         txHash))
              (events (upgrade (Some account)) world))
      \/ (exists text, error st' = Some text
                       /\ startsWith text "Failed to upgrade wallet: " = true)
         /\ isUpgraded st' = isUpgraded st
         /\ forall address txHash,
              ~ In (ev_op (onUpgradeComplete address txHash))
                  (events (upgrade (Some account)) world))
  /\ events (upgrade None) world = []
  /\ final apply_op (upgrade None) world 0 st = st.
Proof.
  intros Hworld Hkey. unfold upgrade, events.
  pose proof (relayer_client_throws_formatted Hkey) as Hclient.
  runs world.
  all: repeat match goal with
              | H : formatError (Exn.new_Error _) = None |- _ =>
                  rewrite formatError_new_Error in H; discriminate H
              | H : formatError Exn.TypeError = None |- _ =>
                  unfold Exn.TypeError in H;
                  rewrite formatError_new_Error in H; discriminate H
              | H : formatError (Exn.thrown_by _) = None |- _ =>
                  unfold Exn.thrown_by in H;
                  rewrite formatError_new_Error in H; discriminate H
              | H : formatError ?e = None,
                Hc : forall error : Thrown, Abrupt ?e = Abrupt error -> _
                |- _ =>
                  now destruct (Hc _ eq_refl)
              | H : formatError ?e = None, W : _ = Abrupt ?e |- _ =>
                  now destruct (Hworld _ _ _ _ W)
              end.
  all: split; [reflexivity|]; split; [reflexivity|].
  all: split; [|split; reflexivity].
  all: first
         [ left; split; [reflexivity|]; split; [reflexivity|];
           eexists; cbn; auto 10
         | right; split;
           [ eexists; split; [reflexivity|];
             match goal with
             | H : formatError _ = Some _ |- _ =>
                 exact (formatError_prefix _ _ H)
             end
           | split; [reflexivity|];
             intros address txHash Hin; cbn in Hin;
             repeat match goal with
                    | H : _ \/ _ |- _ => destruct H as [H|H]
                    | H : False |- _ => destruct H
                    | H : _ = ev_op (onUpgradeComplete _ _) |- _ =>
                        discriminate H
                    end ] ].
Qed.

End Component.

Lemma upgrade_completes_only_on_deployed_code_witness :
  Contracts.ZERO_ADDRESS = Contracts.ZERO_ADDRESS
  /\ exists before relayer tx receipt code,
       trace ev_op observe
         (handleUpgradeWallet true None (fun _ => Normal Contracts.ZERO_ADDRESS)
            constant_signer Contracts.EIP7702PROXY_TEMPLATE_ADDRESS
            Contracts.EIP7702PROXY_TEMPLATE_ADDRESS
            (Some (WalletUtils.mkLocalAccount Contracts.ZERO_ADDRESS one_key)))
         upgraded_chain 0
       = before
           ++ [ev_sendTransaction relayer tx (Normal "0xabc");
               ev_waitForTransactionReceipt WalletAccounts.localAnvil
                 "0xabc" (Normal receipt);
               ev_getCode WalletAccounts.localAnvil Contracts.ZERO_ADDRESS
                 (Normal (Some code));
               ev_op (onUpgradeComplete Contracts.ZERO_ADDRESS "0xabc");
               ev_op (setIsUpgraded true);
               ev_op (setLoading false);
               ev_op (setLoading false)]
       /\ code <> "" /\ code <> "0x".
Proof.
  apply (upgrade_completes_only_on_deployed_code
           true None (fun _ => Normal Contracts.ZERO_ADDRESS)
           constant_signer Contracts.EIP7702PROXY_TEMPLATE_ADDRESS
           Contracts.EIP7702PROXY_TEMPLATE_ADDRESS
           (WalletUtils.mkLocalAccount Contracts.ZERO_ADDRESS one_key)
           upgraded_chain Contracts.ZERO_ADDRESS "0xabc").
  vm_compute. auto 10.
Defined.

Lemma upgrade_transaction_installs_the_relayer_witness :
  exists initArgs hash signature,
    WalletUtils.encodeInitializeArgs Contracts.ZERO_ADDRESS = Some initArgs
    /\ WalletUtils.createInitializeHash
         Contracts.EIP7702PROXY_TEMPLATE_ADDRESS initArgs = Some hash
    /\ WalletUtils.signInitialization constant_signer
         (WalletAccounts.wallet
            (WalletAccounts.createEOAClient
               (WalletUtils.mkLocalAccount Contracts.ZERO_ADDRESS one_key)
               true)) hash
       = Some signature.
Proof.
  pose (account := WalletUtils.mkLocalAccount Contracts.ZERO_ADDRESS one_key).
  pose (run :=
          handleUpgradeWallet true None
            (fun _ => Normal Contracts.ZERO_ADDRESS) constant_signer
            Contracts.EIP7702PROXY_TEMPLATE_ADDRESS
            Contracts.EIP7702PROXY_TEMPLATE_ADDRESS (Some account)).
  destruct (upgrade_transaction_installs_the_relayer
              true None (fun _ => Normal Contracts.ZERO_ADDRESS)
              constant_signer Contracts.EIP7702PROXY_TEMPLATE_ADDRESS
              Contracts.EIP7702PROXY_TEMPLATE_ADDRESS account upgraded_chain
              {| WalletAccounts.wallet :=
                   WalletUtils.mkWalletClient
                     (WalletUtils.mkLocalAccount Contracts.ZERO_ADDRESS
                        WalletAccounts.ANVIL_RELAYER_PRIVATE_KEY);
                 WalletAccounts.chain := WalletAccounts.localAnvil;
                 WalletAccounts.key := None |}
              (nth 0
                 (flat_map (fun e => match e with
                                     | ev_sendTransaction _ tx _ => [tx]
                                     | _ => []
                                     end)
                    (trace ev_op observe run upgraded_chain 0))
                 (mkTransactionRequest "" 0 "" [] 0))
              (Normal "0xabc")
              ltac:(vm_compute; auto 10))
    as (relayer & initArgs & hash & signature & authorization
        & _ & Hr & Hi & Hh & Hs & _).
  cbn in Hr. subst relayer.
  exists initArgs, hash, signature. repeat split; assumption.
Defined.

Lemma upgrade_ends_upgraded_or_with_an_error_witness :
  loading
    (final apply_op
       (handleUpgradeWallet true None (fun _ => Normal Contracts.ZERO_ADDRESS)
          constant_signer Contracts.EIP7702PROXY_TEMPLATE_ADDRESS
          Contracts.EIP7702PROXY_TEMPLATE_ADDRESS
          (Some (WalletUtils.mkLocalAccount Contracts.ZERO_ADDRESS one_key)))
       upgraded_chain 0
       {| loading := false; error := None; account := None;
          isUpgraded := false |})
  = false.
Proof.
  refine (proj1 (proj2 (upgrade_ends_upgraded_or_with_an_error
                          true None (fun _ => Normal Contracts.ZERO_ADDRESS)
                          constant_signer
                          Contracts.EIP7702PROXY_TEMPLATE_ADDRESS
                          Contracts.EIP7702PROXY_TEMPLATE_ADDRESS
                          (WalletUtils.mkLocalAccount Contracts.ZERO_ADDRESS
                             one_key)
                          upgraded_chain
                          {| loading := false; error := None;
                             account := None; isUpgraded := false |}
                          _ _))).
  - intros R n c error H. destruct c; discriminate H.
  - intros a error H. discriminate H.
Defined.

End WalletManagerFacts.

(* ================================================================== *)
(** * scripts/upgrade-wallet.ts: the script *)
(* ================================================================== *)

Module UpgradeMainFacts.

Import Js Viem Task TaskFacts UpgradeMain Observed Spec.

#[local] Arguments UpgradeScript.encodeInitializeArgs : simpl never.
#[local] Arguments UpgradeScript.createInitializeHash : simpl never.
#[local] Arguments UpgradeScript.signInitialization : simpl never.
#[local] Arguments UpgradeAccounts.createRandomEOAWallet : simpl never.
#[local] Arguments UpgradeAccounts.createEOAClient : simpl never.
#[local] Arguments WalletAccounts.privateKeyToAccount : simpl never.
#[local] Arguments JsVal.prop : simpl never.
#[local] Arguments JsVal.is_string : simpl never.
#[local] Arguments JsVal.truthy : simpl never.
#[local] Arguments String.eqb : simpl never.

Ltac runs world :=
  unfold main, main_try, of_completion, lift, await, act,
    JsVal.truthy_string;
  repeat step world.

Section Script.

Variable privateKeyToAddress : string -> Completion string.
Variable secp256k1_sign : Signer.

Let script : P unit := main privateKeyToAddress secp256k1_sign.

Let events (world : Oracle Ext) : list Event :=
  trace ev_op observe script world 0.

(** X21. The script initializes only an upgraded account: every
    contract write of a run is the call of [initialize] on the account
    made in this run, sent by the relayer's client, with the encoded
    relayer address as [initArgs] and the signature the account's key
    gave for the initialization hash; and before it the upgrade
    transaction was answered, its receipt was fetched and its status
    could be read, and the code at the account was read and found to be
    neither absent, nor empty, nor "0x". *)
Theorem script_initializes_only_deployed_code
    (world : Oracle Ext) (sender : UpgradeScript.WalletClient)
    (address functionName : string) (args : list string)
    (answer : Completion string) :
  In (ev_writeContract sender address functionName args answer)
    (events world) ->
  exists bytes account relayer initArgs initHash signature
         before authorization hash receipt code after,
    UpgradeAccounts.createRandomEOAWallet privateKeyToAddress bytes
    = Normal account
    /\ WalletAccounts.privateKeyToAccount privateKeyToAddress
         UpgradeAccounts.RELAYER_privateKey
       = Normal relayer
    /\ sender
       = UpgradeAccounts.createEOAClient
           {| UpgradeScript.address := WalletUtils.address relayer;
              UpgradeScript._privateKey :=
                UpgradeAccounts.RELAYER_privateKey |} true
    /\ address = UpgradeScript.address account
    /\ functionName = "initialize"
    /\ args = [initArgs; signature]
    /\ UpgradeScript.encodeInitializeArgs (WalletUtils.address relayer)
       = Some initArgs
    /\ UpgradeScript.createInitializeHash UpgradeScript.PROXY_ADDRESS
         initArgs = Some initHash
    /\ UpgradeScript.signInitialization secp256k1_sign
         (UpgradeAccounts.createEOAClient account true) initHash
       = Some signature
    /\ events world
       = before
           ++ [ev_sendTransaction sender
                 {| to := address;
                    value := 100000000000000;
                    authorizationList := [authorization] |}
                 (Normal hash);
               ev_getTransactionReceipt hash (Normal receipt);
               ev_getCode address (Normal (Some code));
               ev_writeContract sender address functionName args answer]
           ++ after
    /\ code <> "" /\ code <> "0x".
Proof.
  revert sender address functionName args answer. unfold events, script.
  runs world.
  all: intros sender address functionName args answer Hin; cbn in Hin.
  all: repeat match goal with
              | H : _ \/ _ |- _ => destruct H as [H|H]
              | H : False |- _ => destruct H
              | H : _ = ev_writeContract _ _ _ _ _ |- _ =>
                  first [ discriminate H | inversion H; clear H; subst ]
              end.
  all: eexists _, _, _, _, _, _, [_; _], _, _, _, _, _.
  all: repeat (split; [first [recorded | reflexivity]|]).
  all: split; intros ->; discriminate.
Qed.

Lemma prop_throws (key : string) (error : Thrown) :
  Exn.prop key error = None ->
  error = ThrownValue JNull \/ error = ThrownValue JUndefined.
Proof.
  destruct error as [message properties|[]]; cbn; auto; discriminate.
Qed.

Lemma account_throws_values :
  throws_values privateKeyToAddress ->
  throws_values (WalletAccounts.privateKeyToAccount privateKeyToAddress).
Proof.
  intros Hkey privateKey error.
  unfold WalletAccounts.privateKeyToAccount, Exn.bind.
  destruct (privateKeyToAddress privateKey) eqn:H; [discriminate|].
  intros He. inversion He; subst. exact (Hkey _ _ H).
Qed.

Lemma wallet_throws_values :
  throws_values privateKeyToAddress ->
  throws_values (UpgradeAccounts.createRandomEOAWallet privateKeyToAddress).
Proof.
  intros Hkey bytes error.
  unfold UpgradeAccounts.createRandomEOAWallet, Exn.bind.
  destruct (WalletAccounts.privateKeyToAccount _ _) eqn:H; [discriminate|].
  intros He. inversion He; subst.
  exact (account_throws_values Hkey _ _ H).
Qed.

(** X22. The script ends verified or exits. Provided nothing it calls
    throws [null] or [undefined], [main] never throws, and a run ends
    in one of two ways. Either its last act is [process.exit(1)]; or
    it never exits, and then its last two calls are the wait for the
    receipt of the initialization, whose status was "success", and the
    read of [isOwnerAddress] for the relayer on the account, which
    answered with a value that counts as true. *)
Theorem script_ends_verified_or_exits
    (world : Oracle Ext) :
  rejections_are_values world ->
  throws_values privateKeyToAddress ->
  result script world 0 = Normal tt
  /\ ((exists before, events world = before ++ [ev_op (process_exit 1)])
      \/ (exists before initTxnHash initReceipt status address relayer
                 isOwner,
             events world
             = before
                 ++ [ev_waitForTransactionReceipt initTxnHash
                       (Normal initReceipt);
                     ev_readContract address "isOwnerAddress" [relayer]
                       (Normal isOwner)]
             /\ JsVal.prop "status" initReceipt = Some status
             /\ JsVal.is_string status "success" = true
             /\ JsVal.truthy isOwner = true
             /\ ~ In (ev_op (process_exit 1)) (events world))).
Proof.
  intros Hworld Hkey. unfold events, script.
  pose proof (wallet_throws_values Hkey) as Hwallet.
  pose proof (account_throws_values Hkey) as Haccount.
  runs world.
  all: try match goal with
           | H : Exn.prop _ ?e = None, Hthrown : _ = Abrupt ?e |- _ =>
               exfalso; apply prop_throws in H;
               first [ destruct (Hworld _ _ _ _ Hthrown) as [Hn Hu]
                     | destruct (Hwallet _ _ Hthrown) as [Hn Hu]
                     | destruct (Haccount _ _ Hthrown) as [Hn Hu] ];
               destruct H; contradiction
           end.
  all: split; [reflexivity|].
  all: first
         [ left;
           match goal with
           | |- exists before, ?tr = _ => exists (removelast tr); reflexivity
           end
         | right;
           match goal with
           | |- exists before, _ => eexists [_; _; _; _; _; _]
           end;
           do 6 eexists; split; [reflexivity|];
           split; [eassumption|]; split; [assumption|];
           split;
           [ match goal with
             | H : negb (JsVal.truthy ?v) = false |- _ =>
                 now destruct (JsVal.truthy v)
             end
           | cbn; intros Hin;
             repeat match goal with
                    | H : _ \/ _ |- _ => destruct H as [H|H]
                    | H : False |- _ => destruct H
                    | H : _ = ev_op (process_exit 1) |- _ => discriminate H
                    end ] ].
Qed.

End Script.

Lemma script_ends_verified_or_exits_witness :
  result (main (fun _ => Normal Contracts.ZERO_ADDRESS) constant_signer)
    scripted_chain 0
  = Normal tt.
Proof.
  refine (proj1 (script_ends_verified_or_exits
                   (fun _ => Normal Contracts.ZERO_ADDRESS) constant_signer
                   scripted_chain _ _)).
  - intros R n c error H. destruct c; discriminate H.
  - intros a error H. discriminate H.
Defined.

Lemma script_initializes_only_deployed_code_witness :
  exists initArgs initHash,
    UpgradeScript.encodeInitializeArgs Contracts.ZERO_ADDRESS = Some initArgs
    /\ UpgradeScript.createInitializeHash UpgradeScript.PROXY_ADDRESS
         initArgs = Some initHash.
Proof.
  pose (run := main (fun _ => Normal Contracts.ZERO_ADDRESS) constant_signer).
  pose (writes :=
          flat_map (fun e => match e with
                             | ev_writeContract _ _ _ args _ => [args]
                             | _ => []
                             end)
            (trace ev_op observe run scripted_chain 0)).
  destruct (script_initializes_only_deployed_code
              (fun _ => Normal Contracts.ZERO_ADDRESS) constant_signer
              scripted_chain
              (UpgradeAccounts.createEOAClient
                 {| UpgradeScript.address := Contracts.ZERO_ADDRESS;
                    UpgradeScript._privateKey :=
                      UpgradeAccounts.RELAYER_privateKey |} true)
              Contracts.ZERO_ADDRESS "initialize" (nth 0 writes [])
              (Normal "0xdef")
              ltac:(vm_compute; auto 10))
    as (bytes & account & relayer & initArgs & initHash & signature
        & before & authorization & hash & receipt & code & after
        & Ha & Hr & _ & _ & _ & _ & Hi & Hh & Hs & _).
  inversion Hr; subst relayer.
  exists initArgs, initHash. split; assumption.
Defined.

End UpgradeMainFacts.

(* ================================================================== *)
(** * Blocks that catch and blocks that clean up *)
(* ================================================================== *)

Module AsyncFacts.

Import Async.

Section Programs.

Context {Ext : Type -> Type} {Op : Type}.
Context {Event State : Type}.
Variable observe_op : Op -> Event.
Variable observe_call : forall R : Type, Ext R -> Outcome R -> Event.
Variable apply_op : Op -> State -> State.

(** A [try] whose handler only updates the state ends normally. *)
Lemma result_try_catch_update (p : Prog Ext Op unit) (handler : string -> Op)
    (world : Oracle Ext) :
  forall tick,
    result (try_catch p (fun message => act (handler message))) world tick
    = Done tt.
Proof.
  induction p as [[]|message|op k IH|R c k IH]; intros tick; cbn; auto.
Qed.

(** A [finally] block that only updates the state does not change how
    the block it guards ends, and its update is the last of the run. *)
Lemma result_finally_update {A} (p : Prog Ext Op A) (op : Op)
    (world : Oracle Ext) :
  forall tick,
    result (finally p (act op)) world tick = result p world tick.
Proof.
  induction p as [a|message|op' k IH|R c k IH]; intros tick; cbn; auto.
Qed.

Lemma final_finally_update {A} (p : Prog Ext Op A) (op : Op)
    (world : Oracle Ext) :
  forall tick st,
    final apply_op (finally p (act op)) world tick st
    = apply_op op (final apply_op p world tick st).
Proof.
  induction p as [a|message|op' k IH|R c k IH]; intros tick st; cbn; auto.
Qed.

Lemma trace_finally_update {A} (p : Prog Ext Op A) (op : Op)
    (world : Oracle Ext) :
  forall tick,
    trace observe_op observe_call (finally p (act op)) world tick
    = trace observe_op observe_call p world tick ++ [observe_op op].
Proof.
  induction p as [a|message|op' k IH|R c k IH]; intros tick; cbn;
    try reflexivity; now rewrite IH.
Qed.

End Programs.

End AsyncFacts.

(* ================================================================== *)
(** * The verification component *)
(* ================================================================== *)

Module VerificationFacts.

Import Js Async PasskeyVerification PasskeyViews RecoverySpec Observed
  AsyncFacts OrderFacts.

#[local] Arguments WalletUtils.createSetImplementationHash : simpl never.
#[local] Arguments slot_address : simpl never.
#[local] Arguments JsVal.prop : simpl never.
#[local] Arguments JsVal.truthy : simpl never.
#[local] Arguments Z.eqb : simpl never.
#[local] Arguments Z.ltb : simpl never.

Ltac scrutinee x :=
  lazymatch x with
  | context [match ?y with _ => _ end] => scrutinee y
  | _ => x
  end.

(** One step of a run: compute, or split on the next answer of the
    world or on the next test of the handler. *)
Ltac step world :=
  first
    [ progress cbn
    | match goal with
      | |- context [world ?R ?n ?c] => destruct (world R n c) eqn:?
      | |- context [match ?x with _ => _ end] =>
          let y := scrutinee x in destruct y eqn:?
      end ].

Ltac runs world :=
  unfold events, log, handleVerify, handleVerify_try, handleRecover,
    handleRecover_try, repair_delegate, repair_implementation, checkState,
    waitForTransaction, json_field, of_outcome, lift, await, act,
    JsVal.truthy_string;
  repeat step world.

(** The runs of a handler, for a statement about its events and its
    final state: the statement is put aside while the handler runs. *)
Ltac observed_runs world tr st' :=
  pattern tr, st';
  lazymatch goal with
  | |- ?statement tr st' =>
      let Q := fresh "Q" in
      let HQ := fresh "HQ" in
      set (Q := statement);
      assert (HQ : forall l s, statement l s -> Q l s)
        by (intros ? ? H; exact H);
      clearbody Q;
      subst tr st';
      runs world;
      apply HQ; cbv beta
  end.

Section Component.

Variables smartWalletAddress passkey : string.
Variable useAnvil : bool.
Variable odysseyTestnet_id : Z.
Variable NEW_IMPLEMENTATION_ADDRESS : string.
Variables EntryPointAddress RELAYER_ADDRESS : string.
Variable serializeBigInts : UserOperation -> JsValue.

Let verify (isDelegateDisrupted isImplementationDisrupted : bool) : P unit :=
  handleVerify smartWalletAddress passkey useAnvil isDelegateDisrupted
    isImplementationDisrupted EntryPointAddress RELAYER_ADDRESS
    serializeBigInts.

Let recover (isDelegateDisrupted isImplementationDisrupted : bool) : P unit :=
  handleRecover smartWalletAddress passkey useAnvil isDelegateDisrupted
    isImplementationDisrupted odysseyTestnet_id NEW_IMPLEMENTATION_ADDRESS.

(** The request that asks the relay to fund the account. *)
Let funding_request : JsValue :=
  JObject [("operation", JString "fund");
           ("targetAddress", JString smartWalletAddress);
           ("value", JString "1");
           ("useAnvil", JBool useAnvil)].

Let funding_update : StepUpdate :=
  {| u_status := Some "Funding smart account with 1 wei...";
     u_isComplete := Some false; u_txHash := None;
     u_userOpHash := None; u_error := None |}.

(** X23. On a disrupted account the button does nothing but open the
    recovery dialog: whichever of the two flags is set, [handleVerify]
    makes no call at all, leaves the step log and the other state as
    they are, and sets [showRecoveryModal]; the dialog the component
    then renders names the disrupted parts and offers "Cancel" and
    "Restore Account". The later dialog, rendered from the same two
    flags without an ownership flag, offers the recovery as well. *)
Theorem disrupted_account_only_opens_the_dialog
    (isDelegateDisrupted isImplementationDisrupted : bool)
    (world : Oracle Ext) (st : State) :
  isDelegateDisrupted || isImplementationDisrupted = true ->
  let run := verify isDelegateDisrupted isImplementationDisrupted in
  let st' := final apply_op run world 0 st in
  events run world = [ev_op (setShowRecoveryModal true)]
  /\ result run world 0 = Done tt
  /\ st' = {| verifying := verifying st; steps := steps st;
              isVerified := isVerified st; showRecoveryModal := true |}
  /\ recoveryModal isDelegateDisrupted isImplementationDisrupted st'
     = Some {| RecoveryModalEarlier.issues :=
                 String.concat " and "
                   ((if isDelegateDisrupted
                     then ["incorrect delegate"] else [])
                      ++ (if isImplementationDisrupted
                          then ["incorrect implementation"] else []));
               RecoveryModalEarlier.buttons :=
                 [ {| RecoveryModalEarlier.label := "Cancel";
                      RecoveryModalEarlier.onClick :=
                        RecoveryModalEarlier.onClose |};
                   {| RecoveryModalEarlier.label := "Restore Account";
                      RecoveryModalEarlier.onClick :=
                        RecoveryModalEarlier.onRecover |} ] |}
  /\ RecoveryModal.offers_recovery
       (RecoveryModal.RecoveryModal (showRecoveryModal st')
          isDelegateDisrupted isImplementationDisrupted false false)
     = true.
Proof.
  intros H. unfold verify, handleVerify. rewrite H.
  destruct isDelegateDisrupted, isImplementationDisrupted;
    try discriminate H; cbn; repeat split.
Qed.

(** X24. Neither handler throws, and each gives the button back: a
    verification that proceeds and a recovery both end normally,
    however the calls they make are answered, and leave [verifying]
    false, so that the button reads "Transact using passkey" and is
    enabled again. The last event of either run is
    [setVerifying(false)]. *)
Theorem handlers_end_normally_and_release_the_button
    (isDelegateDisrupted isImplementationDisrupted : bool)
    (world : Oracle Ext) (st : State) :
  let ends (run : P unit) :=
    result run world 0 = Done tt
    /\ verifying (final apply_op run world 0 st) = false
    /\ button (final apply_op run world 0 st)
       = ("Transact using passkey", false)
    /\ exists before,
         events run world = before ++ [ev_op (setVerifying false)] in
  ends (verify false false)
  /\ ends (recover isDelegateDisrupted isImplementationDisrupted).
Proof.
  assert (Hends :
            forall (body : P unit) (failed : string -> Op),
              let run :=
                finally (try_catch body (fun m => act (failed m)))
                  (act (setVerifying false)) in
              result run world 0 = Done tt
              /\ verifying (final apply_op run world 0 st) = false
              /\ button (final apply_op run world 0 st)
                 = ("Transact using passkey", false)
              /\ exists before,
                   events run world = before ++ [ev_op (setVerifying false)]).
  { intros body failed run. unfold run, events, button.
    rewrite result_finally_update, result_try_catch_update.
    rewrite (final_finally_update apply_op).
    rewrite (trace_finally_update ev_op observe). cbn.
    repeat split. eexists. reflexivity. }
  split.
  - exact (Hends _ (fun errorMessage =>
                      addStep {| status := "Verification failed";
                                 isComplete := true;
                                 txHash := JUndefined;
                                 userOpHash := JUndefined;
                                 error := Some errorMessage |})).
  - exact (Hends _ (fun errorMessage =>
                      addStep {| status := "Recovery failed";
                                 isComplete := true;
                                 txHash := JUndefined;
                                 userOpHash := JUndefined;
                                 error := Some errorMessage |})).
Qed.

(** ** The runs of a verification *)

Ltac close_banner :=
  split;
  [ intros H; first [discriminate H | split; reflexivity]
  | intros deposit Hread Hmin;
    first
      [ discriminate Hread
      | inversion Hread; subst;
        first
          [ match goal with
            | H : (_ <? _)%Z = true |- _ => apply Z.ltb_lt in H; lia
            end
          | split;
            [reflexivity | intros H; first [discriminate H | reflexivity]] ] ] ].

Ltac close_funding :=
  split; [cbn; lia|];
  split;
  [ intros pre e Hloc;
    first
      [ discriminate Hloc
      | inversion Hloc; subst;
        match goal with
        | H : (?z =? 0)%Z = true |- _ => apply Z.eqb_eq in H; subst z
        end;
        do 3 eexists; split; reflexivity ]
  | intros balance Hread;
    first
      [ discriminate Hread
      | inversion Hread; subst;
        match goal with
        | H : (_ =? 0)%Z = _ |- _ => rewrite H
        end;
        reflexivity ] ].

Ltac close_operation :=
  split; [cbn; lia|];
  intros pre e Hloc;
  first
    [ discriminate Hloc
    | inversion Hloc; subst;
      do 7 eexists; split; reflexivity ].

Lemma verification_paths (world : Oracle Ext) (st : State) :
  let run := verify false false in
  let tr := events run world in
  let st' := final apply_op run world 0 st in
  ((success_banner st' = true ->
    existsb (fetches "/api/verify-passkey/deposit") tr = true
    /\ List.length (steps st') = 5)
   /\ (forall deposit,
          nth_error tr 4
          = Some (ev_readContract EntryPointAddress "balanceOf"
                    [smartWalletAddress] (Returned deposit)) ->
          (MIN_DEPOSIT <= deposit)%Z ->
          success_banner st' = false
          /\ (isVerified st' = true ->
              map (fun step => (status step, isComplete step)) (steps st')
              = [("Smart account balance verified", true);
                 ("Creating and signing userOp to transfer 1 wei to relayer...",
                  false);
                 ("Submitting userOperation...", false);
                 ("Retrieving unused deposit...", false)])))
  /\ (List.length (filter (fetches "/api/relay") tr) <= 1
      /\ (forall pre e,
             locate (fetches "/api/relay") tr = Some (pre, e) ->
             exists owner deposit answer,
               pre = [ev_op (setVerifying true); ev_op setSteps_empty;
                      ev_op (setIsVerified false);
                      ev_toWebAuthnAccount passkey (Returned owner);
                      ev_readContract EntryPointAddress "balanceOf"
                        [smartWalletAddress] (Returned deposit);
                      ev_op (addStep (new_step
                                        "Checking smart account balance..."
                                        false));
                      ev_getBalance smartWalletAddress (Returned 0%Z);
                      ev_op (updateStep 0 funding_update)]
               /\ e = ev_fetch "/api/relay" funding_request answer)
      /\ (forall balance,
             nth_error tr 6
             = Some (ev_getBalance smartWalletAddress (Returned balance)) ->
             existsb (fetches "/api/relay") tr = (balance =? 0)%Z))
  /\ (List.length (filter (fetches "/api/verify-passkey/submit") tr) <= 1
      /\ (forall pre e,
             locate (fetches "/api/verify-passkey/submit") tr
             = Some (pre, e) ->
             exists nextOwnerIndex owner account callData nonce signature
                    answer,
               pre = firstn (List.length pre - 7) pre ++
                     [ev_readContract smartWalletAddress "nextOwnerIndex" []
                        (Returned nextOwnerIndex);
                      ev_toCoinbaseSmartAccount owner smartWalletAddress
                        (Number_of_BigInt (nextOwnerIndex - 1)) (Returned account);
                      ev_encodeCalls account RELAYER_ADDRESS 1 "0x"
                        (Returned callData);
                      ev_getNonce account (Returned nonce);
                      ev_signUserOperation account
                        (user_operation account callData nonce "0x")
                        (Returned signature);
                      ev_op (updateStep 2
                               {| u_status :=
                                    Some "UserOperation created and signed";
                                  u_isComplete := Some true;
                                  u_txHash := None; u_userOpHash := None;
                                  u_error := None |});
                      ev_op (addStep (new_step "Submitting userOperation..."
                                        false))]
               /\ e = ev_fetch "/api/verify-passkey/submit"
                        (JObject
                           [("userOp",
                             serializeBigInts
                               (user_operation account callData nonce
                                  signature));
                            ("useAnvil", JBool useAnvil)])
                        answer)).
Proof.
  intros run tr st'. subst run. unfold verify in tr, st'.
  observed_runs world tr st'.
  all: unfold success_banner, funding_request, funding_update,
    user_operation; cbn.
  all: split; [close_banner | split; [close_funding | close_operation]].
Qed.

(** X25. The success banner needs the pre-funding step. The banner is
    shown when [isVerified] is set and every entry of the step log is
    complete and without error; the entries are updated by fixed
    positions, which fit only a run that pre-funded the deposit. So a
    verification after which the banner shows has asked the deposit
    endpoint; and when the deposit read at the start was already
    sufficient, the banner does not show, and a run that went through
    to the end leaves the entries of the user operation, of its
    submission and of the retrieval incomplete. *)
Theorem success_banner_needs_the_prefunding_step
    (world : Oracle Ext) (st : State) :
  let run := verify false false in
  let st' := final apply_op run world 0 st in
  (success_banner st' = true ->
   existsb (fetches "/api/verify-passkey/deposit") (events run world) = true
   /\ List.length (steps st') = 5)
  /\ (forall deposit,
         nth_error (events run world) 4
         = Some (ev_readContract EntryPointAddress "balanceOf"
                   [smartWalletAddress] (Returned deposit)) ->
         (MIN_DEPOSIT <= deposit)%Z ->
         success_banner st' = false
         /\ (isVerified st' = true ->
             map (fun step => (status step, isComplete step)) (steps st')
             = [("Smart account balance verified", true);
                ("Creating and signing userOp to transfer 1 wei to relayer...",
                 false);
                ("Submitting userOperation...", false);
                ("Retrieving unused deposit...", false)])).
Proof.
  exact (proj1 (verification_paths world st)).
Qed.

(** X26. The account is funded with one wei, and only when it is
    empty. A verification asks the relay at most once; it does so
    exactly when the balance it read is zero; the request comes right
    after that read and asks for the operation "fund" of the value "1"
    to the account. The relay route serves this request by handing one
    transaction to the relayer's wallet: one wei to the account,
    without call data and without authorizations, whatever the
    [useAnvil] flag of the request says. *)
Theorem funding_sends_one_wei_to_an_empty_account
    (world : Oracle Ext) :
  let tr := events (verify false false) world in
  List.length (filter (fetches "/api/relay") tr) <= 1
  /\ (forall balance,
         nth_error tr 6
         = Some (ev_getBalance smartWalletAddress (Returned balance)) ->
         existsb (fetches "/api/relay") tr = (balance =? 0)%Z)
  /\ (forall pre body answer post,
         tr = pre ++ ev_fetch "/api/relay" body answer :: post ->
         body = funding_request
         /\ exists before,
              pre = before ++
                    [ev_getBalance smartWalletAddress (Returned 0%Z);
                     ev_op (updateStep 0 funding_update)])
  /\ (forall (implementation : string) (BigInt : JsValue -> option Z)
             (encodeFunctionData : Relay.FunctionCall -> option string)
             (message_of : Relay.Failure -> string)
             (wallet : Oracle Relay.Ext),
         BigInt (JString "1") = Some 1%Z ->
         let transaction :=
           {| Relay.to := JString smartWalletAddress;
              Relay.value := Some 1%Z;
              Relay.data := None;
              Relay.authorizationList := JUndefined |} in
         fst (Relay.serve implementation BigInt encodeFunctionData
                message_of (Returned funding_request) wallet)
         = [Relay.ev_sendTransaction transaction
              (wallet _ 0 (Relay.sendTransaction transaction))]).
Proof.
  intros tr.
  destruct (verification_paths world mounted)
    as (_ & (Hcount & Hctx & Hbalance) & _).
  split; [exact Hcount|]. split; [exact Hbalance|]. split.
  - intros pre body answer post Hsplit.
    pose proof (locate_unique (fetches "/api/relay") _ _ _ _ Hsplit eq_refl
                  Hcount) as Hloc.
    destruct (Hctx _ _ Hloc) as (owner & deposit & answer' & Hpre & He).
    inversion He; subst. split; [reflexivity|].
    eexists [_; _; _; _; _; _]. reflexivity.
  - intros implementation BigInt encodeFunctionData message_of wallet Hone
      transaction.
    subst transaction. lazy. rewrite Hone. lazy.
    destruct (wallet _ 0 _); reflexivity.
Qed.

(** X27. What is submitted is what was signed. Whenever a verification
    posts a user operation, the events just before are the read of the
    owner index, the construction of the account with the index before
    it, converted to a number as [Number] converts a big integer, the
    encoding of a transfer of one wei to the relayer, the read of the
    nonce and the signing, all answered within this run; the
    operation posted is the operation that was signed, with the
    signature the account answered in place of the empty one; and a
    verification posts at most one user operation. *)
Theorem submitted_operation_is_the_signed_one
    (world : Oracle Ext) (pre post : list Event) (body : JsValue)
    (answer : Outcome FetchResponse) :
  let tr := events (verify false false) world in
  tr = pre ++ ev_fetch "/api/verify-passkey/submit" body answer :: post ->
  List.length (filter (fetches "/api/verify-passkey/submit") tr) <= 1
  /\ exists before nextOwnerIndex owner account callData nonce signature,
       pre = before ++
             [ev_readContract smartWalletAddress "nextOwnerIndex" []
                (Returned nextOwnerIndex);
              ev_toCoinbaseSmartAccount owner smartWalletAddress
                (Number_of_BigInt (nextOwnerIndex - 1)) (Returned account);
              ev_encodeCalls account RELAYER_ADDRESS 1 "0x"
                (Returned callData);
              ev_getNonce account (Returned nonce);
              ev_signUserOperation account
                (user_operation account callData nonce "0x")
                (Returned signature);
              ev_op (updateStep 2
                       {| u_status := Some "UserOperation created and signed";
                          u_isComplete := Some true;
                          u_txHash := None; u_userOpHash := None;
                          u_error := None |});
              ev_op (addStep (new_step "Submitting userOperation..." false))]
       /\ body = JObject
                   [("userOp",
                     serializeBigInts
                       (user_operation account callData nonce signature));
                    ("useAnvil", JBool useAnvil)].
Proof.
  intros tr Hsplit.
  destruct (verification_paths world mounted)
    as (_ & _ & (Hcount & Hctx)).
  split; [exact Hcount|].
  pose proof (locate_unique (fetches "/api/verify-passkey/submit") _ _ _ _
                Hsplit eq_refl Hcount) as Hloc.
  destruct (Hctx _ _ Hloc)
    as (next & owner & account & callData & nonce & signature & answer'
        & Hpre & He).
  inversion He; subst body answer'.
  exists (firstn (List.length pre - 7) pre), next, owner, account, callData,
    nonce, signature.
  split; [exact Hpre | reflexivity].
Qed.

End Component.

(** The theorems at work on the zero address, in a world where every
    call succeeds. *)
Lemma disrupted_account_only_opens_the_dialog_witness :
  events
    (handleVerify Contracts.ZERO_ADDRESS "passkey" true true false
       Contracts.ENTRYPOINT_ADDRESS Contracts.ZERO_ADDRESS
       (fun operation => JString (signature operation)))
    obliging_world
  = [ev_op (setShowRecoveryModal true)].
Proof.
  exact (proj1 (disrupted_account_only_opens_the_dialog
                  Contracts.ZERO_ADDRESS "passkey" true
                  Contracts.ENTRYPOINT_ADDRESS Contracts.ZERO_ADDRESS
                  (fun operation => JString (signature operation))
                  true false obliging_world mounted eq_refl)).
Defined.

Lemma submitted_operation_is_the_signed_one_witness :
  exists account callData nonce signature,
    JObject [("userOp", JString "0x51"); ("useAnvil", JBool true)]
    = JObject [("userOp",
                JString
                  (PasskeyVerification.signature
                     (user_operation account callData nonce signature)));
               ("useAnvil", JBool true)].
Proof.
  destruct (submitted_operation_is_the_signed_one
              Contracts.ZERO_ADDRESS "passkey" true
              Contracts.ENTRYPOINT_ADDRESS Contracts.ZERO_ADDRESS
              (fun operation => JString (signature operation))
              obliging_world
              (firstn 22
                 (events
                    (handleVerify Contracts.ZERO_ADDRESS "passkey" true
                       false false Contracts.ENTRYPOINT_ADDRESS
                       Contracts.ZERO_ADDRESS
                       (fun operation => JString (signature operation)))
                    obliging_world))
              (skipn 23
                 (events
                    (handleVerify Contracts.ZERO_ADDRESS "passkey" true
                       false false Contracts.ENTRYPOINT_ADDRESS
                       Contracts.ZERO_ADDRESS
                       (fun operation => JString (signature operation)))
                    obliging_world))
              (JObject [("userOp", JString "0x51"); ("useAnvil", JBool true)])
              (obliging_world _ 0 (fetch "/api/verify-passkey/submit" JNull))
              eq_refl)
    as (_ & _ & _ & _ & account & callData & nonce & signature & _ & H).
  exists account, callData, nonce, signature. exact H.
Defined.

End VerificationFacts.

(* ================================================================== *)
(** * The end of a recovery *)
(* ================================================================== *)

Module CompletionFacts.

Import Js Async PasskeyVerification PasskeyViews RecoverySpec Observed
  OrderFacts VerificationFacts.

#[local] Arguments WalletUtils.createSetImplementationHash : simpl never.
#[local] Arguments slot_address : simpl never.
#[local] Arguments JsVal.truthy : simpl never.

Section Component.

Variables smartWalletAddress passkey : string.
Variable useAnvil : bool.
Variable odysseyTestnet_id : Z.
Variable NEW_IMPLEMENTATION_ADDRESS : string.

Let recover (isDelegateDisrupted isImplementationDisrupted : bool) : P unit :=
  handleRecover smartWalletAddress passkey useAnvil isDelegateDisrupted
    isImplementationDisrupted odysseyTestnet_id NEW_IMPLEMENTATION_ADDRESS.

(** The two requests of a recovery. *)
Let delegate_request : JsValue :=
  JObject [("operation", JString "resetDelegate");
           ("targetAddress", JString smartWalletAddress)].

Let implementation_request (signature : string) : JsValue :=
  JObject [("operation", JString "resetImplementation");
           ("targetAddress", JString smartWalletAddress);
           ("signature", JString signature)].

Let recovery_request (e : Event) : Prop :=
  exists body answer,
    e = ev_fetch "/api/relay" body answer
    /\ (body = delegate_request
        \/ exists signature, body = implementation_request signature).

Ltac close_completion :=
  intros pre e Hloc;
  first
    [ discriminate Hloc
    | inversion Hloc; subst; repeat (split; [reflexivity|]); reflexivity ].

Ltac close_failure :=
  intros H;
  first
    [ discriminate H
    | split; [reflexivity | eexists; reflexivity] ].

Ltac close_requests :=
  repeat
    (constructor;
     [ do 2 eexists; split;
       [ reflexivity
       | first [left; reflexivity | right; eexists; reflexivity] ]
     | ]);
  constructor.

Lemma recovery_paths (d i : bool) (world : Oracle Ext) (st : State) :
  let run := recover d i in
  let tr := events run world in
  let st' := final apply_op run world 0 st in
  List.length (filter reports_completion tr) <= 1
  /\ (forall pre e,
         locate reports_completion tr = Some (pre, e) ->
         List.length (filter submits_delegate pre) = (if d then 1 else 0)
         /\ List.length (filter submits_implementation pre)
            = (if i then 1 else 0)
         /\ List.length (filter confirms pre) = repairs d i
         /\ List.length (filter inspects pre) = repairs d i
         /\ tr = pre ++
                 [e; ev_op (setShowRecoveryModal false);
                  ev_op (addStep
                           (new_step "✓ Account recovered successfully"
                              true));
                  ev_op (setVerifying false)]
         /\ showRecoveryModal st' = false)
  /\ (existsb reports_completion tr = false ->
      showRecoveryModal st' = showRecoveryModal st
      /\ exists message,
           last (steps st') (new_step "" false) = failure_entry message)
  /\ Forall recovery_request (filter is_request tr).
Proof.
  intros run tr st'. subst run. unfold recover in tr, st'.
  destruct d, i; observed_runs world tr st'.
  all: unfold recovery_request, delegate_request, implementation_request,
    repairs, failure_entry; cbn.
  all: split; [lia|];
    split; [close_completion|]; split; [close_failure | close_requests].
Qed.


(** X29. The relay route does not serve a recovery. Every request a
    recovery sends goes to the relay and asks for the operation
    "resetDelegate" or "resetImplementation", with the address of the
    account and, for the second, the signature; the relay route
    answers either with the status 400 and the text "Unknown
    operation: ..." and hands nothing to the relayer's wallet. *)
Theorem relay_route_refuses_the_recovery_requests
    (isDelegateDisrupted isImplementationDisrupted : bool)
    (world : Oracle Ext)
    (implementation : string) (BigInt : JsValue -> option Z)
    (encodeFunctionData : Relay.FunctionCall -> option string)
    (message_of : Relay.Failure -> string)
    (wallet : Oracle Relay.Ext)
    (pre post : list Event) (url : string) (body : JsValue)
    (answer : Outcome FetchResponse) :
  events (recover isDelegateDisrupted isImplementationDisrupted) world
  = pre ++ ev_fetch url body answer :: post ->
  url = "/api/relay"
  /\ (body = delegate_request
      \/ exists signature, body = implementation_request signature)
  /\ exists operation,
       JsVal.prop "operation" body = Some (JString operation)
       /\ Relay.serve implementation BigInt encodeFunctionData message_of
            (Returned body) wallet
          = ([], Done {| Relay.body :=
                           JObject
                             [("error",
                               JString ("Unknown operation: " ++ operation))];
                         Relay.status := 400 |}).
Proof.
  intros Hsplit.
  destruct (recovery_paths isDelegateDisrupted isImplementationDisrupted
              world mounted) as (_ & _ & _ & Hrequests).
  rewrite Forall_forall in Hrequests.
  destruct (Hrequests (ev_fetch url body answer))
    as (body' & answer' & He & Hbody).
  { apply filter_In. split; [|reflexivity].
    fold (recover isDelegateDisrupted isImplementationDisrupted).
    rewrite Hsplit. apply in_elt. }
  inversion He; subst body' answer'. split; [reflexivity|].
  split; [exact Hbody|].
  destruct Hbody as [->|(signature & ->)].
  - exists "resetDelegate". split; reflexivity.
  - exists "resetImplementation". split; reflexivity.
Qed.

End Component.

(** The second theorem at work on the first request of a recovery of
    the zero address, in a world where every call succeeds. *)
Lemma relay_route_refuses_the_recovery_requests_witness :
  Relay.serve Contracts.CBSW_IMPLEMENTATION_ADDRESS (fun _ => None)
    encodeFunctionData_of_names (fun _ => "")
    (Returned (JObject [("operation", JString "resetDelegate");
                        ("targetAddress", JString Contracts.ZERO_ADDRESS)]))
    (answering_wallet (JString "0xabc"))
  = ([], Done {| Relay.body :=
                   JObject
                     [("error", JString "Unknown operation: resetDelegate")];
                 Relay.status := 400 |}).
Proof.
  destruct (relay_route_refuses_the_recovery_requests
              Contracts.ZERO_ADDRESS "passkey" true 1
              Contracts.CBSW_IMPLEMENTATION_ADDRESS true true obliging_world
              Contracts.CBSW_IMPLEMENTATION_ADDRESS (fun _ => None)
              encodeFunctionData_of_names (fun _ => "")
              (answering_wallet (JString "0xabc"))
              (firstn 5
                 (events
                    (handleRecover Contracts.ZERO_ADDRESS "passkey" true
                       true true 1 Contracts.CBSW_IMPLEMENTATION_ADDRESS)
                    obliging_world))
              (skipn 6
                 (events
                    (handleRecover Contracts.ZERO_ADDRESS "passkey" true
                       true true 1 Contracts.CBSW_IMPLEMENTATION_ADDRESS)
                    obliging_world))
              "/api/relay"
              (JObject [("operation", JString "resetDelegate");
                        ("targetAddress", JString Contracts.ZERO_ADDRESS)])
              (obliging_world _ 0 (fetch "/api/relay" JNull))
              eq_refl)
    as (_ & _ & operation & Hoperation & Hserve).
  inversion Hoperation; subst operation. exact Hserve.
Defined.

End CompletionFacts.
